(** * Memory-Cards-game: the game state machine and the AI move engine

    A shallow embedding of
      - src/types/game.types.ts      (the data model),
      - src/utils/cardUtils.ts       (deck generation, match evaluation),
      - src/utils/gameLogic.ts       (the state machine; the file that
                                      useGameLogic.ts imports under this name),
      - src/hooks/useGameLogic.ts    (the mismatch-reset mappings, the AI turn guard),
      - src/utils/aiLogic.ts         (AIPlayer.makeMove and what it calls),
    followed by the properties of the specification that concern them.

    Conventions of the embedding.
      - A JavaScript array is a [list]; [a[i]] is a lookup returning [option]
        ([None] is [undefined]).
      - A [number] used as an index is a [Z]; an index that may be
        [undefined] is an [option Z].
      - [Math.random()] is a draw from an explicit stream of rationals of
        [0,1); arithmetic on them is exact.
      - [Date.now()] is an explicit argument.
      - A thrown [TypeError] is the result [None] of an [option]-valued
        function.
      - [console.log] and friends are dropped. *)

From Stdlib Require Import ZArith NArith QArith Qround List Bool String Ascii Lia Permutation.
From Stdlib Require Import DecimalString DecimalNat Sorted.
From stdpp Require Import base decidable option list.

Import ListNotations.
Local Open Scope string_scope.
Local Open Scope list_scope.
Local Open Scope nat_scope.

(* ===================================================================== *)
(** ** JavaScript helpers *)
(* ===================================================================== *)

(** Truthiness of a string: only the empty string is falsy. *)
Definition truthy (s : string) : bool := negb (String.eqb s "").

(** [a[i]] for an integer index. *)
Definition at_index {A : Type} (a : list A) (i : Z) : option A :=
  if (i <? 0)%Z then None else a !! Z.to_nat i.

(** [a[i]] for an index that may be [undefined]. *)
Definition at_index_opt {A : Type} (a : list A) (i : option Z) : option A :=
  match i with
  | Some z => at_index a z
  | None => None
  end.

(** [a.findIndex(p)], with [-1] when no element satisfies [p]. *)
Fixpoint findIndex_from {A : Type} (p : A -> bool) (a : list A) (k : Z) : Z :=
  match a with
  | [] => (-1)%Z
  | x :: a' => if p x then k else findIndex_from p a' (k + 1)%Z
  end.

Definition findIndex {A : Type} (p : A -> bool) (a : list A) : Z :=
  findIndex_from p a 0%Z.

(** [a.slice(-n)] for a positive [n]: the last [n] elements ([a.slice(-0)]
    is the whole array). *)
Definition slice_last {A : Type} (n : nat) (a : list A) : list A :=
  if Nat.eqb n 0 then a else skipn (length a - n) a.

(** [[a[i], a[j]] = [a[j], a[i]]] for indices within the array. *)
Definition swap {A : Type} (a : list A) (i j : nat) : list A :=
  match a !! i, a !! j with
  | Some x, Some y => <[i := y]> (<[j := x]> a)
  | _, _ => a
  end.

(** The decimal numeral of a natural number, as template strings print it. *)
Definition decimal (n : nat) : string := NilEmpty.string_of_uint (Nat.to_uint n).

(* ===================================================================== *)
(** ** Randomness *)
(* ===================================================================== *)

(** One value of [Math.random()]: the rational [rnum / (rnum + rgap)], which
    lies in [0,1) by construction; every number of [0,1) with a finite
    binary expansion has this form. *)
Record Rand : Type := mkRand { rnum : N; rgap : positive }.

Definition rand_den (r : Rand) : positive :=
  match rnum r with
  | N0 => rgap r
  | Npos p => (p + rgap r)%positive
  end.

Definition rand_value (r : Rand) : Q := Z.of_N (rnum r) # rand_den r.

(** The source of randomness: the stream of the values [Math.random()]
    returns, in call order. *)
Definition Rng : Type := nat -> Rand.

(** Computations that draw from the stream. *)
Definition Gen (A : Type) : Type := Rng -> A * Rng.

#[global] Instance Gen_ret : MRet Gen := fun A x g => (x, g).
#[global] Instance Gen_bind : MBind Gen :=
  fun A B f m g => let (a, g') := m g in f a g'.

(** [Math.random()] *)
Definition random : Gen Rand := fun g => (g 0, fun n => g (S n)).

Definition Qltb (x y : Q) : bool := negb (Qle_bool y x).

(** [Math.floor(Math.random() * n)] *)
Definition random_below (n : nat) : Gen nat :=
  r ← random; mret (Z.to_nat (Qfloor (rand_value r * inject_Z (Z.of_nat n)))).

(** The Fisher-Yates loop
    [for (let i = a.length - 1; i > 0; i--) { j = floor(random() * (i + 1)); swap }]:
    [shuffle_loop i a] runs the iterations [i, i-1, ..., 1]. *)
Fixpoint shuffle_loop {A : Type} (i : nat) (a : list A) : Gen (list A) :=
  match i with
  | O => mret a
  | S i' => j ← random_below (S i); shuffle_loop i' (swap a i j)
  end.

(* ===================================================================== *)
(** ** types/game.types.ts *)
(* ===================================================================== *)

Inductive Suit : Set := hearts | diamonds | clubs | spades.
Inductive Rank : Set :=
  rA | r2 | r3 | r4 | r5 | r6 | r7 | r8 | r9 | r10 | rJ | rQ | rK.
Inductive CardColor : Set := red | black.
Inductive MatchType : Set := mt_color | mt_rank | mt_suit.
Inductive BoardSize : Set := b4x4 | b4x6 | b6x6.
Inductive GameMode : Set := gm_ai | gm_local_multiplayer | gm_ai_vs_ai.
Inductive AIDifficulty : Set := easy | medium | hard | expert.
Inductive GameStatus : Set := setup | playing | paused | finished.
Inductive PlayerType : Set := human | ai.

#[global] Instance Suit_eq_dec : EqDecision Suit.
Proof. solve_decision. Defined.
#[global] Instance Rank_eq_dec : EqDecision Rank.
Proof. solve_decision. Defined.
#[global] Instance CardColor_eq_dec : EqDecision CardColor.
Proof. solve_decision. Defined.
#[global] Instance GameMode_eq_dec : EqDecision GameMode.
Proof. solve_decision. Defined.
#[global] Instance AIDifficulty_eq_dec : EqDecision AIDifficulty.
Proof. solve_decision. Defined.
#[global] Instance GameStatus_eq_dec : EqDecision GameStatus.
Proof. solve_decision. Defined.
#[global] Instance PlayerType_eq_dec : EqDecision PlayerType.
Proof. solve_decision. Defined.

Record Card : Type := mkCard {
  id : string;
  suit : Suit;
  rank : Rank;
  color : CardColor;
  position : nat;
  isFlipped : bool;
  isMatched : bool
}.

Record Player : Type := mkPlayer {
  p_id : string;
  p_name : string;
  p_type : PlayerType;
  score : nat;
  matches : list (list Card);
  isCurrentPlayer : bool;
  aiDifficulty : option AIDifficulty
}.

Record Move : Type := mkMove {
  playerId : string;
  cardIds : list string;
  timestamp : Z;
  isMatch : bool
}.

Inductive AnimationSpeed : Set := slow | normal | fast.
Inductive Theme : Set := light | dark | minimalist | cyberpunk | neon | forest.
Inductive CardTheme : Set := classic | modern | minimal.

Record GameSettings : Type := mkSettings {
  soundEnabled : bool;
  animationSpeed : AnimationSpeed;
  theme : Theme;
  showTimer : bool;
  hintsEnabled : bool;
  cardTheme : CardTheme;
  turnTimeLimit : option Z
}.

Record GameState : Type := mkState {
  gameMode : GameMode;
  matchType : MatchType;
  boardSize : BoardSize;
  currentPlayer : string;
  players : list Player;
  cards : list Card;
  flippedCards : list Card;
  matchedPairs : list (list Card);
  gameStatus : GameStatus;
  turnStartTime : option Z;
  gameStartTime : option Z;
  moveHistory : list Move;
  settings : GameSettings
}.

(** [AIMemory.knownCards] is a JavaScript [Map]: its entries are kept in
    insertion order, which the engine's scans depend on. *)
Record AIMemory : Type := mkMemory {
  knownCards : list (Z * Card);
  knownPairs : list (Z * Z);
  playerPatterns : list string;
  lastPlayerMoves : list Move;
  difficulty : AIDifficulty
}.

(** [GAME_CONSTANTS] *)
Definition AI_MEMORY_LIMITS (d : AIDifficulty) : nat :=
  match d with easy => 3 | medium => 7 | hard => 12 | expert => 20 end.

Definition AI_OPTIMAL_PLAY_RATES (d : AIDifficulty) : Q :=
  match d with
  | easy => 3 # 10 | medium => 6 # 10 | hard => 85 # 100 | expert => 95 # 100
  end.

Definition AI_REACTION_TIMES (d : AIDifficulty) : Z * Z :=
  match d with
  | easy => (1000, 2000) | medium => (500, 1000)
  | hard => (200, 500) | expert => (100, 300)
  end%Z.

(** Functional record updates, [{ ...x, field: v }]. *)
Definition with_isFlipped (b : bool) (c : Card) : Card :=
  mkCard (id c) (suit c) (rank c) (color c) (position c) b (isMatched c).

Definition with_matched_flipped (c : Card) : Card :=
  mkCard (id c) (suit c) (rank c) (color c) (position c) true true.

Definition with_position (n : nat) (c : Card) : Card :=
  mkCard (id c) (suit c) (rank c) (color c) n (isFlipped c) (isMatched c).

Definition with_cards_flipped (cs fs : list Card) (s : GameState) : GameState :=
  mkState (gameMode s) (matchType s) (boardSize s) (currentPlayer s) (players s)
          cs fs (matchedPairs s) (gameStatus s) (turnStartTime s)
          (gameStartTime s) (moveHistory s) (settings s).

Definition with_gameStatus (g : GameStatus) (s : GameState) : GameState :=
  mkState (gameMode s) (matchType s) (boardSize s) (currentPlayer s) (players s)
          (cards s) (flippedCards s) (matchedPairs s) g (turnStartTime s)
          (gameStartTime s) (moveHistory s) (settings s).

(* ===================================================================== *)
(** ** utils/cardUtils.ts *)
(* ===================================================================== *)

Module CardUtils.

(** The attributes of a card before it is given an identity:
    [Omit<Card, 'id' | 'position' | 'isFlipped' | 'isMatched'>]. *)
Record BaseCard : Type := mkBase {
  b_suit : Suit;
  b_rank : Rank;
  b_color : CardColor
}.

Definition suits : list Suit := [hearts; diamonds; clubs; spades].
Definition ranks : list Rank :=
  [rA; r2; r3; r4; r5; r6; r7; r8; r9; r10; rJ; rQ; rK].

Definition getBoardDimensions (b : BoardSize) : nat * nat * nat :=
  match b with
  | b4x4 => (4, 4, 16)
  | b4x6 => (4, 6, 24)
  | b6x6 => (6, 6, 36)
  end.

Definition total (b : BoardSize) : nat := snd (getBoardDimensions b).

Definition cardsMatch (card1 card2 : Card) (matchType : MatchType) : bool :=
  match matchType with
  | mt_color => bool_decide (color card1 = color card2)
  | mt_rank => bool_decide (rank card1 = rank card2)
  | mt_suit => bool_decide (suit card1 = suit card2)
  end.

Definition getCardColor (s : Suit) : CardColor :=
  if bool_decide (s = hearts) || bool_decide (s = diamonds) then red else black.

(** [suits[index % 4]] and [ranks[floor(index / 4) % 13]]; both lookups are
    within the arrays, the fallbacks are never used. *)
Definition generateBaseCard (index : nat) (matchType : MatchType) : BaseCard :=
  let suitIndex := index mod length suits in
  let rankIndex := (index / length suits) mod length ranks in
  let s := nth suitIndex suits hearts in
  let r := nth rankIndex ranks rA in
  let c := if bool_decide (s = hearts) || bool_decide (s = diamonds)
           then red else black in
  mkBase s r c.

(** [xs[Math.floor(Math.random() * xs.length)] || fallback] *)
Definition pick_or {A : Type} (xs : list A) (fallback : A) : Gen A :=
  k ← random_below (length xs); mret (default fallback (xs !! k)).

Definition generateMatchingCard (baseCard : BaseCard) (matchType : MatchType)
  : Gen BaseCard :=
  match matchType with
  | mt_color =>
      let samColorSuits :=
        List.filter (fun s => bool_decide (getCardColor s = b_color baseCard)
                              && negb (bool_decide (s = b_suit baseCard))) suits in
      newSuit ← pick_or samColorSuits (b_suit baseCard);
      mret (mkBase newSuit (b_rank baseCard) (b_color baseCard))
  | mt_rank =>
      let differentSuits :=
        List.filter (fun s => negb (bool_decide (s = b_suit baseCard))) suits in
      newSuit ← pick_or differentSuits hearts;
      mret (mkBase newSuit (b_rank baseCard) (getCardColor newSuit))
  | mt_suit =>
      let differentRanks :=
        List.filter (fun r => negb (bool_decide (r = b_rank baseCard))) ranks in
      newRank ← pick_or differentRanks rA;
      mret (mkBase (b_suit baseCard) newRank (b_color baseCard))
  end.

Definition shuffleArray {A : Type} (array : list A) : Gen (list A) :=
  shuffle_loop (length array - 1) array.

(** [{ ...base, id: `card-${cardId}`, position, isFlipped: false, isMatched: false }] *)
Definition make_card (b : BaseCard) (cardId position : nat) : Card :=
  mkCard (String.append "card-" (decimal cardId)) (b_suit b) (b_rank b) (b_color b)
         position false false.

(** The pair-generating loop of [generateGameCards]: iteration [i] of
    [numPairs], with [cards] the array built so far; [cardId] equals
    [cards.length] throughout. *)
Fixpoint generate_pairs (n i : nat) (matchType : MatchType) (cards : list Card)
  : Gen (list Card) :=
  match n with
  | O => mret cards
  | S n' =>
      let baseCard := generateBaseCard i matchType in
      pair ← generateMatchingCard baseCard matchType;
      let cards1 := cards ++ [make_card baseCard (2 * i) (length cards)] in
      let cards2 := cards1 ++ [make_card pair (2 * i + 1) (length cards1)] in
      generate_pairs n' (S i) matchType cards2
  end.

(** The deck before it is shuffled. *)
Definition unshuffledCards (boardSize : BoardSize) (matchType : MatchType)
  : Gen (list Card) :=
  let totalCards := total boardSize in
  let numPairs := totalCards / 2 in
  generate_pairs numPairs 0 matchType [].

Definition generateGameCards (boardSize : BoardSize) (matchType : MatchType)
  : Gen (list Card) :=
  cards ← unshuffledCards boardSize matchType;
  shuffled ← shuffleArray cards;
  mret (imap (fun index card => with_position index card) shuffled).

Definition resetFlippedCards (cards : list Card) : list Card :=
  map (fun card =>
         if isFlipped card && negb (isMatched card)
         then with_isFlipped false card
         else card) cards.

(** The loop [for (let i = 0; i < cards.length; i += 2)] of
    [validateCardDeck], on the cards from index [i] on. With one card left
    [cards[i + 1]] is [undefined], and [cardsMatch] throws when it reads its
    attribute. *)
Fixpoint validate_pairs (cards : list Card) (matchType : MatchType) : option bool :=
  match cards with
  | [] => Some true
  | [card1] => None
  | card1 :: card2 :: rest =>
      if negb (cardsMatch card1 card2 matchType) then Some false
      else validate_pairs rest matchType
  end.

Definition validateCardDeck (cards : list Card) (matchType : MatchType)
  : option bool :=
  if negb (length cards mod 2 =? 0) then Some false
  else validate_pairs cards matchType.

End CardUtils.

(* ===================================================================== *)
(** ** utils/gameLogic.ts *)
(* ===================================================================== *)

Module GameLogic.
Import CardUtils.

(** How a template string prints an optional difficulty. *)
Definition show_difficulty (d : option AIDifficulty) : string :=
  match d with
  | Some easy => "easy"
  | Some medium => "medium"
  | Some hard => "hard"
  | Some expert => "expert"
  | None => "undefined"
  end.

(** [name || fallback] for an optional string. *)
Definition string_or (s : option string) (fallback : string) : string :=
  match s with
  | Some x => if truthy x then x else fallback
  | None => fallback
  end.

(** [now_turn] and [now_game] are the two readings of [Date.now()]. *)
Definition initializeGame (gameMode : GameMode) (matchType : MatchType)
    (boardSize : BoardSize) (player1Name : string) (player2Name : option string)
    (aiDifficulty ai2Difficulty : option AIDifficulty) (now_turn now_game : Z)
  : Gen GameState :=
  cards ← generateGameCards boardSize matchType;
  let isAvA := bool_decide (gameMode = gm_ai_vs_ai) in
  let first :=
    mkPlayer (if isAvA then "ai1" else "player1") player1Name
             (if isAvA then ai else human) 0 [] true
             (if isAvA then aiDifficulty else None) in
  let second :=
    match gameMode with
    | gm_ai =>
        mkPlayer "ai" (String.append "AI (" (String.append (show_difficulty aiDifficulty) ")"))
                 ai 0 [] false aiDifficulty
    | gm_ai_vs_ai =>
        mkPlayer "ai2" (String.append "AI 2 (" (String.append (show_difficulty ai2Difficulty) ")"))
                 ai 0 [] false ai2Difficulty
    | gm_local_multiplayer =>
        mkPlayer "player2" (string_or player2Name "Player 2") human 0 [] false None
    end in
  mret (mkState gameMode matchType boardSize
                (if isAvA then "ai1" else "player1")
                [first; second] cards [] [] playing
                (Some now_turn) (Some now_game) []
                (mkSettings true normal dark true
                            (bool_decide (gameMode = gm_local_multiplayer))
                            classic None)).

Definition canFlipCard (gameState : GameState) (cardIndex : Z) : bool :=
  if (cardIndex <? 0)%Z || (Z.of_nat (length (cards gameState)) <=? cardIndex)%Z
  then false
  else
    match at_index (cards gameState) cardIndex with
    | None => false
    | Some card =>
        if negb (truthy (id card)) then false
        else
          bool_decide (gameStatus gameState = playing)
          && negb (isFlipped card)
          && negb (isMatched card)
          && (length (flippedCards gameState) <? 2)
    end.

Definition isGameFinished (gameState : GameState) : bool :=
  forallb isMatched (cards gameState).

(** [players[nextIndex].id] throws when [players] is empty ([nextIndex] is
    [NaN] then); otherwise [nextIndex] is within the array. *)
Definition getNextPlayer (gameState : GameState) : option string :=
  let currentIndex :=
    findIndex (fun p => String.eqb (p_id p) (currentPlayer gameState))
              (players gameState) in
  match players gameState with
  | [] => None
  | _ =>
      let nextIndex := ((currentIndex + 1) mod Z.of_nat (length (players gameState)))%Z in
      p_id <$> at_index (players gameState) nextIndex
  end.

(** The [newCards.map] of a match: the cards carrying the id of [card1] or
    of [card2] become matched and stay flipped. *)
Definition mark_matched (card1 card2 card : Card) : Card :=
  if negb (truthy (id card)) || negb (truthy (id card1)) || negb (truthy (id card2))
  then card
  else if String.eqb (id card) (id card1) || String.eqb (id card) (id card2)
       then with_matched_flipped card
       else card.

Definition add_match (card1 card2 : Card) (p : Player) : Player :=
  mkPlayer (p_id p) (p_name p) (p_type p) (score p + 1)
           (matches p ++ [[card1; card2]]) (isCurrentPlayer p) (aiDifficulty p).

(** [now_move] and [now_turn] are the two readings of [Date.now()]. *)
Definition processCardPair (gameState : GameState) (now_move now_turn : Z)
  : option GameState :=
  match flippedCards gameState with
  | [card1; card2] =>
      if negb (truthy (id card1)) || negb (truthy (id card2))
      then Some gameState
      else
        let isMatch := cardsMatch card1 card2 (matchType gameState) in
        let move := mkMove (currentPlayer gameState) [id card1; id card2]
                           now_move isMatch in
        let newCards :=
          if isMatch then map (mark_matched card1 card2) (cards gameState)
          else cards gameState in
        let playerIndex :=
          findIndex (fun p => String.eqb (p_id p) (currentPlayer gameState))
                    (players gameState) in
        let newPlayers :=
          if isMatch && negb (playerIndex =? -1)%Z
          then match at_index (players gameState) playerIndex with
               | Some p => <[Z.to_nat playerIndex := add_match card1 card2 p]>
                             (players gameState)
               | None => players gameState
               end
          else players gameState in
        let newMatchedPairs :=
          if isMatch then matchedPairs gameState ++ [[card1; card2]]
          else matchedPairs gameState in
        newCurrent ←
          (if isMatch then Some (currentPlayer gameState)
           else if bool_decide (gameMode gameState = gm_ai_vs_ai)
                then Some (currentPlayer gameState)
                else getNextPlayer gameState);
        let newGameState :=
          mkState (gameMode gameState) (matchType gameState) (boardSize gameState)
                  newCurrent newPlayers newCards
                  (if isMatch then [] else flippedCards gameState)
                  newMatchedPairs (gameStatus gameState) (Some now_turn)
                  (gameStartTime gameState)
                  (moveHistory gameState ++ [move]) (settings gameState) in
        if isGameFinished newGameState
        then Some (with_gameStatus finished newGameState)
        else Some newGameState
  | _ => Some gameState
  end.

Definition handleCardFlip (gameState : GameState) (cardIndex : Z)
    (now_move now_turn : Z) : option GameState :=
  if negb (canFlipCard gameState cardIndex) then Some gameState
  else
    match at_index (cards gameState) cardIndex with
    | None => Some gameState
    | Some card =>
        if negb (truthy (id card)) then Some gameState
        else
          let flipped := with_isFlipped true card in
          let newCards := <[Z.to_nat cardIndex := flipped]> (cards gameState) in
          let newFlippedCards := flippedCards gameState ++ [flipped] in
          let newGameState := with_cards_flipped newCards newFlippedCards gameState in
          if length newFlippedCards =? 2
          then processCardPair newGameState now_move now_turn
          else Some newGameState
    end.

(** The state [resetFlippedCardsWithDelay] resolves to. *)
Definition resetFlippedCardsWithDelay (gameState : GameState) : GameState :=
  with_cards_flipped (resetFlippedCards (cards gameState)) [] gameState.

Definition toggleGamePause (gameState : GameState) (now : Z) : GameState :=
  let newStatus :=
    if bool_decide (gameStatus gameState = paused) then playing else paused in
  mkState (gameMode gameState) (matchType gameState) (boardSize gameState)
          (currentPlayer gameState) (players gameState) (cards gameState)
          (flippedCards gameState) (matchedPairs gameState) newStatus
          (if bool_decide (newStatus = playing) then Some now
           else turnStartTime gameState)
          (gameStartTime gameState) (moveHistory gameState) (settings gameState).

(** The nested loops [for i ... for j = i + 1 ...] returning at the first
    pair that satisfies [p]. *)
Fixpoint first_pair {A : Type} (p : A -> A -> bool) (a : list A) : option (A * A) :=
  match a with
  | [] => None
  | x :: a' =>
      match List.find (p x) a' with
      | Some y => Some (x, y)
      | None => first_pair p a'
      end
  end.

Definition getHint (gameState : GameState) : option (nat * nat) :=
  if negb (hintsEnabled (settings gameState)) then None
  else
    let unmatched :=
      List.filter (fun card => negb (isMatched card) && negb (isFlipped card))
                  (cards gameState) in
    match first_pair (fun x y => cardsMatch x y (matchType gameState)) unmatched with
    | Some (x, y) => Some (position x, position y)
    | None => None
    end.

(** [Math.max(...xs)]; [None] is [-Infinity], the maximum of no number. *)
Definition math_max (xs : list nat) : option nat :=
  match xs with
  | [] => None
  | x :: xs' => Some (fold_left Nat.max xs' x)
  end.

(** [players.filter(p => p.score === maxScore)] *)
Definition winners (gameState : GameState) : list Player :=
  let maxScore := math_max (map score (players gameState)) in
  List.filter (fun p => bool_decide (Some (score p) = maxScore)) (players gameState).

(** The result type [Player | Player[] | null] of [getGameWinner]. *)
Inductive Winner : Type :=
| NoWinner
| OneWinner (p : Player)
| Winners (ps : list Player).

(** [winners.length === 1 ? winners[0] : winners] *)
Definition getGameWinner (gameState : GameState) : Winner :=
  if negb (isGameFinished gameState) then NoWinner
  else
    match winners gameState with
    | [w] => OneWinner w
    | ws => Winners ws
    end.

Definition isGameDraw (gameState : GameState) : bool :=
  if negb (isGameFinished gameState) then false
  else 1 <? length (winners gameState).

(** [matchedCount / 2] is a division of numbers, not of integers. *)
Definition validateGameState (gameState : GameState) : bool :=
  if negb (length (cards gameState) mod 2 =? 0) then false
  else if (length (players gameState) <? 1) || (2 <? length (players gameState))
  then false
  else if 2 <? length (flippedCards gameState) then false
  else
    let flippedCount := length (List.filter isFlipped (cards gameState)) in
    let matchedCount := length (List.filter isMatched (cards gameState)) in
    if flippedCount <? length (flippedCards gameState) then false
    else if negb (matchedCount mod 2 =? 0) then false
    else
      let totalMatches := (inject_Z (Z.of_nat matchedCount) / 2)%Q in
      let playerScoreSum :=
        fold_left (fun sum player => sum + score player) (players gameState) 0 in
      if negb (Qeq_bool (inject_Z (Z.of_nat playerScoreSum)) totalMatches)
      then false
      else true.

(** [cards.map((card, index) => ({ card, index })).filter(...).map(({ index }) => index)] *)
Definition getAvailableMoves (gameState : GameState) : list Z :=
  map snd
    (List.filter (fun ci : Card * Z => negb (isFlipped (fst ci)) && negb (isMatched (fst ci)))
                 (imap (fun index card => (card, Z.of_nat index)) (cards gameState))).

(** [applyAIMove]: two flips, each with its two readings of [Date.now()];
    the pause between them changes nothing. *)
Definition applyAIMove (gameState : GameState) (cardIndices : Z * Z)
    (now_move1 now_turn1 now_move2 now_turn2 : Z) : option GameState :=
  newState ← handleCardFlip gameState (fst cardIndices) now_move1 now_turn1;
  handleCardFlip newState (snd cardIndices) now_move2 now_turn2.

(** [Number.isSafeInteger]: an integer of magnitude below 2^53. *)
Definition safe_integer (z : Z) : bool := (Z.abs z <=? 9007199254740991)%Z.

(** The values [getTurnTimeRemaining] computes with are all safe integers:
    the limit, the two readings of the clock, [turnTimeLimit * 1000],
    [elapsed] and [remaining]. *)
Definition exact_range (limit start now : Z) : bool :=
  safe_integer limit && safe_integer start && safe_integer now
  && safe_integer (limit * 1000) && safe_integer (now - start)
  && safe_integer (limit * 1000 - (now - start)).

(** [getTurnTimeRemaining], for a limit that is a whole number of seconds;
    [now] is the reading of [Date.now()]. A limit or a start time of [0] is
    falsy, like a missing one. The source computes on doubles. While every
    value is a safe integer the product and the two differences are exact,
    and [Math.floor(remaining / 1000)] is the integer quotient: the exact
    quotient lies at least 1/1000 below the next integer, and the doubles
    below 2^44 lie less than 1/500 apart, so rounding cannot reach it. In
    that range the result is computed on [Z]; outside of it the embedding
    gives no answer ([None]). *)
Definition getTurnTimeRemaining (gameState : GameState) (now : Z) : option Z :=
  match turnTimeLimit (settings gameState), turnStartTime gameState with
  | Some limit, Some start =>
      if (limit =? 0)%Z || (start =? 0)%Z then Some 0%Z
      else
        let elapsed := (now - start)%Z in
        let remaining := (limit * 1000 - elapsed)%Z in
        if exact_range limit start now
        then Some (Z.max 0 (remaining / 1000))
        else None
  | _, _ => Some 0%Z
  end.

End GameLogic.

(* ===================================================================== *)
(** ** utils/aiLogic.ts *)
(* ===================================================================== *)

Module AILogic.
Import CardUtils.

(** A move as [makeMove] returns it: two indices, either of which is
    [undefined] when it was read past the end of an array. *)
Definition MovePair : Type := option Z * option Z.

(** [cards.forEach((card, index) => ...)]: the elements with their indices. *)
Definition indexed {A : Type} (a : list A) : list (Z * A) :=
  imap (fun i x => (Z.of_nat i, x)) a.

(** *** The operations of a JavaScript [Map<number, Card>] on its entries *)

Definition map_has (k : Z) (m : list (Z * Card)) : bool :=
  existsb (fun e => (fst e =? k)%Z) m.

Definition map_get (k : Z) (m : list (Z * Card)) : option Card :=
  snd <$> List.find (fun e => (fst e =? k)%Z) m.

Definition map_delete (k : Z) (m : list (Z * Card)) : list (Z * Card) :=
  List.filter (fun e => negb (fst e =? k)%Z) m.

(** [m.set(k, v)]: an existing key keeps its place, a new one goes last. *)
Definition map_set (k : Z) (v : Card) (m : list (Z * Card)) : list (Z * Card) :=
  if map_has k m
  then map (fun e => if (fst e =? k)%Z then (k, v) else e) m
  else m ++ [(k, v)].

(** [new Map(entries)] *)
Definition map_of_entries (entries : list (Z * Card)) : list (Z * Card) :=
  fold_left (fun m e => map_set (fst e) (snd e) m) entries [].

(** [new Set(xs).has(k)] *)
Definition set_has (xs : list Z) (k : Z) : bool :=
  existsb (fun x => (x =? k)%Z) xs.

Definition with_knownCards (k : list (Z * Card)) (m : AIMemory) : AIMemory :=
  mkMemory k (knownPairs m) (playerPatterns m) (lastPlayerMoves m) (difficulty m).

Definition with_knownPairs (p : list (Z * Z)) (m : AIMemory) : AIMemory :=
  mkMemory (knownCards m) p (playerPatterns m) (lastPlayerMoves m) (difficulty m).

Definition with_lastPlayerMoves (l : list Move) (m : AIMemory) : AIMemory :=
  mkMemory (knownCards m) (knownPairs m) (playerPatterns m) l (difficulty m).

(** [new AIPlayer(difficulty)] *)
Definition newAIPlayer (d : AIDifficulty) : AIMemory := mkMemory [] [] [] [] d.

(** [knownPairs.flat()] *)
Definition flat_pairs (ps : list (Z * Z)) : list Z :=
  flat_map (fun p => [fst p; snd p]) ps.

(** A loop body run over a list, threading an accumulator and the draws. *)
Fixpoint foldM {A B : Type} (f : B -> A -> Gen B) (acc : B) (xs : list A) : Gen B :=
  match xs with
  | [] => mret acc
  | x :: xs' => acc' ← f acc x; foldM f acc' xs'
  end.

Definition matched_indices (cards : list Card) : list Z :=
  map fst (List.filter (fun e => isMatched (snd e)) (indexed cards)).

Definition purgeMatchedCardsFromMemory (memory : AIMemory) (cards : list Card)
  : AIMemory :=
  let matchedIndices := matched_indices cards in
  let known := fold_left (fun m i => map_delete i m) matchedIndices
                         (knownCards memory) in
  let pairs :=
    List.filter (fun p => negb (set_has matchedIndices (fst p))
                          && negb (set_has matchedIndices (snd p)))
                (knownPairs memory) in
  with_knownPairs pairs (with_knownCards known memory).

Definition strictlyAvailable (card : Card) : bool :=
  truthy (id card) && negb (isFlipped card) && negb (isMatched card).

Definition findStrictlyAvailableCards (cards : list Card) : list Z :=
  map fst (List.filter (fun e => strictlyAvailable (snd e)) (indexed cards)).

Definition getMemoryReliability (memory : AIMemory) : Q :=
  match difficulty memory with
  | easy => 7 # 10
  | medium => 85 # 100
  | hard => 95 # 100
  | expert => 1
  end.

(** [Math.random() * (max - min) + min] *)
Definition getReactionDelay (memory : AIMemory) : Gen Q :=
  let (min, max) := AI_REACTION_TIMES (difficulty memory) in
  r ← random; mret (rand_value r * inject_Z (max - min) + inject_Z min)%Q.

(** The body of the second [cards.forEach] of [updateMemory]. *)
Definition remember_card (reliability : Q) (known : list (Z * Card))
    (e : Z * Card) : Gen (list (Z * Card)) :=
  let (index, card) := e in
  if truthy (id card) then
    if isMatched card then mret (map_delete index known)
    else if isFlipped card then
      r ← random;
      if Qltb (rand_value r) reliability
      then mret (map_set index card known)
      else mret known
    else if negb (isFlipped card) && negb (isMatched card) then
      if map_has index known then
        match map_get index known with
        | Some rememberedCard =>
            mret (map_set index
                    (mkCard (id card) (suit rememberedCard) (rank rememberedCard)
                            (color rememberedCard) (position card)
                            (isFlipped card) (isMatched card))
                    known)
        | None => mret known
        end
      else mret known
    else mret known
  else mret known.

(** The [while] loop that fills [keepEntries] from [remainingEntries]; every
    iteration removes one remaining entry, so [length remainingEntries]
    iterations are all it can run. *)
Fixpoint fill_randomly (fuel limit : nat) (keepEntries remainingEntries : list (Z * Card))
  : Gen (list (Z * Card)) :=
  match fuel with
  | O => mret keepEntries
  | S fuel' =>
      if (length keepEntries <? limit) && (0 <? length remainingEntries) then
        randomIndex ← random_below (length remainingEntries);
        fill_randomly fuel' limit
          (keepEntries ++ option_list (remainingEntries !! randomIndex))
          (delete randomIndex remainingEntries)
      else mret keepEntries
  end.

Definition limit_memory (memory : AIMemory) (known : list (Z * Card))
  : Gen (list (Z * Card)) :=
  let memoryLimit := AI_MEMORY_LIMITS (difficulty memory) in
  if memoryLimit <? length known then
    let entries := known in
    keepEntries ←
      (if bool_decide (difficulty memory = easy)
          || bool_decide (difficulty memory = medium)
       then mret (slice_last memoryLimit entries)
       else
         let pairedIndices := flat_pairs (knownPairs memory) in
         let kept :=
           fold_left (fun keep entry =>
                        if set_has pairedIndices (fst entry)
                           && (length keep <? memoryLimit)
                        then keep ++ [entry] else keep)
                     entries [] in
         let remainingEntries :=
           List.filter (fun entry => negb (set_has pairedIndices (fst entry)))
                       entries in
         fill_randomly (length remainingEntries) memoryLimit kept remainingEntries);
    mret (map_of_entries keepEntries)
  else mret known.

(** The pairs [(a[i], a[j])], [i < j], in the order the nested loops of
    [updateKnownPairs] visit them. *)
Fixpoint ordered_pairs {A : Type} (a : list A) : list (A * A) :=
  match a with
  | [] => []
  | x :: a' => map (fun y => (x, y)) a' ++ ordered_pairs a'
  end.

Definition updateKnownPairs (memory : AIMemory) (cards : list Card) : AIMemory :=
  let knownCardEntries := knownCards memory in
  let pairs :=
    fold_left
      (fun pairs (ee : (Z * Card) * (Z * Card)) =>
         let '((index1, card1), (index2, card2)) := ee in
         if negb (truthy (id card1)) || negb (truthy (id card2)) then pairs
         else if cardsMatch card1 card2 mt_color || cardsMatch card1 card2 mt_rank
                 || cardsMatch card1 card2 mt_suit
         then
           let pairExists :=
             existsb (fun p => ((fst p =? index1) && (snd p =? index2)
                                || (fst p =? index2) && (snd p =? index1))%Z) pairs in
           if pairExists then pairs else pairs ++ [(index1, index2)]
         else pairs)
      (ordered_pairs knownCardEntries) (knownPairs memory) in
  with_knownPairs pairs memory.

(** [updateMemory]; its [recentMoves.forEach] only logs and is left out. *)
Definition updateMemory (memory : AIMemory) (cards : list Card)
    (recentMoves : list Move) : Gen AIMemory :=
  let known0 := fold_left (fun m i => map_delete i m) (matched_indices cards)
                          (knownCards memory) in
  known1 ← foldM (remember_card (getMemoryReliability memory)) known0 (indexed cards);
  let pairs1 :=
    List.filter
      (fun p => match at_index cards (fst p), at_index cards (snd p) with
                | Some card1, Some card2 =>
                    negb (isMatched card1) && negb (isMatched card2)
                | _, _ => false
                end)
      (knownPairs memory) in
  let memory1 := with_knownPairs pairs1 (with_knownCards known1 memory) in
  known2 ← limit_memory memory1 known1;
  let memory2 := updateKnownPairs (with_knownCards known2 memory1) cards in
  mret (with_lastPlayerMoves (slice_last 5 recentMoves) memory2).

Definition findSafeKnownMatch (memory : AIMemory) (cards : list Card)
    (matchType : MatchType) (availableIndices : list Z) : option MovePair :=
  (fun p : Z * Z => (Some (fst p), Some (snd p))) <$>
  List.find
    (fun p : Z * Z =>
       set_has availableIndices (fst p) && set_has availableIndices (snd p)
       && match at_index cards (fst p), at_index cards (snd p) with
          | Some card1, Some card2 => cardsMatch card1 card2 matchType
          | _, _ => false
          end)
    (knownPairs memory).

(** The inline Fisher-Yates loop followed by [[shuffled[0], shuffled[1]]]. *)
Definition shuffled_first_two (xs : list Z) : Gen MovePair :=
  shuffled ← shuffle_loop (length xs - 1) xs;
  mret (shuffled !! 0, shuffled !! 1).

Definition findSafeStrategicMove (memory : AIMemory) (availableIndices : list Z)
  : Gen (option MovePair) :=
  if length availableIndices <? 2 then mret None
  else
    let unknownCards :=
      List.filter (fun card : Z * bool => negb (snd card))
        (map (fun idx => (idx, map_has idx (knownCards memory))) availableIndices) in
    if bool_decide (difficulty memory = expert) && (2 <=? length unknownCards) then
      shuffled ← shuffle_loop (length unknownCards - 1) unknownCards;
      mret (Some (fst <$> shuffled !! 0, fst <$> shuffled !! 1))
    else
      let knownPairIndices := flat_pairs (knownPairs memory) in
      let nonPairCards :=
        List.filter (fun idx => negb (set_has knownPairIndices idx)) availableIndices in
      if bool_decide (difficulty memory = hard) && (2 <=? length nonPairCards) then
        m ← shuffled_first_two nonPairCards; mret (Some m)
      else
        m ← shuffled_first_two availableIndices; mret (Some m).

(** The inner loop [for (const otherIndex of availableIndices)] of
    [findSafeInferredMatch]; its inline [switch] is [cardsMatch]. *)
Definition find_other (cards : list Card) (matchType : MatchType)
    (availableIndices : list Z) (knownIndex : Z) (knownCard : Card) : option Z :=
  List.find
    (fun otherIndex =>
       negb (knownIndex =? otherIndex)%Z
       && match at_index cards otherIndex with
          | Some otherCard => cardsMatch knownCard otherCard matchType
          | None => false
          end)
    availableIndices.

(** The first loop of the expert branch. *)
Fixpoint expert_inferred (cards : list Card) (matchType : MatchType)
    (availableIndices : list Z) (known : list (Z * Card)) : option MovePair :=
  match known with
  | [] => None
  | (knownIndex, knownCard) :: known' =>
      if negb (set_has availableIndices knownIndex) || negb (truthy (id knownCard))
      then expert_inferred cards matchType availableIndices known'
      else
        match find_other cards matchType availableIndices knownIndex knownCard with
        | Some otherIndex => Some (Some knownIndex, Some otherIndex)
        | None => expert_inferred cards matchType availableIndices known'
        end
  end.

(** The second loop of the expert branch; [all] is the whole entry list,
    scanned by the inner loop. *)
Fixpoint expert_known_pair (matchType : MatchType) (availableIndices : list Z)
    (all known : list (Z * Card)) : option MovePair :=
  match known with
  | [] => None
  | (knownIndex1, knownCard1) :: known' =>
      if negb (set_has availableIndices knownIndex1) || negb (truthy (id knownCard1))
      then expert_known_pair matchType availableIndices all known'
      else
        match List.find
                (fun e2 : Z * Card =>
                   negb ((fst e2 <=? knownIndex1)%Z
                         || negb (set_has availableIndices (fst e2))
                         || negb (truthy (id (snd e2))))
                   && cardsMatch knownCard1 (snd e2) matchType)
                all with
        | Some e2 => Some (Some knownIndex1, Some (fst e2))
        | None => expert_known_pair matchType availableIndices all known'
        end
  end.

(** The last loop, with its roll [Math.random() > memoryAccuracy] per
    remembered card. *)
Fixpoint rolled_inferred (memoryAccuracy : Q) (cards : list Card)
    (matchType : MatchType) (availableIndices : list Z) (known : list (Z * Card))
  : Gen (option MovePair) :=
  match known with
  | [] => mret None
  | (knownIndex, knownCard) :: known' =>
      if negb (set_has availableIndices knownIndex) || negb (truthy (id knownCard))
      then rolled_inferred memoryAccuracy cards matchType availableIndices known'
      else
        r ← random;
        if Qltb memoryAccuracy (rand_value r)
        then rolled_inferred memoryAccuracy cards matchType availableIndices known'
        else
          match find_other cards matchType availableIndices knownIndex knownCard with
          | Some otherIndex => mret (Some (Some knownIndex, Some otherIndex))
          | None => rolled_inferred memoryAccuracy cards matchType availableIndices known'
          end
  end.

Definition findSafeInferredMatch (memory : AIMemory) (cards : list Card)
    (matchType : MatchType) (availableIndices : list Z) : Gen (option MovePair) :=
  let known := knownCards memory in
  let expertMove :=
    if bool_decide (difficulty memory = expert) then
      match expert_inferred cards matchType availableIndices known with
      | Some m => Some m
      | None => expert_known_pair matchType availableIndices known known
      end
    else None in
  match expertMove with
  | Some m => mret (Some m)
  | None =>
      let memoryAccuracy :=
        if bool_decide (difficulty memory = hard) then 85 # 100 else 6 # 10 in
      rolled_inferred memoryAccuracy cards matchType availableIndices known
  end.

Definition makeSafeRandomMove (availableIndices : list Z) : Gen MovePair :=
  shuffled_first_two availableIndices.

Definition calculateSafeMove (memory : AIMemory) (cards : list Card)
    (matchType : MatchType) (availableIndices : list Z) : Gen MovePair :=
  let optimalPlayRate := AI_OPTIMAL_PLAY_RATES (difficulty memory) in
  r ← random;
  if Qltb (rand_value r) optimalPlayRate then
    match findSafeKnownMatch memory cards matchType availableIndices with
    | Some knownMatch => mret knownMatch
    | None =>
        strategicMove ←
          (if bool_decide (difficulty memory = hard)
              || bool_decide (difficulty memory = expert)
           then findSafeStrategicMove memory availableIndices
           else mret None);
        match strategicMove with
        | Some m => mret m
        | None =>
            inferredMatch ←
              (if negb (bool_decide (difficulty memory = easy))
               then findSafeInferredMatch memory cards matchType availableIndices
               else mret None);
            match inferredMatch with
            | Some m => mret m
            | None => makeSafeRandomMove availableIndices
            end
        end
    end
  else makeSafeRandomMove availableIndices.

(** An [undefined] index fails the test: two of them are equal, and
    [cards[undefined]] is [undefined]. *)
Definition isValidMoveStrict (cards : list Card) (move : MovePair) : bool :=
  match move with
  | (Some index1, Some index2) =>
      if (index1 <? 0)%Z || (Z.of_nat (length cards) <=? index1)%Z
         || (index2 <? 0)%Z || (Z.of_nat (length cards) <=? index2)%Z then false
      else if (index1 =? index2)%Z then false
      else
        match at_index cards index1, at_index cards index2 with
        | Some card1, Some card2 =>
            if negb (truthy (id card1)) || negb (truthy (id card2)) then false
            else if isFlipped card1 || isMatched card1 then false
            else if isFlipped card2 || isMatched card2 then false
            else true
        | _, _ => false
        end
  | _ => false
  end.

(** The inner loop of [forceEmergencyMove]: the first [j > i] with an id. *)
Definition first_with_id (rest : list (Z * Card)) : option Z :=
  fst <$> List.find (fun e => truthy (id (snd e))) rest.

Fixpoint emergency_scan (a : list (Z * Card)) : option (Z * Z) :=
  match a with
  | [] => None
  | (i, card) :: a' =>
      if truthy (id card) then
        match first_with_id a' with
        | Some j => Some (i, j)
        | None => emergency_scan a'
        end
      else emergency_scan a'
  end.

Definition forceEmergencyMove (cards : list Card) : MovePair :=
  match emergency_scan (indexed cards) with
  | Some (i, j) => (Some i, Some j)
  | None => (Some 0, Some (Z.min 1 (Z.of_nat (length cards) - 1)))%Z
  end.

(** [card?.isMatched === true] *)
Definition is_matched_at (cards : list Card) (i : option Z) : bool :=
  match at_index_opt cards i with
  | Some card => isMatched card
  | None => false
  end.

Definition validateAndCorrectMove (cards : list Card) (move : MovePair)
    (availableIndices : list Z) : MovePair :=
  let (index1, index2) := move in
  if is_matched_at cards index1 || is_matched_at cards index2 then
    if 2 <=? length availableIndices
    then (availableIndices !! 0, availableIndices !! 1)
    else forceEmergencyMove cards
  else if isValidMoveStrict cards move then move
  else if 2 <=? length availableIndices
       then (availableIndices !! 0, availableIndices !! 1)
       else forceEmergencyMove cards.

(** [makeMove]; the engine's memory is passed in and returned, and the
    [await] of the reaction delay is the draw that computes it. *)
Definition makeMove (memory : AIMemory) (cards : list Card)
    (matchType : MatchType) (playerMoves : list Move)
  : Gen (MovePair * AIMemory) :=
  if length cards =? 0 then mret ((Some 0%Z, Some 1%Z), memory)
  else
    let memory1 := purgeMatchedCardsFromMemory memory cards in
    let availableIndices := findStrictlyAvailableCards cards in
    if length availableIndices <? 2
    then mret (forceEmergencyMove cards, memory1)
    else
      memory2 ← updateMemory memory1 cards playerMoves;
      delay ← getReactionDelay memory2;
      selectedMove ← calculateSafeMove memory2 cards matchType availableIndices;
      mret (validateAndCorrectMove cards selectedMove availableIndices, memory2).

(** [determineMatchType]: the first card carrying each id, then the
    attributes in the order colour, rank, suit. *)
Definition determineMatchType (cardId1 cardId2 : string) (cards : list Card)
  : option MatchType :=
  match List.find (fun card => String.eqb (id card) cardId1) cards,
        List.find (fun card => String.eqb (id card) cardId2) cards with
  | Some card1, Some card2 =>
      if bool_decide (color card1 = color card2) then Some mt_color
      else if bool_decide (rank card1 = rank card2) then Some mt_rank
      else if bool_decide (suit card1 = suit card2) then Some mt_suit
      else None
  | _, _ => None
  end.

(** [validateMove], the validator of the engine's earlier move pipeline
    ([calculateBestMove] and what it calls). *)
Definition validateMove (cards : list Card) (move : MovePair) : bool :=
  match move with
  | (Some index1, Some index2) =>
      if (index1 <? 0)%Z || (Z.of_nat (length cards) <=? index1)%Z
         || (index2 <? 0)%Z || (Z.of_nat (length cards) <=? index2)%Z then false
      else if (index1 =? index2)%Z then false
      else
        match at_index cards index1, at_index cards index2 with
        | Some card1, Some card2 =>
            if negb (truthy (id card1)) || negb (truthy (id card2)) then false
            else if isFlipped card1 || isMatched card1
                    || isFlipped card2 || isMatched card2 then false
            else true
        | _, _ => false
        end
  | _ => false
  end.

End AILogic.

(* ===================================================================== *)
(** ** hooks/useGameLogic.ts *)
(* ===================================================================== *)

Module UseGameLogic.
Import CardUtils GameLogic AILogic.

(** The [resetCards] mapping, written out twice in the hook (after a human
    mismatch and after an AI mismatch). *)
Definition reset_card (card : Card) : Card :=
  if negb (truthy (id card)) then card
  else if isMatched card then card
  else if isFlipped card && negb (isMatched card) then with_isFlipped false card
  else card.

(** [resetState] of the timer started by [flipCard] after a mismatch. *)
Definition humanMismatchReset (newGameState : GameState) : GameState :=
  with_cards_flipped (map reset_card (cards newGameState)) [] newGameState.

(** [resetState] of the timer started by [scheduleAIMove] after a mismatch. *)
Definition aiMismatchReset (finalState : GameState) : GameState :=
  let resetCards := map reset_card (cards finalState) in
  let nextPlayer :=
    if bool_decide (gameMode finalState = gm_ai_vs_ai)
    then (if String.eqb (currentPlayer finalState) "ai1" then "ai2" else "ai1")
    else string_or
           (p_id <$> List.find (fun p => bool_decide (p_type p = human))
                               (players finalState))
           "player1" in
  mkState (gameMode finalState) (matchType finalState) (boardSize finalState)
          nextPlayer (players finalState) resetCards []
          (matchedPairs finalState) (gameStatus finalState)
          (turnStartTime finalState) (gameStartTime finalState)
          (moveHistory finalState) (settings finalState).

Definition togglePause (gameState : GameState) : GameState :=
  with_gameStatus
    (if bool_decide (gameStatus gameState = paused) then playing else paused)
    gameState.

(** What the innermost callback of [scheduleAIMove] decides before it
    flips anything. *)
Inductive AIDecision : Type :=
| GameComplete                       (* [handleGameComplete(latestState)] *)
| InvalidMove                        (* the error branches: nothing is flipped *)
| FlipCards (cardIndex1 cardIndex2 : Z).

(** [c && !c.isFlipped && !c.isMatched], the hook's own test. *)
Definition available (c : Card) : bool := negb (isFlipped c) && negb (isMatched c).

Definition aiDecision (currentAI : AIMemory) (latestState : GameState)
  : Gen (AIDecision * AIMemory) :=
  if isGameFinished latestState then mret (GameComplete, currentAI)
  else
    let availableCards := List.filter available (cards latestState) in
    if length availableCards <? 2 then mret (GameComplete, currentAI)
    else
      r ← makeMove currentAI (cards latestState) (matchType latestState)
                   (moveHistory latestState);
      let '(move, currentAI') := r in
      match move with
      | (Some cardIndex1, Some cardIndex2) =>
          if (cardIndex1 <? 0)%Z || (cardIndex2 <? 0)%Z
             || (Z.of_nat (length (cards latestState)) <=? cardIndex1)%Z
             || (Z.of_nat (length (cards latestState)) <=? cardIndex2)%Z
          then mret (InvalidMove, currentAI')
          else
            match at_index (cards latestState) cardIndex1,
                  at_index (cards latestState) cardIndex2 with
            | Some card1, Some card2 =>
                if isFlipped card1 || isMatched card1
                   || isFlipped card2 || isMatched card2
                then mret (InvalidMove, currentAI')
                else mret (FlipCards cardIndex1 cardIndex2, currentAI')
            | _, _ => mret (InvalidMove, currentAI')
            end
      | _ => mret (InvalidMove, currentAI')
      end.

(** The branch the callback of [scheduleAIMove] takes once the second card
    is flipped and [finalState] is stored. *)
Inductive AIFlipOutcome : Type :=
| InvalidFlippedArray   (* 'Invalid flipped cards array': nothing more is done *)
| InvalidFlippedCards   (* 'Invalid flipped cards detected' *)
| ReportComplete        (* [handleGameComplete(finalState)] *)
| MatchMade             (* 'AI made a match' *)
| MismatchReset.        (* the timer of the mismatch reset is started *)

Definition aiSecondFlipOutcome (finalState : GameState) : AIFlipOutcome :=
  match flippedCards finalState with
  | [card1; card2] =>
      if truthy (id card1) && truthy (id card2) then
        let cardsMatch :=
          match matchType finalState with
          | mt_color => bool_decide (color card1 = color card2)
          | mt_rank => bool_decide (rank card1 = rank card2)
          | mt_suit => bool_decide (suit card1 = suit card2)
          end in
        if isGameFinished finalState then ReportComplete
        else if cardsMatch then MatchMade
        else MismatchReset
      else InvalidFlippedCards
  | _ => InvalidFlippedArray
  end.

(** What [flipCard] does once [handleCardFlip] has returned [newGameState]. *)
Inductive FlipOutcome : Type :=
| InvalidFlipped        (* 'Invalid flipped cards detected in flipCard' *)
| StartReset            (* the timer of the mismatch reset is started *)
| Completed             (* [handleGameComplete(newGameState)] *)
| Continue.             (* nothing more is done *)

Definition flipCardOutcome (newGameState : GameState) : FlipOutcome :=
  let afterPair :=
    if isGameFinished newGameState then Completed else Continue in
  match flippedCards newGameState with
  | [card1; card2] =>
      if negb (truthy (id card1)) || negb (truthy (id card2)) then InvalidFlipped
      else
        let cardsMatch :=
          match matchType newGameState with
          | mt_color => bool_decide (color card1 = color card2)
          | mt_rank => bool_decide (rank card1 = rank card2)
          | mt_suit => bool_decide (suit card1 = suit card2)
          end in
        if negb cardsMatch then StartReset else afterPair
  | _ => afterPair
  end.

(** [getHint] of the hook: the gate is the flag of the application settings,
    and the match test is written out. *)
Definition hookGetHint (gameState : option GameState) (hintsEnabled : bool)
  : option (nat * nat) :=
  match gameState with
  | None => None
  | Some gameState =>
      if negb hintsEnabled then None
      else
        let unmatched :=
          List.filter (fun card => negb (isMatched card) && negb (isFlipped card))
                      (cards gameState) in
        match first_pair
                (fun card1 card2 =>
                   match matchType gameState with
                   | mt_color => bool_decide (color card1 = color card2)
                   | mt_rank => bool_decide (rank card1 = rank card2)
                   | mt_suit => bool_decide (suit card1 = suit card2)
                   end) unmatched with
        | Some (card1, card2) => Some (position card1, position card2)
        | None => None
        end
  end.

End UseGameLogic.

(* ===================================================================== *)
(** ** Transitions and reachable states *)
(* ===================================================================== *)

Import CardUtils GameLogic AILogic UseGameLogic.

(** The transitions of the state machine: a flip, the three forms of the
    mismatch reset, and the two forms of the pause toggle. *)
Inductive Transition : Type :=
| T_flip (cardIndex : Z) (now_move now_turn : Z)
| T_reset_delay
| T_reset_human
| T_reset_ai
| T_pause (now : Z)
| T_pause_hook.

Definition transition (t : Transition) (s : GameState) : option GameState :=
  match t with
  | T_flip cardIndex now_move now_turn => handleCardFlip s cardIndex now_move now_turn
  | T_reset_delay => Some (resetFlippedCardsWithDelay s)
  | T_reset_human => Some (humanMismatchReset s)
  | T_reset_ai => Some (aiMismatchReset s)
  | T_pause now => Some (toggleGamePause s now)
  | T_pause_hook => Some (togglePause s)
  end.

Definition is_pause (t : Transition) : bool :=
  match t with
  | T_pause _ | T_pause_hook => true
  | _ => false
  end.

(** The states a game passes through, from [initializeGame] on, by the
    transitions that [allowed] admits. *)
Inductive reachable (allowed : Transition -> bool) : GameState -> Prop :=
| reachable_init gameMode matchType boardSize player1Name player2Name
                 aiDifficulty ai2Difficulty now_turn now_game (g : Rng) :
    reachable allowed
      (fst (initializeGame gameMode matchType boardSize player1Name player2Name
                           aiDifficulty ai2Difficulty now_turn now_game g))
| reachable_step t s s' :
    reachable allowed s ->
    allowed t = true ->
    transition t s = Some s' ->
    reachable allowed s'.

(** Flips and mismatch resets only. *)
Definition play (t : Transition) : bool := negb (is_pause t).

(** Every transition. *)
Definition any (t : Transition) : bool := true.

Definition sum_scores (ps : list Player) : nat :=
  fold_right (fun p acc => score p + acc) 0 ps.

Definition count_matched (cs : list Card) : nat :=
  length (List.filter isMatched cs).

Definition count_available (cs : list Card) : nat :=
  length (List.filter available cs).

(* ===================================================================== *)
(** ** The vocabulary of the properties *)
(* ===================================================================== *)

(** Two distinct indices within the board, both at cards that are neither
    flipped nor matched. *)
Definition legal_move (cards : list Card) (move : MovePair) : Prop :=
  exists (i j : Z) (c1 c2 : Card),
    move = (Some i, Some j) /\ i <> j /\
    (0 <= i < Z.of_nat (length cards))%Z /\
    (0 <= j < Z.of_nat (length cards))%Z /\
    at_index cards i = Some c1 /\ at_index cards j = Some c2 /\
    isFlipped c1 = false /\ isMatched c1 = false /\
    isFlipped c2 = false /\ isMatched c2 = false.

(** Positions [p1], [p2] are those of two different cards of the board
    that are both available and match under the state's criterion. *)
Definition hint_pair (s : GameState) (p1 p2 : nat) : Prop :=
  exists (i j : nat) (c1 c2 : Card),
    i <> j /\ cards s !! i = Some c1 /\ cards s !! j = Some c2 /\
    available c1 = true /\ available c2 = true /\
    cardsMatch c1 c2 (matchType s) = true /\
    p1 = position c1 /\ p2 = position c2.

(** The filter of [getHint], [!card.isMatched && !card.isFlipped]. *)
Definition unflipped_unmatched (card : Card) : bool :=
  negb (isMatched card) && negb (isFlipped card).

(** The index of the player whose turn it is, [-1] if there is none. *)
Definition current_index (s : GameState) : Z :=
  findIndex (fun p => String.eqb (p_id p) (currentPlayer s)) (players s).

(** The state [processCardPair] builds for a pair with ids, before the
    test for the end of the game. *)
Definition resolved (s : GameState) (card1 card2 : Card) (isMatch : bool)
    (newCurrent : string) (now_move now_turn : Z) : GameState :=
  mkState (gameMode s) (matchType s) (boardSize s) newCurrent
          (if isMatch && negb (current_index s =? -1)%Z
           then match at_index (players s) (current_index s) with
                | Some p => <[Z.to_nat (current_index s) := add_match card1 card2 p]>
                              (players s)
                | None => players s
                end
           else players s)
          (if isMatch then map (mark_matched card1 card2) (cards s) else cards s)
          (if isMatch then [] else flippedCards s)
          (if isMatch then matchedPairs s ++ [[card1; card2]] else matchedPairs s)
          (gameStatus s) (Some now_turn) (gameStartTime s)
          (moveHistory s
           ++ [mkMove (currentPlayer s) [id card1; id card2] now_move isMatch])
          (settings s).

(** The last step of [processCardPair]. *)
Definition finish_if_done (s : GameState) : GameState :=
  if isGameFinished s then with_gameStatus finished s else s.

(** The state right after the card at [i] was turned, before any pair is
    resolved. *)
Definition turned (s : GameState) (i : Z) (c : Card) : GameState :=
  with_cards_flipped (<[Z.to_nat i := with_isFlipped true c]> (cards s))
                     (flippedCards s ++ [with_isFlipped true c]) s.

(** The player to move after the pair [card1], [card2] was judged. *)
Definition next_current (s : GameState) (card1 card2 : Card) : option string :=
  if cardsMatch card1 card2 (matchType s) then Some (currentPlayer s)
  else if bool_decide (gameMode s = gm_ai_vs_ai) then Some (currentPlayer s)
       else getNextPlayer s.

(** The four ways [handleCardFlip] returns a state: the flip is rejected;
    it turns the first card of a turn; it turns the second card but the
    card recorded first has no id, so the pair is left alone; it turns the
    second card and resolves the pair. *)
Inductive flip_shape (s : GameState) (i now_move now_turn : Z) (s' : GameState)
  : Prop :=
| flip_rejected :
    canFlipCard s i = false -> s' = s -> flip_shape s i now_move now_turn s'
| flip_first (c : Card) :
    canFlipCard s i = true -> at_index (cards s) i = Some c ->
    flippedCards s = [] -> s' = turned s i c ->
    flip_shape s i now_move now_turn s'
| flip_second_unresolved (c c1 : Card) :
    canFlipCard s i = true -> at_index (cards s) i = Some c ->
    flippedCards s = [c1] -> truthy (id c1) = false -> s' = turned s i c ->
    flip_shape s i now_move now_turn s'
| flip_second (c c1 : Card) (newCurrent : string) :
    canFlipCard s i = true -> at_index (cards s) i = Some c ->
    flippedCards s = [c1] -> truthy (id c1) = true ->
    next_current s c1 c = Some newCurrent ->
    s' = finish_if_done
           (resolved (turned s i c) c1 (with_isFlipped true c)
                     (cardsMatch c1 c (matchType s)) newCurrent now_move now_turn) ->
    flip_shape s i now_move now_turn s'.



(** What the partner of a base card is, for each criterion. *)
Definition partner_of (matchType : MatchType) (b p : BaseCard) : Prop :=
  match matchType with
  | mt_color => b_color p = b_color b /\ b_suit p <> b_suit b /\
                getCardColor (b_suit p) = b_color b
  | mt_rank => b_rank p = b_rank b /\ b_suit p <> b_suit b
  | mt_suit => b_suit p = b_suit b /\ b_rank p <> b_rank b
  end.

(** The id of the card numbered [n]. *)
Definition card_id (n : nat) : string := String.append "card-" (decimal n).

(** A card as the generator makes it: face down, unmatched. *)
Definition fresh (c : Card) : Prop := isFlipped c = false /\ isMatched c = false.


(** Who sits at the table, and who does in each mode. *)
Definition seats (s : GameState) : list (string * PlayerType) :=
  map (fun p => (p_id p, p_type p)) (players s).

Definition seats_of (m : GameMode) : list (string * PlayerType) :=
  match m with
  | gm_ai => [("player1", human); ("ai", ai)]
  | gm_local_multiplayer => [("player1", human); ("player2", human)]
  | gm_ai_vs_ai => [("ai1", ai); ("ai2", ai)]
  end.

(** A card recorded in [flippedCards] has an id and lies on the board,
    face up and unmatched. *)
Definition on_board_flipped (s : GameState) (f : Card) : Prop :=
  truthy (id f) = true /\
  exists (k : nat) (c : Card),
    cards s !! k = Some c /\ id c = id f /\ isFlipped c = true /\ isMatched c = false.

(** What holds of every state of a game that is played by flips and
    mismatch resets. *)
Record game_invariant (s : GameState) : Prop := mkInvariant {
  inv_ids : NoDup (map id (cards s));
  inv_flipped : Forall (on_board_flipped s) (flippedCards s);
  inv_scores : sum_scores (players s) = length (matchedPairs s);
  inv_matched : 2 * length (matchedPairs s) = count_matched (cards s);
  inv_seats : seats s = seats_of (gameMode s);
  inv_current : In (currentPlayer s) (map p_id (players s))
}.

(** The test of [mark_matched]: the card carries the id of either card of
    the pair. *)
Definition hit (card1 card2 c : Card) : bool :=
  String.eqb (id c) (id card1) || String.eqb (id c) (id card2).

(** What a transition leaves of a card: everything but its two flags. *)
Definition same_face (c c' : Card) : Prop :=
  id c' = id c /\ suit c' = suit c /\ rank c' = rank c /\
  color c' = color c /\ position c' = position c.

(** What a transition leaves of a player: everything but the score and the
    list of matches. *)
Definition same_seat (p p' : Player) : Prop :=
  p_id p' = p_id p /\ p_name p' = p_name p /\ p_type p' = p_type p /\
  isCurrentPlayer p' = isCurrentPlayer p /\ aiDifficulty p' = aiDifficulty p.

(** A seat is kept, and the score does not go down. *)
Definition seat_kept (p p' : Player) : Prop := same_seat p p' /\ score p <= score p'.

(** What a transition leaves of the state besides cards and players. *)
Definition same_setup (s s' : GameState) : Prop :=
  gameMode s' = gameMode s /\ matchType s' = matchType s /\
  boardSize s' = boardSize s /\ settings s' = settings s /\
  gameStartTime s' = gameStartTime s.

(** The board of a game: as many cards as the board size says, each with
    an id, at the position of its index and coloured by its suit; at most
    two cards recorded as flipped, different ones, and two only while they
    are a mismatch waiting to be turned back. *)
Record table_invariant (s : GameState) : Prop := mkTable {
  tab_length : length (cards s) = total (boardSize s);
  tab_ids : Forall (fun c => truthy (id c) = true) (cards s);
  tab_positions : forall (k : nat) (c : Card), cards s !! k = Some c -> position c = k;
  tab_colors : Forall (fun c => color c = getCardColor (suit c)) (cards s);
  tab_flipped_len : length (flippedCards s) <= 2;
  tab_flipped_ids : NoDup (map id (flippedCards s));
  tab_mismatch : forall c1 c2 : Card,
      flippedCards s = [c1; c2] -> cardsMatch c1 c2 (matchType s) = false
}.

(** The records a game keeps: a player's score counts the pairs credited to
    that player, every recorded pair is a match, the history has one
    matching move per recorded pair, every move names a seated player and
    two cards, and the [isCurrentPlayer] flags are those of the first turn. *)
Record ledger_invariant (s : GameState) : Prop := mkLedger {
  led_scores : Forall (fun p => score p = length (matches p)) (players s);
  led_pairs : Forall (fun pr => exists c1 c2 : Card,
                          pr = [c1; c2] /\ cardsMatch c1 c2 (matchType s) = true)
                     (matchedPairs s);
  led_credited : Forall (fun p => Forall (fun pr => In pr (matchedPairs s)) (matches p))
                        (players s);
  led_history : length (List.filter isMatch (moveHistory s)) = length (matchedPairs s);
  led_moves : Forall (fun m => In (playerId m) (map p_id (players s)) /\
                               length (cardIds m) = 2)
                     (moveHistory s);
  led_flags : map isCurrentPlayer (players s) = [true; false]
}.

(** The state with the hints switched on or off in its settings. *)
Definition with_hintsEnabled (b : bool) (s : GameState) : GameState :=
  mkState (gameMode s) (matchType s) (boardSize s) (currentPlayer s) (players s)
          (cards s) (flippedCards s) (matchedPairs s) (gameStatus s)
          (turnStartTime s) (gameStartTime s) (moveHistory s)
          (mkSettings (soundEnabled (settings s)) (animationSpeed (settings s))
                      (theme (settings s)) (showTimer (settings s)) b
                      (cardTheme (settings s)) (turnTimeLimit (settings s))).

(** The indices of the cards that carry an id, in board order. *)
Definition indices_with_id (cards : list Card) : list Z :=
  map fst (List.filter (fun e => truthy (id (snd e))) (indexed cards)).

(** What the engine remembers of a card is what the card at that index
    shows. *)
Definition remembers_truly (cards : list Card) (e : Z * Card) : Prop :=
  exists c : Card, at_index cards (fst e) = Some c /\
    suit (snd e) = suit c /\ rank (snd e) = rank c /\ color (snd e) = color c.

(* ===================================================================== *)
(** ** Concrete boards and games *)
(* ===================================================================== *)

(** The stream of draws that are all zero. *)
Definition zero_rng : Rng := fun _ => mkRand 0 1.

Definition default_settings : GameSettings :=
  mkSettings true normal dark true false classic None.

(** A face-down, unmatched card that carries no id. *)
Definition blank_card : Card := mkCard "" hearts rA red 0 false false.

(** A running game whose board is one [blank_card]. *)
Definition blank_board : GameState :=
  mkState gm_local_multiplayer mt_color b4x4 "player1"
          [mkPlayer "player1" "P1" human 0 [] true None;
           mkPlayer "player2" "P2" human 0 [] false None]
          [blank_card] [] [] playing None None [] default_settings.

(** A matched card, face up. *)
Definition matched_card (i : string) (pos : nat) : Card :=
  mkCard i hearts rA red pos true true.

(** A board of two face-down cards without an id and two matched cards. *)
Definition half_blank_cards : list Card :=
  [mkCard "" hearts rA red 0 false false;
   mkCard "" diamonds rA red 1 false false;
   matched_card "card-2" 2;
   matched_card "card-3" 3].

(** Two red cards, face down. *)
Definition two_cards : list Card :=
  [mkCard "card-0" hearts rA red 0 false false;
   mkCard "card-1" diamonds rA red 1 false false].

(** A board of two matched cards, and the finished game on it. *)
Definition two_matched_cards : list Card :=
  [matched_card "card-0" 0; matched_card "card-1" 1].

Definition two_matched_state : GameState :=
  mkState gm_ai mt_color b4x4 "ai"
          [mkPlayer "player1" "P1" human 1 [two_matched_cards] true None;
           mkPlayer "ai" "AI (easy)" ai 0 [] false (Some easy)]
          two_matched_cards [] [two_matched_cards] finished None None []
          default_settings.



(** A fresh game against the AI: sixteen face-down cards, hints off. *)
Definition fresh_ai_game : GameState :=
  fst (initializeGame gm_ai mt_color b4x4 "P1" None (Some easy) None 0 0 zero_rng).

(** A two-player game on [two_cards] with hints enabled. *)
Definition hint_game : GameState :=
  mkState gm_local_multiplayer mt_color b4x4 "player1"
          [mkPlayer "player1" "P1" human 0 [] true None;
           mkPlayer "player2" "P2" human 0 [] false None]
          two_cards [] [] playing None None []
          (mkSettings true normal dark true true classic None).

(** A running two-player game whose first card lies face up and whose
    second and third cards are face down; the record of the flipped card
    in [flippedCards] is [first]. *)
Definition after_first_flip (first : Card) : GameState :=
  mkState gm_local_multiplayer mt_color b4x4 "player1"
          [mkPlayer "player1" "P1" human 0 [] true None;
           mkPlayer "player2" "P2" human 0 [] false None]
          [first;
           mkCard "card-1" diamonds rA red 1 false false;
           mkCard "card-2" spades rA black 2 false false]
          [first] [] playing None None [] default_settings.

(** The same game with nobody seated. *)
Definition without_players (s : GameState) : GameState :=
  mkState (gameMode s) (matchType s) (boardSize s) (currentPlayer s) []
          (cards s) (flippedCards s) (matchedPairs s) (gameStatus s)
          (turnStartTime s) (gameStartTime s) (moveHistory s) (settings s).

(** A red card lying face up, with and without an id. *)
Definition flipped_heart : Card := mkCard "card-0" hearts rA red 0 true false.
Definition flipped_blank : Card := mkCard "" hearts rA red 0 true false.

(** A whole game: the fresh game against the AI, then eight matching
    pairs flipped one after the other. *)
Definition run_flips (s : GameState) (flips : list Z) : option GameState :=
  fold_left (fun acc i => s0 ← acc; handleCardFlip s0 i 0 0) flips (Some s).

Definition all_pairs_flips : list Z :=
  [0; 1; 2; 7; 8; 9; 10; 15; 3; 4; 5; 6; 11; 12; 13; 14]%Z.

Definition played_out : option GameState := run_flips fresh_ai_game all_pairs_flips.

(** The state the played-out game ends in. *)
Definition final_state : GameState := default fresh_ai_game played_out.

(** The fresh game against the AI after the human turned a red and a black
    card: a mismatch, both cards still face up, the AI to move. *)
Definition mismatch_flips : list Z := [0; 3]%Z.

Definition mismatch_state : GameState :=
  default fresh_ai_game (run_flips fresh_ai_game mismatch_flips).

(** The fresh game after the human turned one card. *)
Definition one_flip_state : GameState :=
  default fresh_ai_game (run_flips fresh_ai_game [0%Z]).

(** A fresh game of two players at one screen; hints are enabled. *)
Definition fresh_local_game : GameState :=
  fst (initializeGame gm_local_multiplayer mt_rank b4x4 "P1" (Some "P2") None None
                      0 0 zero_rng).

(** A fresh game of two engines. *)
Definition fresh_ai_vs_ai_game : GameState :=
  fst (initializeGame gm_ai_vs_ai mt_suit b4x4 "A" None (Some hard) (Some expert)
                      0 0 zero_rng).

(* ===================================================================== *)
(** * Properties *)
(* ===================================================================== *)

(** ** Array lookups and indexed scans *)

Section Lookups.
Context {A : Type}.
Implicit Types (a : list A) (i : Z) (x : A).

Lemma at_index_Some a i x :
  at_index a i = Some x <->
  (0 <= i < Z.of_nat (length a))%Z /\ a !! Z.to_nat i = Some x.
Proof.
  unfold at_index. destruct (Z.ltb_spec i 0) as [Hneg | Hpos].
  - split; [discriminate | intros [[H _] _]; lia].
  - split.
    + intros H. split; [|exact H].
      apply lookup_lt_Some in H. lia.
    + intros [_ H]. exact H.
Qed.

Lemma at_index_of_nat a (n : nat) : at_index a (Z.of_nat n) = a !! n.
Proof.
  unfold at_index. destruct (Z.ltb_spec (Z.of_nat n) 0); [lia|].
  now rewrite Nat2Z.id.
Qed.

Lemma at_index_in_range a i :
  (0 <= i < Z.of_nat (length a))%Z -> exists x, at_index a i = Some x.
Proof.
  intros H. destruct (lookup_lt_is_Some_2 a (Z.to_nat i)) as [x Hx]; [lia|].
  exists x. apply at_index_Some. auto.
Qed.

Lemma map_snd_indexed a : map snd (indexed a) = a.
Proof.
  apply list_eq. intros k. unfold indexed.
  change (map snd (imap (fun (n : nat) (y : A) => (Z.of_nat n, y)) a))
    with (snd <$> imap (fun (n : nat) (y : A) => (Z.of_nat n, y)) a).
  rewrite list_lookup_fmap, list_lookup_imap.
  now destruct (a !! k).
Qed.

Lemma map_fst_indexed a : map fst (indexed a) = map Z.of_nat (seq 0 (length a)).
Proof.
  apply list_eq. intros k. unfold indexed.
  change (map fst (imap (fun (n : nat) (y : A) => (Z.of_nat n, y)) a))
    with (fst <$> imap (fun (n : nat) (y : A) => (Z.of_nat n, y)) a).
  change (map Z.of_nat (seq 0 (length a))) with (Z.of_nat <$> seq 0 (length a)).
  rewrite !list_lookup_fmap, list_lookup_imap.
  destruct (a !! k) as [x|] eqn:E; simpl.
  - apply lookup_lt_Some in E. rewrite lookup_seq_lt by lia. reflexivity.
  - apply lookup_ge_None in E. rewrite lookup_seq_ge by lia. reflexivity.
Qed.

Lemma In_indexed a i x : In (i, x) (indexed a) <-> at_index a i = Some x.
Proof.
  rewrite <- list_elem_of_In. unfold indexed. rewrite elem_of_lookup_imap.
  split.
  - intros (k & y & Heq & Hk). inversion Heq; subst.
    rewrite at_index_of_nat. exact Hk.
  - intros H. apply at_index_Some in H. destruct H as [Hr Hk].
    exists (Z.to_nat i), x. split; [f_equal; lia | exact Hk].
Qed.

Lemma NoDup_fst_indexed a : NoDup (map fst (indexed a)).
Proof.
  rewrite map_fst_indexed.
  change (NoDup (Z.of_nat <$> seq 0 (length a))).
  apply NoDup_fmap_2; [apply _ | apply NoDup_seq].
Qed.

Lemma length_filter_indexed (p : A -> bool) a :
  length (List.filter (fun e => p (snd e)) (indexed a)) = length (List.filter p a).
Proof.
  rewrite <- (map_snd_indexed a) at 2.
  rewrite filter_map_swap, length_map. reflexivity.
Qed.
End Lookups.

Lemma NoDup_map_filter {A B : Type} (f : A -> B) (p : A -> bool) (l : list A) :
  NoDup (map f l) -> NoDup (map f (List.filter p l)).
Proof.
  induction l as [|e l IH]; simpl; intros H; [constructor|].
  apply NoDup_cons in H. destruct H as [Hn Hd].
  destruct (p e); simpl; auto.
  apply NoDup_cons. split; auto.
  intros Hin. apply Hn.
  apply list_elem_of_In in Hin. apply list_elem_of_In.
  apply in_map_iff in Hin. destruct Hin as (e' & He & Hin).
  apply filter_In in Hin. apply in_map_iff. exists e'. tauto.
Qed.

(** ** canFlipCard and the rejected flip *)

(** C2, as stated, fails: on [blank_board] the game is running, index 0 is
    in bounds, its card is neither flipped nor matched and nothing is
    flipped, yet [canFlipCard] answers [false]: the card has no id. *)
Lemma canFlipCard_needs_id :
  canFlipCard blank_board 0 = false /\
  (gameStatus blank_board = playing /\
   (0 <= 0 < Z.of_nat (length (cards blank_board)))%Z /\
   (exists c, at_index (cards blank_board) 0 = Some c /\
              isFlipped c = false /\ isMatched c = false) /\
   length (flippedCards blank_board) < 2).
Proof.
  split; [reflexivity|].
  split; [reflexivity|]. split; [simpl; lia|].
  split; [exists blank_card; repeat split | simpl; lia].
Qed.

Lemma canFlipCard_true_iff (s : GameState) (i : Z) :
  canFlipCard s i = true <->
    gameStatus s = playing /\
    (0 <= i < Z.of_nat (length (cards s)))%Z /\
    (exists c, at_index (cards s) i = Some c /\ truthy (id c) = true /\
               isFlipped c = false /\ isMatched c = false) /\
    length (flippedCards s) < 2.
Proof.
  unfold canFlipCard.
  destruct (Z.ltb_spec i 0) as [Hneg | Hpos]; simpl.
  { split; [discriminate | intros (_ & H & _); lia]. }
  destruct (Z.leb_spec (Z.of_nat (length (cards s))) i) as [Hge | Hlt]; simpl.
  { split; [discriminate | intros (_ & H & _); lia]. }
  destruct (at_index (cards s) i) as [c|] eqn:Hc.
  - destruct (truthy (id c)) eqn:Hid; simpl.
    + rewrite !andb_true_iff, !negb_true_iff, bool_decide_eq_true, Nat.ltb_lt.
      split.
      * intros [[[Hs Hf] Hm] Hl]. repeat split; try lia; auto.
        exists c. auto.
      * intros (Hs & _ & (c' & Hc' & _ & Hf & Hm) & Hl).
        inversion Hc'; subst. auto.
    + split; [discriminate|].
      intros (_ & _ & (c' & Hc' & Hid' & _) & _).
      inversion Hc'; subst. congruence.
  - split; [discriminate|].
    intros (_ & _ & (c' & Hc' & _) & _). discriminate.
Qed.

Lemma handleCardFlip_rejected (s : GameState) (i now_move now_turn : Z) :
  canFlipCard s i = false -> handleCardFlip s i now_move now_turn = Some s.
Proof. intros H. unfold handleCardFlip. rewrite H. reflexivity. Qed.

(** C2 (amended): [canFlipCard state index] is true if and only if the game
    is playing, the index is in bounds, the card at the index carries a
    non-empty id and is neither flipped nor matched, and fewer than two
    cards are flipped; and whenever [canFlipCard] is false, [handleCardFlip]
    returns its input state unchanged. *)
Theorem canFlipCard_iff_and_rejected_flip (s : GameState) (i now_move now_turn : Z) :
  (canFlipCard s i = true <->
     gameStatus s = playing /\
     (0 <= i < Z.of_nat (length (cards s)))%Z /\
     (exists c, at_index (cards s) i = Some c /\ truthy (id c) = true /\
                isFlipped c = false /\ isMatched c = false) /\
     length (flippedCards s) < 2) /\
  (canFlipCard s i = false -> handleCardFlip s i now_move now_turn = Some s).
Proof.
  split; [apply canFlipCard_true_iff | apply handleCardFlip_rejected].
Qed.

(** The second half of C2 at [blank_board]. *)
Lemma canFlipCard_iff_and_rejected_flip_witness :
  handleCardFlip blank_board 0 7 7 = Some blank_board.
Proof.
  apply (proj2 (canFlipCard_iff_and_rejected_flip blank_board 0 7 7)).
  reflexivity.
Defined.

(** On a board whose cards all carry an id, C2 holds as stated. *)
Lemma canFlipCard_iff_with_ids (s : GameState) (i : Z) :
  Forall (fun c => truthy (id c) = true) (cards s) ->
  (canFlipCard s i = true <->
     gameStatus s = playing /\
     (0 <= i < Z.of_nat (length (cards s)))%Z /\
     (exists c, at_index (cards s) i = Some c /\
                isFlipped c = false /\ isMatched c = false) /\
     length (flippedCards s) < 2).
Proof.
  intros Hall.
  rewrite canFlipCard_true_iff.
  split.
  - intros (Hs & Hr & (c & Hc & _ & Hf & Hm) & Hl). eauto 10.
  - intros (Hs & Hr & (c & Hc & Hf & Hm) & Hl).
    repeat split; try lia; auto. exists c. repeat split; auto.
    apply at_index_Some in Hc. destruct Hc as [_ Hc].
    rewrite Forall_forall in Hall. apply Hall.
    eapply list_elem_of_lookup_2. exact Hc.
Qed.

(** ** The AI engine returns a legal move *)

Lemma strictlyAvailable_true (c : Card) :
  strictlyAvailable c = true <->
  truthy (id c) = true /\ isFlipped c = false /\ isMatched c = false.
Proof.
  unfold strictlyAvailable.
  rewrite !andb_true_iff, !negb_true_iff. tauto.
Qed.

Lemma In_findStrictlyAvailableCards (cards : list Card) (i : Z) :
  In i (findStrictlyAvailableCards cards) <->
  exists c, at_index cards i = Some c /\ strictlyAvailable c = true.
Proof.
  unfold findStrictlyAvailableCards. rewrite in_map_iff. split.
  - intros ([k c] & Hk & Hin). simpl in Hk. subst k.
    apply filter_In in Hin. destruct Hin as [Hin Hp].
    exists c. split; [now apply In_indexed | exact Hp].
  - intros (c & Hc & Hp). exists (i, c). split; [reflexivity|].
    apply filter_In. split; [now apply In_indexed | exact Hp].
Qed.

Lemma NoDup_findStrictlyAvailableCards (cards : list Card) :
  NoDup (findStrictlyAvailableCards cards).
Proof. apply NoDup_map_filter, NoDup_fst_indexed. Qed.

Lemma length_findStrictlyAvailableCards (cards : list Card) :
  length (findStrictlyAvailableCards cards)
  = length (List.filter strictlyAvailable cards).
Proof.
  unfold findStrictlyAvailableCards.
  rewrite length_map. apply length_filter_indexed.
Qed.

Lemma first_two_available_legal (cards : list Card) :
  2 <= length (findStrictlyAvailableCards cards) ->
  legal_move cards (findStrictlyAvailableCards cards !! 0,
                    findStrictlyAvailableCards cards !! 1).
Proof.
  intros Hlen.
  pose proof (NoDup_findStrictlyAvailableCards cards) as Hnd.
  pose proof (In_findStrictlyAvailableCards cards) as Hin.
  destruct (findStrictlyAvailableCards cards) as [|a [|b rest]];
    simpl in Hlen; try lia.
  destruct (proj1 (Hin a)) as (c1 & Hc1 & Hp1); [simpl; auto|].
  destruct (proj1 (Hin b)) as (c2 & Hc2 & Hp2); [simpl; auto|].
  apply strictlyAvailable_true in Hp1, Hp2.
  exists a, b, c1, c2. simpl.
  repeat split; try tauto;
    try (apply at_index_Some in Hc1; lia); try (apply at_index_Some in Hc2; lia).
  apply NoDup_cons in Hnd. destruct Hnd as [Hn _].
  intros ->. apply Hn. left.
Qed.

Lemma isValidMoveStrict_true (cards : list Card) (move : MovePair) :
  isValidMoveStrict cards move = true <->
  exists (i j : Z) (c1 c2 : Card),
    move = (Some i, Some j) /\ i <> j /\
    at_index cards i = Some c1 /\ at_index cards j = Some c2 /\
    strictlyAvailable c1 = true /\ strictlyAvailable c2 = true.
Proof.
  unfold isValidMoveStrict. split.
  - destruct move as [[i|] [j|]]; try discriminate.
    destruct (Z.ltb_spec i 0); simpl; [discriminate|].
    destruct (Z.leb_spec (Z.of_nat (length cards)) i); simpl; [discriminate|].
    destruct (Z.ltb_spec j 0); simpl; [discriminate|].
    destruct (Z.leb_spec (Z.of_nat (length cards)) j); simpl; [discriminate|].
    destruct (Z.eqb_spec i j); [discriminate|].
    destruct (at_index cards i) as [c1|] eqn:Ec1; [|discriminate].
    destruct (at_index cards j) as [c2|] eqn:Ec2; [|discriminate].
    intros Hv. exists i, j, c1, c2.
    repeat split; auto; unfold strictlyAvailable;
      destruct (truthy (id c1)), (truthy (id c2)), (isFlipped c1), (isMatched c1),
        (isFlipped c2), (isMatched c2); simpl in *; congruence.
  - intros (i & j & c1 & c2 & -> & Hne & H1 & H2 & Hp1 & Hp2).
    pose proof (proj1 (at_index_Some _ _ _) H1) as [Hr1 _].
    pose proof (proj1 (at_index_Some _ _ _) H2) as [Hr2 _].
    destruct (Z.ltb_spec i 0); [lia|].
    destruct (Z.leb_spec (Z.of_nat (length cards)) i); [lia|].
    destruct (Z.ltb_spec j 0); [lia|].
    destruct (Z.leb_spec (Z.of_nat (length cards)) j); [lia|]. simpl.
    destruct (Z.eqb_spec i j); [contradiction|].
    rewrite H1, H2.
    apply strictlyAvailable_true in Hp1, Hp2.
    destruct Hp1 as (-> & -> & ->), Hp2 as (-> & -> & ->). reflexivity.
Qed.

Lemma isValidMoveStrict_legal (cards : list Card) (move : MovePair) :
  isValidMoveStrict cards move = true -> legal_move cards move.
Proof.
  intros H. apply isValidMoveStrict_true in H.
  destruct H as (i & j & c1 & c2 & -> & Hne & H1 & H2 & Hp1 & Hp2).
  apply strictlyAvailable_true in Hp1, Hp2.
  exists i, j, c1, c2.
  repeat split; try tauto;
    try (apply at_index_Some in H1; lia); try (apply at_index_Some in H2; lia).
Qed.

Lemma validateAndCorrectMove_legal (cards : list Card) (move : MovePair) :
  2 <= length (findStrictlyAvailableCards cards) ->
  legal_move cards
    (validateAndCorrectMove cards move (findStrictlyAvailableCards cards)).
Proof.
  intros Hlen. unfold validateAndCorrectMove. destruct move as [index1 index2].
  assert (Hle : (2 <=? length (findStrictlyAvailableCards cards)) = true)
    by now apply Nat.leb_le.
  rewrite Hle.
  destruct (is_matched_at cards index1 || is_matched_at cards index2).
  - now apply first_two_available_legal.
  - destruct (isValidMoveStrict cards (index1, index2)) eqn:Hv.
    + now apply isValidMoveStrict_legal.
    + now apply first_two_available_legal.
Qed.

(** What [makeMove] computes when at least two cards are strictly
    available: a corrected candidate. *)
Lemma makeMove_validated (memory : AIMemory) (cards : list Card)
    (matchType : MatchType) (playerMoves : list Move) (g : Rng) :
  2 <= length (findStrictlyAvailableCards cards) ->
  exists candidate,
    fst (fst (makeMove memory cards matchType playerMoves g))
    = validateAndCorrectMove cards candidate (findStrictlyAvailableCards cards).
Proof.
  intros Hlen. unfold makeMove.
  destruct (Nat.eqb_spec (length cards) 0) as [H0 | _].
  { rewrite length_findStrictlyAvailableCards in Hlen.
    destruct cards; [simpl in Hlen; lia | discriminate]. }
  destruct (Nat.ltb_spec (length (findStrictlyAvailableCards cards)) 2); [lia|].
  unfold mbind, Gen_bind, mret, Gen_ret.
  destruct (updateMemory _ cards playerMoves g) as [memory2 g1].
  destruct (getReactionDelay memory2 g1) as [delay g2].
  destruct (calculateSafeMove memory2 cards matchType _ g2) as [candidate g3].
  exists candidate. reflexivity.
Qed.

(** C1, as stated, fails: [half_blank_cards] holds two cards that are
    neither flipped nor matched, and [makeMove] returns the indices 2 and 3
    of its two matched cards. *)
Lemma makeMove_ignores_cards_without_id :
  2 <= count_available half_blank_cards /\
  fst (fst (makeMove (newAIPlayer easy) half_blank_cards mt_color [] zero_rng))
  = (Some 2%Z, Some 3%Z) /\
  (exists c, at_index half_blank_cards 2 = Some c /\ isMatched c = true).
Proof.
  split; [unfold count_available; simpl; lia|].
  split; [reflexivity|].
  exists (matched_card "card-2" 2). split; reflexivity.
Qed.

(** C1 (amended): for every cards array containing at least 2 available
    cards that carry a non-empty id (cards with an id that are neither
    flipped nor matched), whatever the engine's memory and the random
    draws, [makeMove] returns a pair of indices that are distinct, in
    bounds, and both refer to cards that are neither flipped nor matched. *)
Theorem makeMove_returns_legal_move (memory : AIMemory) (cards : list Card)
    (matchType : MatchType) (playerMoves : list Move) (g : Rng) :
  2 <= length (List.filter strictlyAvailable cards) ->
  exists (i j : Z) (c1 c2 : Card),
    fst (fst (makeMove memory cards matchType playerMoves g)) = (Some i, Some j) /\
    i <> j /\
    (0 <= i < Z.of_nat (length cards))%Z /\
    (0 <= j < Z.of_nat (length cards))%Z /\
    at_index cards i = Some c1 /\ at_index cards j = Some c2 /\
    isFlipped c1 = false /\ isMatched c1 = false /\
    isFlipped c2 = false /\ isMatched c2 = false.
Proof.
  intros Hlen. rewrite <- length_findStrictlyAvailableCards in Hlen.
  destruct (makeMove_validated memory cards matchType playerMoves g Hlen)
    as [candidate ->].
  exact (validateAndCorrectMove_legal cards candidate Hlen).
Qed.

(** C1 at a board of two available cards, for an expert with empty memory. *)
Lemma makeMove_returns_legal_move_witness :
  exists (i j : Z) (c1 c2 : Card),
    fst (fst (makeMove (newAIPlayer expert) two_cards mt_color [] zero_rng))
    = (Some i, Some j) /\
    i <> j /\
    (0 <= i < Z.of_nat (length two_cards))%Z /\
    (0 <= j < Z.of_nat (length two_cards))%Z /\
    at_index two_cards i = Some c1 /\ at_index two_cards j = Some c2 /\
    isFlipped c1 = false /\ isMatched c1 = false /\
    isFlipped c2 = false /\ isMatched c2 = false.
Proof.
  apply (makeMove_returns_legal_move (newAIPlayer expert) two_cards mt_color []
                                     zero_rng).
  simpl. lia.
Defined.

(** When every card carries an id, C1 holds as stated. *)
Lemma makeMove_legal_with_ids (memory : AIMemory) (cards : list Card)
    (matchType : MatchType) (playerMoves : list Move) (g : Rng) :
  Forall (fun c => truthy (id c) = true) cards ->
  2 <= count_available cards ->
  legal_move cards (fst (fst (makeMove memory cards matchType playerMoves g))).
Proof.
  intros Hall Hlen.
  assert (E : List.filter strictlyAvailable cards = List.filter available cards).
  { apply filter_ext_in. intros c Hc.
    rewrite Forall_forall in Hall. apply list_elem_of_In in Hc.
    unfold strictlyAvailable, available. rewrite (Hall c Hc). reflexivity. }
  unfold count_available in Hlen. rewrite <- E in Hlen.
  rewrite <- length_findStrictlyAvailableCards in Hlen.
  destruct (makeMove_validated memory cards matchType playerMoves g Hlen)
    as [candidate ->].
  exact (validateAndCorrectMove_legal cards candidate Hlen).
Qed.

(** ** Fewer than two available cards *)

Lemma filter_length_ge_1 {A : Type} (p : A -> bool) (l : list A) (a : nat) (x : A) :
  l !! a = Some x -> p x = true -> 1 <= length (List.filter p l).
Proof.
  intros Hx Hp.
  assert (Hin : In x (List.filter p l)).
  { apply filter_In. split; [|exact Hp].
    apply list_elem_of_In. eapply list_elem_of_lookup_2. exact Hx. }
  destruct (List.filter p l); [destruct Hin | simpl; lia].
Qed.

Lemma filter_length_ge_2 {A : Type} (p : A -> bool) (l : list A) :
  forall (a b : nat) (x y : A),
    a <> b -> l !! a = Some x -> l !! b = Some y ->
    p x = true -> p y = true -> 2 <= length (List.filter p l).
Proof.
  induction l as [|h l IH]; intros a b x y Hne Hx Hy Hpx Hpy.
  - discriminate.
  - destruct a as [|a'], b as [|b']; simpl in Hx, Hy.
    + contradiction.
    + inversion Hx; subst h. simpl. rewrite Hpx. simpl.
      pose proof (filter_length_ge_1 p l b' y Hy Hpy). lia.
    + inversion Hy; subst h. simpl. rewrite Hpy. simpl.
      pose proof (filter_length_ge_1 p l a' x Hx Hpx). lia.
    + assert (2 <= length (List.filter p l)) by (eapply (IH a' b'); eauto).
      simpl. destruct (p h); simpl; lia.
Qed.

Lemma legal_move_two_available (cards : list Card) (move : MovePair) :
  legal_move cards move -> 2 <= count_available cards.
Proof.
  intros (i & j & c1 & c2 & _ & Hne & _ & _ & H1 & H2 & Hf1 & Hm1 & Hf2 & Hm2).
  apply at_index_Some in H1, H2. destruct H1 as [Hr1 H1], H2 as [Hr2 H2].
  unfold count_available.
  apply (filter_length_ge_2 available cards (Z.to_nat i) (Z.to_nat j) c1 c2);
    auto; try lia; unfold available; now rewrite ?Hf1, ?Hm1, ?Hf2, ?Hm2.
Qed.

Lemma strictly_available_le_available (cards : list Card) :
  length (List.filter strictlyAvailable cards) <= count_available cards.
Proof.
  unfold count_available.
  induction cards as [|c cards IH]; simpl; [lia|].
  unfold strictlyAvailable at 1, available at 1.
  destruct (truthy (id c)), (isFlipped c), (isMatched c); simpl; lia.
Qed.

Lemma forceEmergencyMove_indices (cards : list Card) :
  exists i j, forceEmergencyMove cards = (Some i, Some j).
Proof.
  unfold forceEmergencyMove.
  destruct (emergency_scan (indexed cards)) as [[i j]|]; eauto.
Qed.

(** With fewer than two available cards [makeMove] leaves by one of its
    two early exits, before any random draw. *)
Lemma makeMove_emergency (memory : AIMemory) (cards : list Card)
    (matchType : MatchType) (playerMoves : list Move) (g : Rng) :
  count_available cards < 2 ->
  makeMove memory cards matchType playerMoves g
  = (if length cards =? 0
     then ((Some 0%Z, Some 1%Z), memory)
     else (forceEmergencyMove cards, purgeMatchedCardsFromMemory memory cards),
     g).
Proof.
  intros Hlt. unfold makeMove.
  destruct (length cards =? 0); [reflexivity|].
  pose proof (strictly_available_le_available cards) as Hle.
  rewrite <- length_findStrictlyAvailableCards in Hle.
  destruct (Nat.ltb_spec (length (findStrictlyAvailableCards cards)) 2); [|lia].
  reflexivity.
Qed.

Lemma aiDecision_few_available (currentAI : AIMemory) (s : GameState) (g : Rng) :
  count_available (cards s) < 2 ->
  aiDecision currentAI s g = (GameComplete, currentAI, g).
Proof.
  intros Hlt. unfold aiDecision.
  destruct (isGameFinished s); [reflexivity|].
  unfold count_available in Hlt.
  destruct (Nat.ltb_spec (length (List.filter available (cards s))) 2); [|lia].
  reflexivity.
Qed.

(** C10, as stated, fails: on a board whose two cards are both matched no
    card is available, and [makeMove] returns the pair of indices [0, 1],
    each of a matched card, not a signal that there is no move. *)
Lemma makeMove_without_available_cards_returns_indices :
  count_available two_matched_cards < 2 /\
  fst (fst (makeMove (newAIPlayer easy) two_matched_cards mt_color [] zero_rng))
  = (Some 0%Z, Some 1%Z) /\
  (exists c1 c2, at_index two_matched_cards 0 = Some c1 /\ isMatched c1 = true /\
                 at_index two_matched_cards 1 = Some c2 /\ isMatched c2 = true).
Proof.
  split; [unfold count_available; simpl; lia|].
  split; [reflexivity|].
  exists (matched_card "card-0" 0), (matched_card "card-1" 1).
  repeat split.
Qed.

(** C10 (amended): for every cards array containing fewer than 2 available
    cards, [makeMove] raises no exception and draws no random number; it
    returns a pair of two indices, [0, 1] for an empty array and the result
    of [forceEmergencyMove] otherwise, and that pair is never a legal move
    (two distinct in-bounds indices of available cards). The signal that
    there is no move is the caller's: the callback of [scheduleAIMove]
    counts the available cards of the state first and, below 2, reports the
    game complete without consulting the engine. *)
Theorem makeMove_few_available (memory : AIMemory) (s : GameState)
    (playerMoves : list Move) (g : Rng) :
  count_available (cards s) < 2 ->
  makeMove memory (cards s) (matchType s) playerMoves g
  = (if length (cards s) =? 0
     then ((Some 0%Z, Some 1%Z), memory)
     else (forceEmergencyMove (cards s),
           purgeMatchedCardsFromMemory memory (cards s)),
     g) /\
  (exists i j memory',
     makeMove memory (cards s) (matchType s) playerMoves g
     = ((Some i, Some j), memory', g) /\
     ~ legal_move (cards s) (Some i, Some j) /\
     isValidMoveStrict (cards s) (Some i, Some j) = false) /\
  aiDecision memory s g = (GameComplete, memory, g).
Proof.
  intros Hlt. split; [exact (makeMove_emergency _ _ _ _ _ Hlt)|].
  split; [|now apply aiDecision_few_available].
  rewrite (makeMove_emergency _ _ _ _ _ Hlt).
  assert (Hex : exists i j memory',
             (if length (cards s) =? 0
              then ((Some 0%Z, Some 1%Z), memory)
              else (forceEmergencyMove (cards s),
                    purgeMatchedCardsFromMemory memory (cards s)))
             = ((Some i, Some j), memory')).
  { destruct (length (cards s) =? 0); [eauto|].
    destruct (forceEmergencyMove_indices (cards s)) as (i & j & ->). eauto. }
  destruct Hex as (i & j & memory' & ->).
  exists i, j, memory'. split; [reflexivity|].
  assert (Hnl : ~ legal_move (cards s) (Some i, Some j)).
  { intros Hl. apply legal_move_two_available in Hl. lia. }
  split; [exact Hnl|].
  destruct (isValidMoveStrict (cards s) (Some i, Some j)) eqn:Hv; [|reflexivity].
  exfalso. apply Hnl. now apply isValidMoveStrict_legal.
Qed.

(** C10 (amended) at a finished board of two matched cards: the engine
    answers [0, 1], the indices of the two matched cards. *)
Lemma makeMove_few_available_witness :
  makeMove (newAIPlayer easy) (cards two_matched_state)
           (matchType two_matched_state) [] zero_rng
  = ((Some 0%Z, Some 1%Z), newAIPlayer easy, zero_rng) /\
  ~ legal_move (cards two_matched_state) (Some 0%Z, Some 1%Z) /\
  aiDecision (newAIPlayer easy) two_matched_state zero_rng
  = (GameComplete, newAIPlayer easy, zero_rng).
Proof.
  destruct (makeMove_few_available (newAIPlayer easy) two_matched_state []
              zero_rng) as (Hm & (i & j & memory' & Hij & Hnl & _) & Hd).
  { unfold count_available. simpl. lia. }
  assert (E : makeMove (newAIPlayer easy) (cards two_matched_state)
                       (matchType two_matched_state) [] zero_rng
              = ((Some 0%Z, Some 1%Z), newAIPlayer easy, zero_rng))
    by (rewrite Hm; reflexivity).
  split; [exact E|]. split; [|exact Hd].
  rewrite E in Hij. injection Hij as <- <- _. exact Hnl.
Defined.

(** ** The hint query *)

Lemma cardsMatch_sym (c1 c2 : Card) (m : MatchType) :
  cardsMatch c1 c2 m = cardsMatch c2 c1 m.
Proof.
  unfold cardsMatch. destruct m; apply bool_decide_ext; split; congruence.
Qed.

Section FirstPair.
Context {A : Type} (p : A -> A -> bool).

Lemma find_Some_lookup (q : A -> bool) (l : list A) (y : A) :
  List.find q l = Some y -> exists j, l !! j = Some y /\ q y = true.
Proof.
  intros H. apply find_some in H. destruct H as [Hin Hq].
  apply list_elem_of_In, list_elem_of_lookup in Hin.
  destruct Hin as [j Hj]. eauto.
Qed.

Lemma first_pair_Some (l : list A) (x y : A) :
  first_pair p l = Some (x, y) ->
  exists i j, i < j /\ l !! i = Some x /\ l !! j = Some y /\ p x y = true.
Proof.
  induction l as [|h l IH]; simpl; [discriminate|].
  destruct (List.find (p h) l) as [z|] eqn:Hf.
  - intros Heq. inversion Heq; subst.
    apply find_Some_lookup in Hf. destruct Hf as (j & Hj & Hp).
    exists 0, (S j). repeat split; auto; lia.
  - intros H. destruct (IH H) as (i & j & Hij & Hi & Hj & Hp).
    exists (S i), (S j). repeat split; auto; lia.
Qed.

Lemma first_pair_None (l : list A) :
  first_pair p l = None ->
  forall i j x y, i < j -> l !! i = Some x -> l !! j = Some y -> p x y = false.
Proof.
  induction l as [|h l IH]; simpl; intros H i j x y Hij Hi Hj; [discriminate|].
  destruct (List.find (p h) l) as [z|] eqn:Hf; [discriminate|].
  destruct j as [|j']; [lia|]. simpl in Hj.
  destruct i as [|i']; simpl in Hi.
  - inversion Hi; subst h.
    apply (find_none _ _ Hf).
    apply list_elem_of_In. eapply list_elem_of_lookup_2. exact Hj.
  - apply (IH H i' j'); auto; lia.
Qed.
End FirstPair.

Section FilterOrder.
Context {A : Type} (q : A -> bool).

Lemma filter_lookup_Some (l : list A) (j : nat) (y : A) :
  List.filter q l !! j = Some y -> exists j', l !! j' = Some y /\ q y = true.
Proof.
  intros H. apply list_elem_of_lookup_2, list_elem_of_In, filter_In in H.
  destruct H as [Hin Hq].
  apply list_elem_of_In, list_elem_of_lookup in Hin. destruct Hin as [j' Hj'].
  eauto.
Qed.

Lemma lookup_filter_Some (l : list A) (j : nat) (y : A) :
  l !! j = Some y -> q y = true -> exists j', List.filter q l !! j' = Some y.
Proof.
  intros H Hq. apply list_elem_of_lookup, list_elem_of_In, filter_In.
  split; [|exact Hq]. apply list_elem_of_In. eapply list_elem_of_lookup_2; eauto.
Qed.

(** Filtering keeps the order of the elements it keeps. *)
Lemma filter_keeps_order (l : list A) :
  forall i j x y,
    i < j -> List.filter q l !! i = Some x -> List.filter q l !! j = Some y ->
    exists i' j', i' < j' /\ l !! i' = Some x /\ l !! j' = Some y /\
                  q x = true /\ q y = true.
Proof.
  induction l as [|h l IH]; simpl; intros i j x y Hij Hi Hj; [discriminate|].
  destruct (q h) eqn:Hq.
  - destruct j as [|j0]; [lia|]. simpl in Hj.
    destruct i as [|i0]; simpl in Hi.
    + inversion Hi; subst h.
      destruct (filter_lookup_Some l j0 y Hj) as (j' & Hj' & Hqy).
      exists 0, (S j'). repeat split; auto; lia.
    + destruct (IH i0 j0 x y) as (i' & j' & H' & Hi' & Hj' & Hqx & Hqy);
        auto; [lia|].
      exists (S i'), (S j'). repeat split; auto; lia.
  - destruct (IH i j x y) as (i' & j' & H' & Hi' & Hj' & Hqx & Hqy); auto.
    exists (S i'), (S j'). repeat split; auto; lia.
Qed.

Lemma order_kept_by_filter (l : list A) :
  forall i j x y,
    i < j -> l !! i = Some x -> l !! j = Some y -> q x = true -> q y = true ->
    exists i' j', i' < j' /\ List.filter q l !! i' = Some x /\
                  List.filter q l !! j' = Some y.
Proof.
  induction l as [|h l IH]; intros i j x y Hij Hi Hj Hqx Hqy; [discriminate|].
  destruct j as [|j0]; [lia|]. simpl in Hj.
  destruct i as [|i0]; simpl in Hi.
  - inversion Hi; subst h. simpl. rewrite Hqx.
    destruct (lookup_filter_Some l j0 y Hj Hqy) as [j' Hj'].
    exists 0, (S j'). repeat split; auto; lia.
  - destruct (IH i0 j0 x y) as (i' & j' & H' & Hi' & Hj'); auto; [lia|].
    simpl. destruct (q h).
    + exists (S i'), (S j'). repeat split; auto; lia.
    + exists i', j'. auto.
Qed.
End FilterOrder.

Lemma unflipped_unmatched_available (c : Card) :
  unflipped_unmatched c = available c.
Proof. unfold unflipped_unmatched, available. apply andb_comm. Qed.

Lemma getHint_Some (s : GameState) (p1 p2 : nat) :
  getHint s = Some (p1, p2) ->
  hintsEnabled (settings s) = true /\ hint_pair s p1 p2.
Proof.
  unfold getHint. destruct (hintsEnabled (settings s)); simpl; [|discriminate].
  destruct (first_pair _ _) as [[x y]|] eqn:Hfp; [|discriminate].
  intros Heq. inversion Heq; subst. split; [reflexivity|].
  apply first_pair_Some in Hfp. destruct Hfp as (i & j & Hij & Hi & Hj & Hm).
  destruct (filter_keeps_order _ _ i j x y Hij Hi Hj)
    as (i' & j' & Hij' & Hi' & Hj' & Hqx & Hqy).
  exists i', j', x, y. fold (unflipped_unmatched x) in Hqx.
  fold (unflipped_unmatched y) in Hqy.
  rewrite unflipped_unmatched_available in Hqx, Hqy.
  repeat split; auto. lia.
Qed.

Lemma getHint_finds (s : GameState) (p1 p2 : nat) :
  hintsEnabled (settings s) = true -> hint_pair s p1 p2 ->
  exists q1 q2, getHint s = Some (q1, q2).
Proof.
  intros Hen (i & j & c1 & c2 & Hne & Hi & Hj & Ha1 & Ha2 & Hm & _ & _).
  unfold getHint. rewrite Hen. simpl.
  destruct (first_pair _ _) as [[x y]|] eqn:Hfp; [eauto|].
  exfalso.
  rewrite <- unflipped_unmatched_available in Ha1, Ha2.
  assert (Hlt : i < j \/ j < i) by lia.
  destruct Hlt as [Hlt | Hlt].
  - destruct (order_kept_by_filter unflipped_unmatched (cards s) i j c1 c2)
      as (i' & j' & Hij' & Hi' & Hj'); auto.
    pose proof (first_pair_None _ _ Hfp i' j' c1 c2 Hij' Hi' Hj'). congruence.
  - destruct (order_kept_by_filter unflipped_unmatched (cards s) j i c2 c1)
      as (i' & j' & Hij' & Hi' & Hj'); auto.
    pose proof (first_pair_None _ _ Hfp i' j' c2 c1 Hij' Hi' Hj') as Hn.
    cbv beta in Hn. rewrite cardsMatch_sym in Hn. congruence.
Qed.

(** C9, as stated, fails: in a fresh game against the AI the cards at
    indices 0 and 1 are available and match, and [getHint] returns null,
    because [initializeGame] switches hints on in local multiplayer only. *)
Lemma getHint_null_when_hints_disabled :
  getHint fresh_ai_game = None /\
  (exists c1 c2, cards fresh_ai_game !! 0 = Some c1 /\
                 cards fresh_ai_game !! 1 = Some c2 /\
                 available c1 = true /\ available c2 = true /\
                 cardsMatch c1 c2 (matchType fresh_ai_game) = true).
Proof.
  split; [reflexivity|].
  vm_compute. eexists _, _. repeat split.
Qed.

(** C9 (amended): for every game state whose settings have hints enabled,
    if at least one pair of currently available cards satisfies the match
    criterion then [getHint] returns the [position] fields of two such
    cards, and it returns null only when no pair of available cards
    matches; with hints disabled [getHint] returns null whatever the board
    holds. [getHint] is a function of the state and changes nothing. *)
Theorem getHint_correct (s : GameState) :
  (hintsEnabled (settings s) = true ->
     ((exists p1 p2, hint_pair s p1 p2) ->
        exists q1 q2, getHint s = Some (q1, q2) /\ hint_pair s q1 q2) /\
     (getHint s = None -> ~ exists p1 p2, hint_pair s p1 p2)) /\
  (hintsEnabled (settings s) = false -> getHint s = None).
Proof.
  split.
  - intros Hen. split.
    + intros (p1 & p2 & Hp).
      destruct (getHint_finds s p1 p2 Hen Hp) as (q1 & q2 & Hq).
      exists q1, q2. split; [exact Hq|]. now apply getHint_Some in Hq.
    + intros Hnone (p1 & p2 & Hp).
      destruct (getHint_finds s p1 p2 Hen Hp) as (q1 & q2 & Hq). congruence.
  - intros Hdis. unfold getHint. now rewrite Hdis.
Qed.

(** C9 (amended) at a board of two red cards with hints enabled. *)
Lemma getHint_correct_witness :
  exists q1 q2, getHint hint_game = Some (q1, q2) /\ hint_pair hint_game q1 q2.
Proof.
  apply (proj1 (proj1 (getHint_correct hint_game) eq_refl)).
  exists 0, 1, 0, 1. eexists _, _. repeat split; [lia | reflexivity ..].
Defined.

(** ** Resolving a pair *)

Lemma findIndex_from_spec {A : Type} (p : A -> bool) (l : list A) :
  forall z : Z,
    (findIndex_from p l z = (-1)%Z /\ Forall (fun x => p x = false) l) \/
    (exists (k : nat) (x : A),
        findIndex_from p l z = (z + Z.of_nat k)%Z /\ l !! k = Some x /\ p x = true).
Proof.
  induction l as [|h l IH]; intros z; simpl.
  - left. split; [reflexivity | constructor].
  - destruct (p h) eqn:Hp.
    + right. exists 0, h. split; [lia | auto].
    + destruct (IH (z + 1)%Z) as [[E Hall] | (k & x & E & Hk & Hx)].
      * left. split; [exact E | constructor; auto].
      * right. exists (S k), x. split; [lia | auto].
Qed.

Lemma findIndex_found {A : Type} (p : A -> bool) (l : list A) (k : nat) :
  findIndex p l = Z.of_nat k -> exists x, l !! k = Some x /\ p x = true.
Proof.
  unfold findIndex. intros H.
  destruct (findIndex_from_spec p l 0) as [[E _] | (k' & x & E & Hk & Hx)].
  - lia.
  - assert (k' = k) by lia. subst k'. eauto.
Qed.

Lemma findIndex_range {A : Type} (p : A -> bool) (l : list A) :
  (-1 <= findIndex p l < Z.of_nat (length l))%Z.
Proof.
  unfold findIndex.
  destruct (findIndex_from_spec p l 0) as [[E _] | (k & x & E & Hk & Hx)].
  - lia.
  - apply lookup_lt_Some in Hk. lia.
Qed.

Lemma findIndex_exists {A : Type} (p : A -> bool) (l : list A) (x : A) :
  In x l -> p x = true -> exists k : nat, findIndex p l = Z.of_nat k.
Proof.
  unfold findIndex. intros Hin Hp.
  destruct (findIndex_from_spec p l 0) as [[_ Hall] | (k & y & E & _ & _)].
  - rewrite Forall_forall in Hall. apply list_elem_of_In in Hin.
    specialize (Hall x Hin). congruence.
  - exists k. lia.
Qed.

Lemma cardsMatch_with_isFlipped (c1 c2 : Card) (b : bool) (m : MatchType) :
  cardsMatch c1 (with_isFlipped b c2) m = cardsMatch c1 c2 m.
Proof. destruct m; reflexivity. Qed.

(** A flip that [canFlipCard] accepts. *)
Lemma handleCardFlip_accepted (s : GameState) (i now_move now_turn : Z) (c : Card) :
  canFlipCard s i = true -> at_index (cards s) i = Some c ->
  handleCardFlip s i now_move now_turn =
  let flipped := with_isFlipped true c in
  let s1 := with_cards_flipped (<[Z.to_nat i := flipped]> (cards s))
                               (flippedCards s ++ [flipped]) s in
  if length (flippedCards s ++ [flipped]) =? 2
  then processCardPair s1 now_move now_turn
  else Some s1.
Proof.
  intros Hcan Hc. unfold handleCardFlip. rewrite Hcan, Hc. simpl.
  apply canFlipCard_true_iff in Hcan.
  destruct Hcan as (_ & _ & (c' & Hc' & Hid & _) & _).
  assert (c' = c) by congruence. subst c'. rewrite Hid. reflexivity.
Qed.

Lemma processCardPair_pair (s : GameState) (card1 card2 : Card)
    (now_move now_turn : Z) :
  flippedCards s = [card1; card2] ->
  truthy (id card1) = true -> truthy (id card2) = true ->
  processCardPair s now_move now_turn =
  (newCurrent ←
     (if cardsMatch card1 card2 (matchType s) then Some (currentPlayer s)
      else if bool_decide (gameMode s = gm_ai_vs_ai) then Some (currentPlayer s)
           else getNextPlayer s);
   Some (finish_if_done
           (resolved s card1 card2 (cardsMatch card1 card2 (matchType s))
                     newCurrent now_move now_turn))).
Proof.
  intros Hf H1 H2. unfold processCardPair. rewrite Hf, H1, H2. simpl.
  destruct (cardsMatch card1 card2 (matchType s)); simpl.
  - unfold finish_if_done, resolved, current_index. simpl.
    now destruct (isGameFinished _).
  - destruct (bool_decide (gameMode s = gm_ai_vs_ai)); simpl.
    + unfold finish_if_done, resolved. simpl. rewrite Hf.
      now destruct (isGameFinished _).
    + destruct (getNextPlayer s) as [q|]; simpl; [|reflexivity].
      unfold finish_if_done, resolved. simpl. rewrite Hf.
      now destruct (isGameFinished _).
Qed.

Lemma id_mark_matched (card1 card2 c : Card) : id (mark_matched card1 card2 c) = id c.
Proof.
  unfold mark_matched.
  destruct (negb (truthy (id c)) || negb (truthy (id card1)) || negb (truthy (id card2)));
    [reflexivity|].
  destruct (String.eqb (id c) (id card1) || String.eqb (id c) (id card2)); reflexivity.
Qed.

Lemma mark_matched_hit (card1 card2 c : Card) :
  truthy (id card1) = true -> truthy (id card2) = true ->
  id c = id card1 \/ id c = id card2 ->
  mark_matched card1 card2 c = with_matched_flipped c.
Proof.
  intros H1 H2 Hid. unfold mark_matched. rewrite H1, H2.
  assert (Ht : truthy (id c) = true) by (destruct Hid as [-> | ->]; auto).
  rewrite Ht. simpl.
  assert (E : String.eqb (id c) (id card1) || String.eqb (id c) (id card2) = true).
  { apply orb_true_iff. rewrite !String.eqb_eq. exact Hid. }
  now rewrite E.
Qed.

Lemma mark_matched_miss (card1 card2 c : Card) :
  id c <> id card1 -> id c <> id card2 -> mark_matched card1 card2 c = c.
Proof.
  intros N1 N2. unfold mark_matched.
  destruct (negb (truthy (id c)) || negb (truthy (id card1)) || negb (truthy (id card2)));
    [reflexivity|].
  apply String.eqb_neq in N1, N2. now rewrite N1, N2.
Qed.


Section FinishIfDone.
Variable s : GameState.

Lemma cards_finish_if_done : cards (finish_if_done s) = cards s.
Proof. unfold finish_if_done. now destruct (isGameFinished s). Qed.
Lemma players_finish_if_done : players (finish_if_done s) = players s.
Proof. unfold finish_if_done. now destruct (isGameFinished s). Qed.
Lemma flippedCards_finish_if_done : flippedCards (finish_if_done s) = flippedCards s.
Proof. unfold finish_if_done. now destruct (isGameFinished s). Qed.
Lemma matchedPairs_finish_if_done : matchedPairs (finish_if_done s) = matchedPairs s.
Proof. unfold finish_if_done. now destruct (isGameFinished s). Qed.
Lemma moveHistory_finish_if_done : moveHistory (finish_if_done s) = moveHistory s.
Proof. unfold finish_if_done. now destruct (isGameFinished s). Qed.
Lemma currentPlayer_finish_if_done : currentPlayer (finish_if_done s) = currentPlayer s.
Proof. unfold finish_if_done. now destruct (isGameFinished s). Qed.
Lemma gameMode_finish_if_done : gameMode (finish_if_done s) = gameMode s.
Proof. unfold finish_if_done. now destruct (isGameFinished s). Qed.
Lemma gameStatus_finish_if_done :
  gameStatus (finish_if_done s)
  = if isGameFinished s then finished else gameStatus s.
Proof. unfold finish_if_done. now destruct (isGameFinished s). Qed.
End FinishIfDone.

(** The second flip of a turn, when the card flipped first has an id. *)
Lemma second_flip (s : GameState) (i now_move now_turn : Z) (c1 c2 : Card) :
  flippedCards s = [c1] -> truthy (id c1) = true ->
  canFlipCard s i = true -> at_index (cards s) i = Some c2 ->
  handleCardFlip s i now_move now_turn =
  let c2f := with_isFlipped true c2 in
  let s1 := with_cards_flipped (<[Z.to_nat i := c2f]> (cards s)) [c1; c2f] s in
  (newCurrent ←
     (if cardsMatch c1 c2 (matchType s) then Some (currentPlayer s)
      else if bool_decide (gameMode s = gm_ai_vs_ai) then Some (currentPlayer s)
           else getNextPlayer s);
   Some (finish_if_done
           (resolved s1 c1 c2f (cardsMatch c1 c2 (matchType s))
                     newCurrent now_move now_turn))).
Proof.
  intros Hf Hid1 Hcan Hc2.
  rewrite (handleCardFlip_accepted s i now_move now_turn c2 Hcan Hc2).
  rewrite Hf. cbn zeta. change (length ([c1] ++ [with_isFlipped true c2]) =? 2) with true.
  cbv iota.
  apply canFlipCard_true_iff in Hcan.
  destruct Hcan as (_ & _ & (c & Hc & Hid2 & _) & _).
  assert (c = c2) by congruence. subst c.
  rewrite (processCardPair_pair _ c1 (with_isFlipped true c2) now_move now_turn);
    [|reflexivity | exact Hid1 | exact Hid2].
  rewrite cardsMatch_with_isFlipped. reflexivity.
Qed.

(** C3 (amended): for every state with exactly one card in flippedCards,
    that card carrying a non-empty id, a flip that [canFlipCard] accepts of
    a second card whose attributes match it under matchType produces, in
    the same transition, a state where every board card carrying the id of
    either card (the second one at its index, the first one wherever it
    lies) has isMatched = true and isFlipped = true, the score of the
    player whose id is currentPlayer is incremented by 1 and the pair is
    appended to that player's matches (the players are unchanged if no
    player has that id), the pair is appended to matchedPairs, flippedCards
    is empty, a Move with isMatch = true is appended to moveHistory, and
    currentPlayer is unchanged. *)
Theorem matching_flip_resolves_pair (s : GameState) (i now_move now_turn : Z)
    (c1 c2 : Card) :
  flippedCards s = [c1] ->
  truthy (id c1) = true ->
  canFlipCard s i = true ->
  at_index (cards s) i = Some c2 ->
  cardsMatch c1 c2 (matchType s) = true ->
  exists s' : GameState,
    handleCardFlip s i now_move now_turn = Some s' /\
    (exists c2', at_index (cards s') i = Some c2' /\ id c2' = id c2 /\
                 isMatched c2' = true /\ isFlipped c2' = true) /\
    (forall k c, cards s !! k = Some c -> id c = id c1 ->
       exists c', cards s' !! k = Some c' /\ id c' = id c1 /\
                  isMatched c' = true /\ isFlipped c' = true) /\
    (forall k c', cards s' !! k = Some c' -> id c' = id c1 \/ id c' = id c2 ->
       isMatched c' = true /\ isFlipped c' = true) /\
    (forall k : nat, current_index s = Z.of_nat k ->
       exists p p', players s !! k = Some p /\ p_id p = currentPlayer s /\
                    players s' = <[k := p']> (players s) /\
                    p_id p' = p_id p /\ score p' = score p + 1 /\
                    matches p' = matches p ++ [[c1; with_isFlipped true c2]]) /\
    (current_index s = (-1)%Z -> players s' = players s) /\
    matchedPairs s' = matchedPairs s ++ [[c1; with_isFlipped true c2]] /\
    flippedCards s' = [] /\
    moveHistory s' = moveHistory s
                     ++ [mkMove (currentPlayer s) [id c1; id c2] now_move true] /\
    currentPlayer s' = currentPlayer s.
Proof.
  intros Hf Hid1 Hcan Hc2 Hm.
  rewrite (second_flip s i now_move now_turn c1 c2 Hf Hid1 Hcan Hc2).
  rewrite Hm. cbn zeta. simpl mbind.
  pose proof (proj1 (canFlipCard_true_iff s i) Hcan)
    as (_ & Hr & (c & Hc & Hid2 & _) & _).
  assert (c = c2) by congruence. subst c.
  pose proof (proj1 (at_index_Some _ _ _) Hc2) as [_ Hk2].
  eexists. split; [reflexivity|].
  rewrite cards_finish_if_done, players_finish_if_done, matchedPairs_finish_if_done,
    flippedCards_finish_if_done, moveHistory_finish_if_done,
    currentPlayer_finish_if_done.
  unfold resolved. cbn [cards players matchedPairs flippedCards moveHistory
                        currentPlayer with_cards_flipped andb].
  change (map (mark_matched c1 (with_isFlipped true c2)))
    with (fmap (M:=list) (mark_matched c1 (with_isFlipped true c2))).
  assert (Hlen : Z.to_nat i < length (cards s)) by lia.
  repeat split.
  - exists (with_matched_flipped (with_isFlipped true c2)).
    split; [|repeat split].
    apply at_index_Some. rewrite length_fmap, length_insert. split; [lia|].
    rewrite list_lookup_fmap, list_lookup_insert_eq by exact Hlen. simpl.
    f_equal. apply mark_matched_hit; auto.
  - intros k c Hk Hidc.
    destruct (decide (k = Z.to_nat i)) as [-> | Hne].
    + assert (c = c2) by congruence. subst c.
      exists (with_matched_flipped (with_isFlipped true c2)).
      split; [|repeat split; auto].
      rewrite list_lookup_fmap, list_lookup_insert_eq by exact Hlen. simpl.
      f_equal. apply mark_matched_hit; auto.
    + exists (with_matched_flipped c). split; [|repeat split; auto].
      rewrite list_lookup_fmap, list_lookup_insert_ne by (intros E; now apply Hne).
      rewrite Hk. simpl. f_equal. apply mark_matched_hit; auto.
  - rewrite list_lookup_fmap in H.
    destruct (_ !! k) as [c|] eqn:Hk; [|discriminate]. simpl in H.
    inversion H; subst c'. rewrite id_mark_matched in H0.
    rewrite mark_matched_hit; auto.
  - rewrite list_lookup_fmap in H.
    destruct (_ !! k) as [c|] eqn:Hk; [|discriminate]. simpl in H.
    inversion H; subst c'. rewrite id_mark_matched in H0.
    rewrite mark_matched_hit; auto.
  - intros k Hk.
    change (current_index (with_cards_flipped _ _ s)) with (current_index s).
    destruct (findIndex_found _ _ _ Hk) as (p & Hp & Hpid).
    apply String.eqb_eq in Hpid.
    rewrite Hk, at_index_of_nat, Hp, Nat2Z.id.
    destruct (Z.eqb_spec (Z.of_nat k) (-1)); [lia|]. simpl.
    exists p, (add_match c1 (with_isFlipped true c2) p). repeat split; auto.
  - intros Hnone.
    change (current_index (with_cards_flipped _ _ s)) with (current_index s).
    rewrite Hnone. reflexivity.
Qed.

(** C3, as stated, fails: when the one card of flippedCards carries no id,
    flipping a matching second card (both are red) leaves both cards
    unmatched and in flippedCards, and appends no move. *)
Lemma matching_flip_needs_ids :
  length (flippedCards (after_first_flip flipped_blank)) = 1 /\
  canFlipCard (after_first_flip flipped_blank) 1 = true /\
  (exists c2, at_index (cards (after_first_flip flipped_blank)) 1 = Some c2 /\
              cardsMatch flipped_blank c2 mt_color = true) /\
  exists s', handleCardFlip (after_first_flip flipped_blank) 1 5 5 = Some s' /\
             length (flippedCards s') = 2 /\
             moveHistory s' = [] /\
             Forall (fun c => isMatched c = false) (cards s').
Proof.
  split; [reflexivity|]. split; [reflexivity|].
  split; [eexists; split; reflexivity|].
  eexists. split; [reflexivity|]. split; [reflexivity|]. split; [reflexivity|].
  repeat constructor.
Qed.

(** C3 (amended) at a red card face up and a red card flipped second. *)
Lemma matching_flip_resolves_pair_witness :
  exists s', handleCardFlip (after_first_flip flipped_heart) 1 5 5 = Some s' /\
             flippedCards s' = [] /\
             currentPlayer s' = "player1".
Proof.
  destruct (matching_flip_resolves_pair (after_first_flip flipped_heart) 1 5 5
              flipped_heart (mkCard "card-1" diamonds rA red 1 false false)
              eq_refl eq_refl eq_refl eq_refl eq_refl)
    as (s' & H & _ & _ & _ & _ & _ & _ & Hf & _ & Hc).
  exists s'. auto.
Defined.

(** ** A mismatch *)

Lemma getNextPlayer_nonempty (s : GameState) :
  players s <> [] ->
  exists q,
    at_index (players s)
             ((current_index s + 1) mod Z.of_nat (length (players s)))%Z = Some q /\
    getNextPlayer s = Some (p_id q).
Proof.
  intros Hne. unfold getNextPlayer. fold (current_index s).
  destruct (players s) as [|p ps] eqn:Hp; [contradiction|].
  destruct (at_index_in_range (p :: ps)
              ((current_index s + 1) mod Z.of_nat (length (p :: ps)))%Z) as [q Hq].
  { apply Z.mod_pos_bound. simpl. lia. }
  exists q. split; [exact Hq|]. now rewrite Hq.
Qed.

(** C4, as stated, fails: when the one card of flippedCards carries no id,
    flipping a second card that does not match it appends no move and
    leaves currentPlayer where it was, outside 'ai-vs-ai' mode too; and
    when nobody is seated the mismatching flip throws (there is no next
    player to read the id of) instead of yielding a state. *)
Lemma mismatching_flip_needs_ids :
  (length (flippedCards (after_first_flip flipped_blank)) = 1 /\
   canFlipCard (after_first_flip flipped_blank) 2 = true /\
   (exists c2, at_index (cards (after_first_flip flipped_blank)) 2 = Some c2 /\
               cardsMatch flipped_blank c2 mt_color = false) /\
   gameMode (after_first_flip flipped_blank) <> gm_ai_vs_ai /\
   exists s', handleCardFlip (after_first_flip flipped_blank) 2 5 5 = Some s' /\
              moveHistory s' = [] /\
              currentPlayer s' = currentPlayer (after_first_flip flipped_blank)) /\
  (flippedCards (without_players (after_first_flip flipped_heart)) = [flipped_heart] /\
   canFlipCard (without_players (after_first_flip flipped_heart)) 2 = true /\
   handleCardFlip (without_players (after_first_flip flipped_heart)) 2 5 5 = None).
Proof.
  split.
  - split; [reflexivity|]. split; [reflexivity|].
    split; [eexists; split; reflexivity|].
    split; [discriminate|].
    eexists. split; [reflexivity|]. split; reflexivity.
  - repeat split.
Qed.

(** C4 (amended): for every state with exactly one card in flippedCards,
    that card carrying a non-empty id, and with at least one player unless
    the mode is 'ai-vs-ai', a flip that [canFlipCard] accepts of a second
    card that does not match it under matchType yields a state whose board
    differs only in the second card now being flipped (every card that was
    flipped still is), flippedCards holds both cards, a Move with
    isMatch = false is appended to moveHistory, and currentPlayer is the id
    of the player after the current one in round-robin order (the first
    player when no player has the current id) - except when gameMode is
    'ai-vs-ai', where currentPlayer is unchanged and the mismatch reset of
    scheduleAIMove then switches it between 'ai1' and 'ai2'. *)
Theorem mismatching_flip_keeps_cards_up (s : GameState) (i now_move now_turn : Z)
    (c1 c2 : Card) :
  flippedCards s = [c1] ->
  truthy (id c1) = true ->
  canFlipCard s i = true ->
  at_index (cards s) i = Some c2 ->
  cardsMatch c1 c2 (matchType s) = false ->
  (gameMode s <> gm_ai_vs_ai -> players s <> []) ->
  exists s' : GameState,
    handleCardFlip s i now_move now_turn = Some s' /\
    cards s' = <[Z.to_nat i := with_isFlipped true c2]> (cards s) /\
    (forall k c, cards s !! k = Some c -> isFlipped c = true ->
       exists c', cards s' !! k = Some c' /\ id c' = id c /\ isFlipped c' = true) /\
    flippedCards s' = [c1; with_isFlipped true c2] /\
    moveHistory s' = moveHistory s
                     ++ [mkMove (currentPlayer s) [id c1; id c2] now_move false] /\
    players s' = players s /\
    matchedPairs s' = matchedPairs s /\
    (gameMode s = gm_ai_vs_ai ->
       currentPlayer s' = currentPlayer s /\
       currentPlayer (aiMismatchReset s')
       = if String.eqb (currentPlayer s) "ai1" then "ai2" else "ai1") /\
    (gameMode s <> gm_ai_vs_ai ->
       exists q,
         at_index (players s)
                  ((current_index s + 1) mod Z.of_nat (length (players s)))%Z
         = Some q /\
         currentPlayer s' = p_id q).
Proof.
  intros Hf Hid1 Hcan Hc2 Hm Hpl.
  rewrite (second_flip s i now_move now_turn c1 c2 Hf Hid1 Hcan Hc2).
  rewrite Hm. cbn zeta.
  pose proof (proj1 (at_index_Some _ _ _) Hc2) as [Hr Hk2].
  assert (Hlen : Z.to_nat i < length (cards s)) by lia.
  set (s1 := with_cards_flipped _ _ s).
  assert (Hnext : exists newCurrent,
             (if bool_decide (gameMode s = gm_ai_vs_ai) then Some (currentPlayer s)
              else getNextPlayer s) = Some newCurrent /\
             (gameMode s = gm_ai_vs_ai -> newCurrent = currentPlayer s) /\
             (gameMode s <> gm_ai_vs_ai ->
                exists q,
                  at_index (players s)
                    ((current_index s + 1) mod Z.of_nat (length (players s)))%Z
                  = Some q /\ newCurrent = p_id q)).
  { destruct (bool_decide_reflect (gameMode s = gm_ai_vs_ai)) as [E | N].
    - exists (currentPlayer s). split; [reflexivity|]. split; [auto | contradiction].
    - destruct (getNextPlayer_nonempty s (Hpl N)) as (q & Hq & Hn).
      exists (p_id q). split; [exact Hn|]. split; [contradiction|].
      intros _. exists q. split; [exact Hq | reflexivity]. }
  destruct Hnext as (newCurrent & -> & HA & HB). simpl mbind.
  eexists. split; [reflexivity|].
  rewrite cards_finish_if_done, players_finish_if_done, matchedPairs_finish_if_done,
    flippedCards_finish_if_done, moveHistory_finish_if_done.
  unfold resolved. cbn [cards players matchedPairs flippedCards moveHistory
                        currentPlayer with_cards_flipped andb s1].
  split; [reflexivity|]. split.
  { intros k c Hk Hfl.
    destruct (decide (k = Z.to_nat i)) as [-> | Hne].
    - assert (c = c2) by congruence. subst c.
      exists (with_isFlipped true c2).
      rewrite list_lookup_insert_eq by exact Hlen. auto.
    - exists c. rewrite list_lookup_insert_ne by (intros E; now apply Hne). auto. }
  split; [reflexivity|]. split; [reflexivity|]. split; [reflexivity|].
  split; [reflexivity|]. split.
  - intros E. unfold aiMismatchReset.
    rewrite gameMode_finish_if_done, currentPlayer_finish_if_done.
    cbn [gameMode currentPlayer]. rewrite (HA E).
    split; [reflexivity|].
    change (gameMode s1) with (gameMode s).
    rewrite bool_decide_eq_true_2 by exact E. reflexivity.
  - intros N. rewrite currentPlayer_finish_if_done. cbn [currentPlayer].
    exact (HB N).
Qed.

(** C4 (amended) at a red card face up and a black card flipped second. *)
Lemma mismatching_flip_keeps_cards_up_witness :
  exists s', handleCardFlip (after_first_flip flipped_heart) 2 5 5 = Some s' /\
             length (flippedCards s') = 2 /\
             currentPlayer s' = "player2".
Proof.
  destruct (mismatching_flip_keeps_cards_up (after_first_flip flipped_heart) 2 5 5
              flipped_heart (mkCard "card-2" spades rA black 2 false false)
              eq_refl eq_refl eq_refl eq_refl eq_refl
              ltac:(discriminate))
    as (s' & H & _ & _ & Hf & _ & _ & _ & _ & Hc).
  exists s'. split; [exact H|]. split; [now rewrite Hf|].
  destruct (Hc ltac:(discriminate)) as (q & Hq & ->).
  vm_compute in Hq. now inversion Hq.
Defined.

(** ** Matched cards are never turned back *)



Lemma Forall2_map_same {A : Type} (R : A -> A -> Prop) (f : A -> A) (l : list A) :
  (forall x, R x (f x)) -> Forall2 R l (map f l).
Proof. intros H. induction l; simpl; constructor; auto. Qed.

Lemma Forall2_refl {A : Type} (R : A -> A -> Prop) (l : list A) :
  (forall x, R x x) -> Forall2 R l l.
Proof. intros H. induction l; constructor; auto. Qed.

Lemma Forall2_insert_same {A : Type} (R : A -> A -> Prop) (l : list A)
    (i : nat) (x y : A) :
  (forall z, R z z) -> l !! i = Some x -> R x y -> Forall2 R l (<[i := y]> l).
Proof.
  intros Hrefl Hx Hxy.
  rewrite <- (list_insert_id l i x Hx) at 1.
  apply Forall2_insert; [now apply Forall2_refl | exact Hxy].
Qed.







(** ** Deck generation *)

Lemma rand_value_range (r : Rand) : (0 <= Z.of_N (rnum r) < Z.pos (rand_den r))%Z.
Proof.
  unfold rand_den. destruct (rnum r) as [|p]; simpl; [lia|].
  rewrite Pos2Z.inj_add. lia.
Qed.

(** [Math.floor(Math.random() * n)] is an index below [n]. *)
Lemma random_below_lt (n : nat) (g : Rng) : 0 < n -> fst (random_below n g) < n.
Proof.
  intros Hn. unfold random_below, random, mbind, Gen_bind, mret, Gen_ret. simpl.
  pose proof (rand_value_range (g 0)) as [H0 H1].
  unfold rand_value, Qmult, inject_Z, Qfloor. simpl Qnum. simpl Qden.
  rewrite Pos.mul_1_r.
  set (a := Z.of_N (rnum (g 0))) in *. set (d := Z.pos (rand_den (g 0))) in *.
  assert (Hdiv : (0 <= a * Z.of_nat n / d < Z.of_nat n)%Z).
  { split.
    - apply Z.div_pos; nia.
    - apply Z.div_lt_upper_bound; nia. }
  lia.
Qed.

Lemma pick_or_In {A : Type} (xs : list A) (fallback : A) (g : Rng) :
  xs <> [] -> In (fst (pick_or xs fallback g)) xs.
Proof.
  intros Hne. unfold pick_or.
  unfold mbind, Gen_bind, mret, Gen_ret.
  pose proof (random_below_lt (length xs) g) as Hlt.
  destruct (random_below (length xs) g) as [k g'] eqn:Hk. simpl in *.
  destruct (lookup_lt_is_Some_2 xs k) as [x Hx].
  { apply Hlt. destruct xs; [contradiction | simpl; lia]. }
  rewrite Hx. simpl. apply list_elem_of_In. eapply list_elem_of_lookup_2; eauto.
Qed.

(** The loop that refills the memory stops on its own test: with as much
    fuel as there are remaining entries, more fuel changes nothing. *)
Lemma fill_randomly_fuel (limit : nat) (fuel : nat) :
  forall (keepEntries remainingEntries : list (Z * Card)) (g : Rng),
    length remainingEntries <= fuel ->
    fill_randomly (S fuel) limit keepEntries remainingEntries g
    = fill_randomly fuel limit keepEntries remainingEntries g.
Proof.
  induction fuel as [|fuel IH]; intros keepEntries remainingEntries g Hlen.
  - destruct remainingEntries; [|simpl in Hlen; lia].
    cbn [fill_randomly length]. now rewrite andb_false_r.
  - cbn [fill_randomly].
    destruct ((length keepEntries <? limit) && (0 <? length remainingEntries))
      eqn:Hc; [|reflexivity].
    apply andb_true_iff in Hc. destruct Hc as [_ Hpos]. apply Nat.ltb_lt in Hpos.
    unfold mbind, Gen_bind.
    pose proof (random_below_lt (length remainingEntries) g Hpos) as Hlt.
    destruct (random_below (length remainingEntries) g) as [k g']. cbn [fst] in Hlt.
    assert (Hd : length (delete k remainingEntries) <= fuel).
    { rewrite length_delete by now apply lookup_lt_is_Some_2. lia. }
    rewrite <- (IH _ _ g' Hd). reflexivity.
Qed.

Lemma generateMatchingCard_partner (b : BaseCard) (matchType : MatchType) (g : Rng) :
  partner_of matchType b (fst (generateMatchingCard b matchType g)).
Proof.
  destruct matchType; unfold generateMatchingCard, partner_of;
    unfold mbind, Gen_bind, mret, Gen_ret;
    match goal with |- context [pick_or ?l ?d g] =>
      assert (Hne : l <> []);
      [ destruct b as [[] [] []]; simpl; discriminate
      | pose proof (pick_or_In l d g Hne) as Hin;
        destruct (pick_or l d g) as [x g'];
        cbn [fst] in Hin; apply filter_In in Hin; destruct Hin as [_ Hp] ]
    end; cbn [fst b_color b_suit b_rank].
  - apply andb_true_iff in Hp. destruct Hp as [Hc Hs].
    apply bool_decide_eq_true in Hc. apply negb_true_iff, bool_decide_eq_false in Hs.
    auto.
  - apply negb_true_iff, bool_decide_eq_false in Hp. auto.
  - apply negb_true_iff, bool_decide_eq_false in Hp. auto.
Qed.

Lemma partner_cardsMatch (matchType : MatchType) (b p : BaseCard)
    (i1 i2 p1 p2 : nat) :
  partner_of matchType b p ->
  cardsMatch (make_card b i1 p1) (make_card p i2 p2) matchType = true.
Proof.
  destruct matchType; simpl; intros H; apply bool_decide_eq_true; simpl;
    destruct H as [H _]; congruence.
Qed.

(** The array built by the pair loop: the cards it started from, then for
    every iteration the base card and its partner, numbered in order. *)
Lemma generate_pairs_spec (matchType : MatchType) (n : nat) :
  forall (i : nat) (acc : list Card) (g : Rng),
  exists rest,
    fst (generate_pairs n i matchType acc g) = acc ++ rest /\
    length rest = 2 * n /\
    forall k, k < n ->
      exists g',
        rest !! (2 * k)
        = Some (make_card (generateBaseCard (i + k) matchType)
                          (2 * (i + k)) (length acc + 2 * k)) /\
        rest !! (2 * k + 1)
        = Some (make_card (fst (generateMatchingCard
                                  (generateBaseCard (i + k) matchType) matchType g'))
                          (2 * (i + k) + 1) (length acc + 2 * k + 1)).
Proof.
  induction n as [|n IH]; intros i acc g.
  - exists []. cbn [generate_pairs]. unfold mret, Gen_ret. cbn [fst].
    rewrite app_nil_r. repeat split; auto. intros k Hk. lia.
  - cbn [generate_pairs]. unfold mbind, Gen_bind.
    destruct (generateMatchingCard (generateBaseCard i matchType) matchType g)
      as [pair g1] eqn:Hpair.
    set (c1 := make_card (generateBaseCard i matchType) (2 * i) (length acc)).
    set (c2 := make_card pair (2 * i + 1) (length (acc ++ [c1]))).
    destruct (IH (S i) ((acc ++ [c1]) ++ [c2]) g1) as (rest & Heq & Hlen & Hk).
    exists (c1 :: c2 :: rest). split; [|split].
    + rewrite Heq. rewrite <- !app_assoc. reflexivity.
    + cbn [length]. lia.
    + intros k Hlt. destruct k as [|k].
      * exists g. replace (i + 0) with i by lia. rewrite Hpair. subst c1 c2.
        rewrite length_app. cbn [length fst].
        replace (2 * 0) with 0 by lia.
        replace (length acc + 0) with (length acc) by lia.
        split; reflexivity.
      * destruct (Hk k ltac:(lia)) as (g' & H1 & H2).
        exists g'.
        replace (2 * S k) with (S (S (2 * k))) by lia.
        replace (S (S (2 * k)) + 1) with (S (S (2 * k + 1))) by lia.
        cbn [lookup list_lookup].
        rewrite !length_app in H1, H2. cbn [length] in H1, H2.
        replace (i + S k) with (S i + k) by lia.
        replace (length acc + S (S (2 * k))) with (length acc + 1 + 1 + 2 * k) by lia.
        replace (length acc + S (S (2 * k + 1)))
          with (length acc + 1 + 1 + 2 * k + 1) by lia.
        split; assumption.
Qed.

Lemma swap_Permutation {A : Type} (a : list A) (i j : nat) : Permutation (swap a i j) a.
Proof.
  unfold swap.
  destruct (a !! i) as [x|] eqn:Hi; [|reflexivity].
  destruct (a !! j) as [y|] eqn:Hj; [|reflexivity].
  now apply Permutation_insert_swap.
Qed.

Lemma shuffle_loop_Permutation {A : Type} (i : nat) :
  forall (a : list A) (g : Rng), Permutation (fst (shuffle_loop i a g)) a.
Proof.
  induction i as [|i IH]; intros a g; simpl; [reflexivity|].
  unfold mbind, Gen_bind.
  destruct (random_below (S (S i)) g) as [j g'].
  etransitivity; [apply IH | apply swap_Permutation].
Qed.

Lemma shuffleArray_Permutation {A : Type} (a : list A) (g : Rng) :
  Permutation (fst (shuffleArray a g)) a.
Proof. apply shuffle_loop_Permutation. Qed.

(** The deck is the unshuffled deck in some order, every card carrying its
    final index as position. *)
Lemma generateGameCards_shuffled (boardSize : BoardSize) (matchType : MatchType)
    (g : Rng) :
  exists (shuffled : list Card) (g' : Rng),
    Permutation shuffled (fst (unshuffledCards boardSize matchType g')) /\
    fst (generateGameCards boardSize matchType g)
    = imap (fun index card => with_position index card) shuffled.
Proof.
  unfold generateGameCards, mbind, Gen_bind, mret, Gen_ret.
  destruct (unshuffledCards boardSize matchType g) as [cs g1] eqn:Hu.
  pose proof (shuffleArray_Permutation cs g1) as Hp.
  destruct (shuffleArray cs g1) as [shuffled g2].
  exists shuffled, g. rewrite Hu. auto.
Qed.

Lemma total_even (boardSize : BoardSize) : 2 * (total boardSize / 2) = total boardSize.
Proof. destruct boardSize; reflexivity. Qed.

Lemma unshuffledCards_spec (boardSize : BoardSize) (matchType : MatchType) (g : Rng) :
  length (fst (unshuffledCards boardSize matchType g)) = total boardSize /\
  forall k, k < total boardSize / 2 ->
    exists g',
      fst (unshuffledCards boardSize matchType g) !! (2 * k)
      = Some (make_card (generateBaseCard k matchType) (2 * k) (2 * k)) /\
      fst (unshuffledCards boardSize matchType g) !! (2 * k + 1)
      = Some (make_card (fst (generateMatchingCard (generateBaseCard k matchType)
                                                   matchType g'))
                        (2 * k + 1) (2 * k + 1)).
Proof.
  unfold unshuffledCards.
  destruct (generate_pairs_spec matchType (total boardSize / 2) 0 [] g)
    as (rest & Heq & Hlen & Hk).
  rewrite Heq. cbn [app]. split; [rewrite Hlen; apply total_even|].
  intros k Hlt. destruct (Hk k Hlt) as (g' & H1 & H2).
  exists g'. cbn [length] in H1, H2.
  replace (0 + k) with k in H1, H2 by lia.
  replace (0 + 2 * k) with (2 * k) in H1, H2 by lia.
  auto.
Qed.

Lemma generateGameCards_length (boardSize : BoardSize) (matchType : MatchType)
    (g : Rng) :
  length (fst (generateGameCards boardSize matchType g)) = total boardSize.
Proof.
  destruct (generateGameCards_shuffled boardSize matchType g)
    as (shuffled & g' & Hperm & ->).
  rewrite length_imap, (Permutation_length Hperm).
  apply unshuffledCards_spec.
Qed.

(** Every card of the unshuffled deck is in the deck, at some index, with
    that index as its position. *)
Lemma generateGameCards_keeps (boardSize : BoardSize) (matchType : MatchType)
    (g : Rng) :
  exists g',
    forall (n : nat) (c : Card),
      fst (unshuffledCards boardSize matchType g') !! n = Some c ->
      exists p, fst (generateGameCards boardSize matchType g) !! p
                = Some (with_position p c).
Proof.
  destruct (generateGameCards_shuffled boardSize matchType g)
    as (shuffled & g' & Hperm & ->).
  exists g'. intros n c Hn.
  assert (Hin : In c shuffled).
  { apply (Permutation_in _ (Permutation_sym Hperm)).
    apply list_elem_of_In. eapply list_elem_of_lookup_2. exact Hn. }
  apply list_elem_of_In, list_elem_of_lookup in Hin. destruct Hin as [p Hp].
  exists p. rewrite list_lookup_imap, Hp. reflexivity.
Qed.

(** C8: for every supported board size (4x4, 4x6, 6x6), every matchType
    and every sequence of random draws, [generateGameCards] returns a deck
    whose length is the board's cell count rows x cols (16 = 4 x 4 for
    4x4, 24 = 4 x 6 for 4x6, 36 = 6 x 6 for 6x6), an even number, and
    for each of the total/2 generated base cards the deck holds that base
    card and its synthesized partner, at different indices, and they
    satisfy [cardsMatch] under the matchType: the partner has the same
    color and a different suit of that color for 'color', the same rank and
    a different suit for 'rank', the same suit and a different rank for
    'suit'. *)
Theorem generateGameCards_pairs_match (boardSize : BoardSize)
    (matchType : MatchType) (g : Rng) (k : nat) :
  k < total boardSize / 2 ->
  let deck := fst (generateGameCards boardSize matchType g) in
  length deck = total boardSize /\
  total boardSize
  = fst (fst (getBoardDimensions boardSize)) * snd (fst (getBoardDimensions boardSize)) /\
  length deck
  = match boardSize with b4x4 => 16 | b4x6 => 24 | b6x6 => 36 end /\
  fst (getBoardDimensions boardSize)
  = match boardSize with b4x4 => (4, 4) | b4x6 => (4, 6) | b6x6 => (6, 6) end /\
  Nat.Even (length deck) /\
  exists (p1 p2 : nat) (base partner : Card),
    deck !! p1 = Some base /\ deck !! p2 = Some partner /\ p1 <> p2 /\
    id base = String.append "card-" (decimal (2 * k)) /\
    id partner = String.append "card-" (decimal (2 * k + 1)) /\
    suit base = b_suit (generateBaseCard k matchType) /\
    rank base = b_rank (generateBaseCard k matchType) /\
    color base = b_color (generateBaseCard k matchType) /\
    cardsMatch base partner matchType = true /\
    match matchType with
    | mt_color => color partner = color base /\ suit partner <> suit base /\
                  getCardColor (suit partner) = color base
    | mt_rank => rank partner = rank base /\ suit partner <> suit base
    | mt_suit => suit partner = suit base /\ rank partner <> rank base
    end.
Proof.
  intros Hk deck. subst deck.
  split; [apply generateGameCards_length|].
  split; [destruct boardSize; reflexivity|].
  split; [rewrite generateGameCards_length; destruct boardSize; reflexivity|].
  split; [destruct boardSize; reflexivity|].
  split.
  { rewrite generateGameCards_length. exists (total boardSize / 2).
    symmetry. apply total_even. }
  destruct (generateGameCards_keeps boardSize matchType g) as (g' & Hkeep).
  destruct (unshuffledCards_spec boardSize matchType g') as (_ & Hpairs).
  destruct (Hpairs k Hk) as (g'' & H1 & H2).
  destruct (Hkeep _ _ H1) as (p1 & Hp1). destruct (Hkeep _ _ H2) as (p2 & Hp2).
  pose proof (generateMatchingCard_partner (generateBaseCard k matchType)
                matchType g'') as Hpart.
  set (pair := fst (generateMatchingCard (generateBaseCard k matchType) matchType g''))
    in *.
  exists p1, p2, (with_position p1 (make_card (generateBaseCard k matchType)
                                              (2 * k) (2 * k))),
    (with_position p2 (make_card pair (2 * k + 1) (2 * k + 1))).
  split; [exact Hp1|]. split; [exact Hp2|].
  split.
  { intros ->. rewrite Hp1 in Hp2.
    assert (Es : Some (b_suit (generateBaseCard k matchType)) = Some (b_suit pair))
      by exact (f_equal (option_map suit) Hp2).
    assert (Er : Some (b_rank (generateBaseCard k matchType)) = Some (b_rank pair))
      by exact (f_equal (option_map rank) Hp2).
    destruct matchType; cbn [partner_of] in Hpart; intuition congruence. }
  repeat (split; [reflexivity|]).
  split.
  { rewrite <- (partner_cardsMatch matchType (generateBaseCard k matchType) pair
                  (2 * k) (2 * k + 1) (2 * k) (2 * k + 1) Hpart).
    destruct matchType; reflexivity. }
  destruct matchType; exact Hpart.
Qed.

(** C8 at the last pair of each board: the eighth pair of a 4x4 deck
    matched by suit, the twelfth of a 4x6 deck matched by rank, the
    eighteenth of a 6x6 deck matched by colour. *)
Lemma generateGameCards_pairs_match_witness :
  (length (fst (generateGameCards b4x4 mt_suit zero_rng)) = 16 /\
   Nat.Even (length (fst (generateGameCards b4x4 mt_suit zero_rng)))) /\
  (length (fst (generateGameCards b4x6 mt_rank zero_rng)) = 24 /\
   exists (p1 p2 : nat) (base partner : Card),
     fst (generateGameCards b4x6 mt_rank zero_rng) !! p1 = Some base /\
     fst (generateGameCards b4x6 mt_rank zero_rng) !! p2 = Some partner /\
     id base = "card-22" /\ id partner = "card-23" /\
     rank partner = rank base /\ suit partner <> suit base) /\
  (length (fst (generateGameCards b6x6 mt_color zero_rng)) = 36 /\
   exists (p1 p2 : nat) (base partner : Card),
     fst (generateGameCards b6x6 mt_color zero_rng) !! p1 = Some base /\
     fst (generateGameCards b6x6 mt_color zero_rng) !! p2 = Some partner /\
     id base = "card-34" /\ id partner = "card-35" /\
     color partner = color base /\ suit partner <> suit base).
Proof.
  assert (K4 : 7 < total b4x4 / 2) by (vm_compute; lia).
  assert (K6 : 11 < total b4x6 / 2) by (vm_compute; lia).
  assert (K9 : 17 < total b6x6 / 2) by (vm_compute; lia).
  pose proof (generateGameCards_pairs_match b4x4 mt_suit zero_rng 7 K4) as H4.
  pose proof (generateGameCards_pairs_match b4x6 mt_rank zero_rng 11 K6) as H6.
  pose proof (generateGameCards_pairs_match b6x6 mt_color zero_rng 17 K9) as H9.
  cbv zeta in H4, H6, H9.
  split; [|split].
  - destruct H4 as (_ & _ & Hlen & _ & Heven & _). split; assumption.
  - destruct H6
      as (_ & _ & Hlen & _ & _ & p1 & p2 & base & partner & H1 & H2 & _ & I1 & I2
          & _ & _ & _ & _ & Hr & Hs).
    split; [exact Hlen|]. exists p1, p2, base, partner.
    split; [exact H1|]. split; [exact H2|].
    split; [rewrite I1; vm_compute; reflexivity|].
    split; [rewrite I2; vm_compute; reflexivity|]. split; assumption.
  - destruct H9
      as (_ & _ & Hlen & _ & _ & p1 & p2 & base & partner & H1 & H2 & _ & I1 & I2
          & _ & _ & _ & _ & Hc & Hs & _).
    split; [exact Hlen|]. exists p1, p2, base, partner.
    split; [exact H1|]. split; [exact H2|].
    split; [rewrite I1; vm_compute; reflexivity|].
    split; [rewrite I2; vm_compute; reflexivity|]. split; assumption.
Defined.

(** ** The initial state *)

Lemma decimal_inj (m n : nat) : decimal m = decimal n -> m = n.
Proof.
  unfold decimal. intros H.
  apply (f_equal NilEmpty.uint_of_string) in H.
  rewrite !NilEmpty.usu in H. inversion H as [E].
  apply (f_equal Nat.of_uint) in E. now rewrite !DecimalNat.Unsigned.of_to in E.
Qed.

Lemma card_id_inj (m n : nat) : card_id m = card_id n -> m = n.
Proof.
  unfold card_id. intros H. simpl in H. injection H as H. now apply decimal_inj.
Qed.

Lemma NoDup_card_ids (a n : nat) : NoDup (map card_id (seq a n)).
Proof.
  change (NoDup (card_id <$> seq a n)).
  apply NoDup_fmap_2; [|apply NoDup_seq].
  intros x y. apply card_id_inj.
Qed.

Lemma generate_pairs_ids (matchType : MatchType) (n : nat) :
  forall (i : nat) (acc : list Card) (g : Rng),
    map id (fst (generate_pairs n i matchType acc g))
    = map id acc ++ map card_id (seq (2 * i) (2 * n)) /\
    (Forall fresh acc -> Forall fresh (fst (generate_pairs n i matchType acc g))).
Proof.
  induction n as [|n IH]; intros i acc g.
  - cbn [generate_pairs]. unfold mret, Gen_ret. cbn [fst].
    replace (2 * 0) with 0 by lia. cbn [seq map]. rewrite app_nil_r. auto.
  - cbn [generate_pairs]. unfold mbind, Gen_bind.
    destruct (generateMatchingCard (generateBaseCard i matchType) matchType g)
      as [pair g1].
    set (c1 := make_card (generateBaseCard i matchType) (2 * i) (length acc)).
    set (c2 := make_card pair (2 * i + 1) (length (acc ++ [c1]))).
    destruct (IH (S i) ((acc ++ [c1]) ++ [c2]) g1) as [Hids Hfresh].
    split.
    + rewrite Hids. rewrite !map_app. cbn [map].
      replace (2 * S n) with (S (S (2 * n))) by lia. cbn [seq map].
      rewrite <- !app_assoc. cbn [app].
      replace (S (2 * i)) with (2 * i + 1) by lia.
      replace (S (2 * i + 1)) with (2 * S i) by lia.
      reflexivity.
    + intros Hacc. apply Hfresh.
      apply Forall_app. split; [apply Forall_app; split; [exact Hacc|]|];
        repeat constructor.
Qed.

Lemma id_with_position (n : nat) (c : Card) : id (with_position n c) = id c.
Proof. reflexivity. Qed.

Lemma map_id_imap_position (l : list Card) :
  map id (imap (fun index card => with_position index card) l) = map id l.
Proof.
  apply list_eq. intros k.
  change (map id ?x) with (id <$> x).
  rewrite !list_lookup_fmap, list_lookup_imap. now destruct (l !! k).
Qed.

Lemma generateGameCards_ids (boardSize : BoardSize) (matchType : MatchType)
    (g : Rng) :
  NoDup (map id (fst (generateGameCards boardSize matchType g))) /\
  Forall fresh (fst (generateGameCards boardSize matchType g)).
Proof.
  destruct (generateGameCards_shuffled boardSize matchType g)
    as (shuffled & g' & Hperm & ->).
  destruct (generate_pairs_ids matchType (total boardSize / 2) 0 [] g')
    as [Hids Hfresh].
  fold (unshuffledCards boardSize matchType) in Hids, Hfresh.
  split.
  - rewrite map_id_imap_position.
    rewrite (Permutation_map id Hperm), Hids. apply NoDup_card_ids.
  - apply Forall_forall. intros c Hc.
    apply list_elem_of_lookup in Hc. destruct Hc as [k Hk].
    rewrite list_lookup_imap in Hk.
    destruct (shuffled !! k) as [c0|] eqn:Hk0; [|discriminate].
    inversion Hk; subst c.
    assert (Hin : c0 ∈ fst (unshuffledCards boardSize matchType g')).
    { rewrite <- Hperm. eapply list_elem_of_lookup_2; eauto. }
    specialize (Hfresh (Forall_nil_2 _)).
    rewrite Forall_forall in Hfresh. exact (Hfresh c0 Hin).
Qed.

(** ** The shapes of a flip *)

Lemma handleCardFlip_shape (s : GameState) (i now_move now_turn : Z) (s' : GameState) :
  handleCardFlip s i now_move now_turn = Some s' ->
  flip_shape s i now_move now_turn s'.
Proof.
  intros H. destruct (canFlipCard s i) eqn:Hcan.
  - pose proof (proj1 (canFlipCard_true_iff s i) Hcan)
      as (_ & _ & (c & Hc & Hid & _) & Hlen).
    destruct (flippedCards s) as [|c1 [|c1' rest]] eqn:Hf; simpl in Hlen; [| |lia].
    + rewrite (handleCardFlip_accepted s i now_move now_turn c Hcan Hc) in H.
      rewrite Hf in H. simpl in H. inversion H.
      eapply flip_first; eauto. unfold turned. now rewrite Hf.
    + destruct (truthy (id c1)) eqn:Hid1.
      * rewrite (second_flip s i now_move now_turn c1 c Hf Hid1 Hcan Hc) in H.
        cbn zeta in H. fold (next_current s c1 c) in H.
        destruct (next_current s c1 c) as [newCurrent|] eqn:Hn; [|discriminate].
        simpl in H. inversion H.
        eapply flip_second; eauto. unfold turned. now rewrite Hf.
      * rewrite (handleCardFlip_accepted s i now_move now_turn c Hcan Hc) in H.
        rewrite Hf in H. simpl in H. unfold processCardPair in H. simpl in H.
        rewrite Hid1 in H. simpl in H. inversion H.
        eapply flip_second_unresolved; eauto. unfold turned. now rewrite Hf.
  - rewrite (handleCardFlip_rejected s i now_move now_turn Hcan) in H.
    injection H as <-. now apply flip_rejected.
Qed.

(** ** Finished means every card matched *)





Lemma isMatched_reset_card (c : Card) : isMatched (reset_card c) = isMatched c.
Proof.
  unfold reset_card. destruct (negb (truthy (id c))); [reflexivity|].
  destruct (isMatched c) eqn:M; [exact M|].
  destruct (isFlipped c); simpl; auto.
Qed.

Lemma isMatched_resetFlipped (c : Card) :
  isMatched (if isFlipped c && negb (isMatched c) then with_isFlipped false c else c)
  = isMatched c.
Proof. destruct (isFlipped c && negb (isMatched c)); reflexivity. Qed.

Lemma map_isMatched_reset_card (l : list Card) :
  map isMatched (map reset_card l) = map isMatched l.
Proof. rewrite map_map. apply map_ext, isMatched_reset_card. Qed.

Lemma map_isMatched_resetFlippedCards (l : list Card) :
  map isMatched (resetFlippedCards l) = map isMatched l.
Proof.
  unfold resetFlippedCards. rewrite map_map. apply map_ext, isMatched_resetFlipped.
Qed.


Lemma count_matched_ext (l l' : list Card) :
  map isMatched l = map isMatched l' -> count_matched l = count_matched l'.
Proof.
  unfold count_matched.
  revert l'. induction l as [|c l IH]; intros [|c' l'] H; try discriminate; auto.
  simpl in *. inversion H as [[Hc Hl]]. rewrite Hc.
  destruct (isMatched c'); simpl; auto.
Qed.


Lemma initializeGame_fields mode matchType boardSize player1Name player2Name
    aiDifficulty ai2Difficulty now_turn now_game (g : Rng) :
  let s := fst (initializeGame mode matchType boardSize player1Name player2Name
                               aiDifficulty ai2Difficulty now_turn now_game g) in
  cards s = fst (generateGameCards boardSize matchType g) /\
  flippedCards s = [] /\ matchedPairs s = [] /\ gameStatus s = playing /\
  gameMode s = mode /\
  map score (players s) = [0; 0] /\
  map (fun p => (p_id p, p_type p)) (players s)
  = match mode with
    | gm_ai => [("player1", human); ("ai", ai)]
    | gm_local_multiplayer => [("player1", human); ("player2", human)]
    | gm_ai_vs_ai => [("ai1", ai); ("ai2", ai)]
    end /\
  currentPlayer s = match mode with gm_ai_vs_ai => "ai1" | _ => "player1" end.
Proof.
  unfold initializeGame, mbind, Gen_bind, mret, Gen_ret.
  destruct (generateGameCards boardSize matchType g) as [cs g'].
  destruct mode; simpl; repeat split.
Qed.



Lemma isGameFinished_true (s : GameState) :
  isGameFinished s = true <-> Forall (fun c => isMatched c = true) (cards s).
Proof.
  unfold isGameFinished. induction (cards s) as [|c l IH]; simpl.
  - split; [constructor | reflexivity].
  - rewrite andb_true_iff, Forall_cons, IH. reflexivity.
Qed.


Lemma run_flips_reachable (allowed : Transition -> bool) (flips : list Z) :
  (forall i, allowed (T_flip i 0 0) = true) ->
  forall s s', reachable allowed s -> run_flips s flips = Some s' ->
               reachable allowed s'.
Proof.
  intros Hal. unfold run_flips.
  induction flips as [|i flips IH]; intros s s' Hr H; simpl in H.
  - now injection H as <-.
  - destruct (handleCardFlip s i 0 0) as [s1|] eqn:E.
    + apply (IH s1 s'); [|exact H].
      apply (reachable_step allowed (T_flip i 0 0) s s1); auto.
    + exfalso. clear -H. induction flips; simpl in H; [discriminate | auto].
Qed.

Lemma fresh_ai_game_reachable (allowed : Transition -> bool) :
  reachable allowed fresh_ai_game.
Proof.
  unfold fresh_ai_game.
  exact (reachable_init allowed gm_ai mt_color b4x4 "P1" None (Some easy) None
                        0 0 zero_rng).
Qed.

Lemma played_out_final : run_flips fresh_ai_game all_pairs_flips = Some final_state.
Proof. vm_compute. reflexivity. Qed.

Lemma final_state_reachable (allowed : Transition -> bool) :
  (forall i, allowed (T_flip i 0 0) = true) -> reachable allowed final_state.
Proof.
  intros Hal.
  exact (run_flips_reachable allowed all_pairs_flips Hal fresh_ai_game final_state
           (fresh_ai_game_reachable allowed) played_out_final).
Qed.







(** ** The score invariant *)

Lemma map_insert_same {A B : Type} (f : A -> B) (l : list A) (i : nat) (x y : A) :
  l !! i = Some x -> f y = f x -> map f (<[i := y]> l) = map f l.
Proof.
  intros Hx Hf. change (f <$> <[i := y]> l = f <$> l).
  rewrite list_fmap_insert, Hf. apply list_insert_id.
  now rewrite list_lookup_fmap, Hx.
Qed.

Lemma sum_scores_insert (l : list Player) (k : nat) (p p' : Player) :
  l !! k = Some p -> score p' = score p + 1 ->
  sum_scores (<[k := p']> l) = sum_scores l + 1.
Proof.
  revert k. induction l as [|h l IH]; intros k Hk Hs; [discriminate|].
  destruct k as [|k]; simpl in *.
  - injection Hk as ->. lia.
  - rewrite (IH k Hk Hs). lia.
Qed.

Lemma sum_scores_zero (l : list Player) :
  Forall (fun n => n = 0) (map score l) -> sum_scores l = 0.
Proof.
  induction l as [|h l IH]; simpl; intros H; [reflexivity|].
  apply Forall_cons in H. destruct H as [-> H]. now rewrite IH.
Qed.

Lemma count_matched_fresh (l : list Card) : Forall fresh l -> count_matched l = 0.
Proof.
  unfold count_matched. induction l as [|c l IH]; intros H; [reflexivity|].
  apply Forall_cons in H. destruct H as [[_ Hm] H]. simpl. rewrite Hm. now apply IH.
Qed.

Section CountMarked.
Variables card1 card2 : Card.
Hypothesis Hid1 : truthy (id card1) = true.
Hypothesis Hid2 : truthy (id card2) = true.

Lemma hit_true (c : Card) :
  hit card1 card2 c = true <-> id c = id card1 \/ id c = id card2.
Proof. unfold hit. now rewrite orb_true_iff, !String.eqb_eq. Qed.

Lemma hit_false (c : Card) :
  hit card1 card2 c = false -> id c <> id card1 /\ id c <> id card2.
Proof.
  unfold hit. intros H. apply orb_false_iff in H. destruct H as [H1 H2].
  apply String.eqb_neq in H1, H2. auto.
Qed.

Lemma count_matched_mark_matched (l : list Card) :
  count_matched (map (mark_matched card1 card2) l)
  = count_matched l
    + length (List.filter (fun c => hit card1 card2 c && negb (isMatched c)) l).
Proof.
  unfold count_matched. induction l as [|c l IH]; [reflexivity|].
  cbn [map List.filter].
  destruct (hit card1 card2 c) eqn:Hh.
  - rewrite (mark_matched_hit card1 card2 c Hid1 Hid2 (proj1 (hit_true c) Hh)).
    cbn [isMatched with_matched_flipped andb].
    destruct (isMatched c); cbn [negb length]; rewrite IH; lia.
  - destruct (hit_false c Hh) as [N1 N2].
    rewrite (mark_matched_miss card1 card2 c N1 N2). cbn [andb].
    destruct (isMatched c); cbn [length]; rewrite IH; lia.
Qed.

Lemma two_hits (l : list Card) (k i : nat) (x y : Card) :
  NoDup (map id l) ->
  l !! k = Some x -> l !! i = Some y -> k <> i ->
  id x = id card1 -> id y = id card2 ->
  isMatched x = false -> isMatched y = false ->
  length (List.filter (fun c => hit card1 card2 c && negb (isMatched c)) l) = 2.
Proof.
  intros Hnd Hk Hi Hne Hx Hy Mx My.
  set (q := fun c => hit card1 card2 c && negb (isMatched c)).
  assert (Hge : 2 <= length (List.filter q l)).
  { apply (filter_length_ge_2 q l k i x y); auto; unfold q.
    - rewrite (proj2 (hit_true x) (or_introl Hx)), Mx. reflexivity.
    - rewrite (proj2 (hit_true y) (or_intror Hy)), My. reflexivity. }
  assert (Hle : length (map id (List.filter q l)) <= length [id card1; id card2]).
  { apply submseteq_length, NoDup_submseteq.
    - now apply NoDup_map_filter.
    - intros z Hz. apply list_elem_of_In, in_map_iff in Hz.
      destruct Hz as (c & <- & Hc). apply filter_In in Hc. destruct Hc as [_ Hq].
      unfold q in Hq. apply andb_true_iff in Hq. destruct Hq as [Hh _].
      apply hit_true in Hh. apply list_elem_of_In.
      destruct Hh as [E | E]; rewrite E; simpl; auto. }
  rewrite length_map in Hle. simpl in Hle. lia.
Qed.
End CountMarked.

Lemma map_p_id_seats (s : GameState) : map p_id (players s) = map fst (seats s).
Proof. unfold seats. rewrite map_map. reflexivity. Qed.

(** A state that differs from an invariant one in the order-preserving
    way of a reset: same ids, same matched flags, nothing flipped. *)
Lemma invariant_after_reset (s s' : GameState) :
  game_invariant s ->
  map id (cards s') = map id (cards s) ->
  map isMatched (cards s') = map isMatched (cards s) ->
  flippedCards s' = [] ->
  players s' = players s ->
  matchedPairs s' = matchedPairs s ->
  gameMode s' = gameMode s ->
  In (currentPlayer s') (map p_id (players s)) ->
  game_invariant s'.
Proof.
  intros [Hids Hfl Hsc Hma Hse Hcu] Eid Ema Efl Epl Emp Egm Hin.
  constructor.
  - now rewrite Eid.
  - rewrite Efl. constructor.
  - now rewrite Epl, Emp.
  - now rewrite Emp, (count_matched_ext _ _ Ema).
  - unfold seats. now rewrite Epl, Egm.
  - now rewrite Epl.
Qed.

Lemma invariant_finish_if_done (s : GameState) :
  game_invariant s -> game_invariant (finish_if_done s).
Proof.
  intros [Hids Hfl Hsc Hma Hse Hcu]. unfold finish_if_done.
  destruct (isGameFinished s); constructor; auto.
Qed.

Lemma invariant_turned_first (s : GameState) (i : Z) (c : Card) :
  game_invariant s ->
  canFlipCard s i = true -> at_index (cards s) i = Some c ->
  flippedCards s = [] ->
  game_invariant (turned s i c).
Proof.
  intros [Hids Hfl Hsc Hma Hse Hcu] Hcan Hc Hf.
  pose proof (proj1 (canFlipCard_true_iff s i) Hcan)
    as (_ & _ & (c' & Hc' & Hid & _ & Hm) & _).
  assert (c' = c) by congruence. subst c'.
  apply at_index_Some in Hc. destruct Hc as [Hr Hk].
  unfold turned. constructor; cbn [cards flippedCards players matchedPairs
                                   gameMode currentPlayer with_cards_flipped]; auto.
  - now rewrite (map_insert_same id _ _ c).
  - rewrite Hf. cbn [app]. constructor; [|constructor].
    split; [exact Hid|]. exists (Z.to_nat i), (with_isFlipped true c).
    cbn [cards with_cards_flipped].
    rewrite list_lookup_insert_eq by lia. auto.
  - rewrite Hma. apply count_matched_ext. symmetry.
    now apply (map_insert_same isMatched _ _ c).
Qed.

Lemma getNextPlayer_In (s : GameState) (n : string) :
  getNextPlayer s = Some n -> In n (map p_id (players s)).
Proof.
  unfold getNextPlayer. destruct (players s) as [|p ps] eqn:Hp; [discriminate|].
  destruct (at_index (p :: ps) _) as [q|] eqn:Hq; [|discriminate].
  intros H. cbn [fmap option_fmap option_map] in H. injection H as <-.
  apply at_index_Some in Hq. destruct Hq as [_ Hq].
  apply in_map. apply list_elem_of_In. eapply list_elem_of_lookup_2. exact Hq.
Qed.

Lemma invariant_resolved (s : GameState) (i now_move now_turn : Z) (c c1 : Card)
    (newCurrent : string) :
  game_invariant s ->
  canFlipCard s i = true -> at_index (cards s) i = Some c ->
  flippedCards s = [c1] ->
  next_current s c1 c = Some newCurrent ->
  game_invariant (resolved (turned s i c) c1 (with_isFlipped true c)
                           (cardsMatch c1 c (matchType s)) newCurrent
                           now_move now_turn).
Proof.
  intros [Hids Hfl Hsc Hma Hse Hcu] Hcan Hc Hf Hn.
  pose proof (proj1 (canFlipCard_true_iff s i) Hcan)
    as (_ & _ & (c' & Hc' & Hid & Hfc & Hm) & _).
  assert (c' = c) by congruence. subst c'.
  apply at_index_Some in Hc. destruct Hc as [Hr Hk].
  rewrite Hf in Hfl. apply Forall_cons in Hfl.
  destruct Hfl as [[Hid1 (k & ck & Hck & Hidk & Hfk & Hmk)] _].
  assert (Hki : k <> Z.to_nat i) by (intros ->; congruence).
  assert (Hlen : Z.to_nat i < length (cards s)) by lia.
  set (cf := with_isFlipped true c).
  set (cards1 := <[Z.to_nat i := cf]> (cards s)).
  assert (Hids1 : map id cards1 = map id (cards s))
    by (apply (map_insert_same id _ _ c); auto).
  assert (Hck1 : cards1 !! k = Some ck)
    by (unfold cards1; rewrite list_lookup_insert_ne; auto).
  assert (Hci1 : cards1 !! Z.to_nat i = Some cf)
    by (unfold cards1; now rewrite list_lookup_insert_eq).
  unfold resolved, next_current in *.
  change (current_index (turned s i c)) with (current_index s).
  destruct (cardsMatch c1 c (matchType s)) eqn:Hmatch.
  - (* a match *)
    injection Hn as <-.
    assert (Hex : exists kp : nat,
               findIndex (fun p => String.eqb (p_id p) (currentPlayer s)) (players s)
               = Z.of_nat kp).
    { apply in_map_iff in Hcu. destruct Hcu as (p0 & Hp0 & Hin0).
      apply (findIndex_exists _ _ p0 Hin0). now apply String.eqb_eq. }
    destruct Hex as [kp Hkp].
    destruct (findIndex_found _ _ _ Hkp) as (p & Hp & _).
    cbn [turned cards flippedCards players matchedPairs gameMode
         currentPlayer with_cards_flipped].
    unfold current_index. rewrite Hkp, at_index_of_nat, Hp, Nat2Z.id.
    destruct (Z.eqb_spec (Z.of_nat kp) (-1)); [lia|].
    cbn [andb negb].
    fold cf. fold cards1.
    constructor; cbn [cards flippedCards players matchedPairs gameMode currentPlayer].
    + rewrite map_map.
      rewrite (map_ext _ id (fun x => id_mark_matched c1 cf x)). now rewrite Hids1.
    + constructor.
    + rewrite (sum_scores_insert _ _ p) by auto.
      rewrite length_app. simpl. lia.
    + rewrite length_app. cbn [length].
      rewrite (count_matched_mark_matched c1 cf Hid1 Hid).
      rewrite (two_hits c1 cf cards1 k (Z.to_nat i) ck cf); auto.
      * rewrite <- (count_matched_ext (cards s) cards1); [lia|].
        symmetry. apply (map_insert_same isMatched _ _ c); auto.
      * now rewrite Hids1.
    + unfold seats in *. cbn [players gameMode].
      now rewrite (map_insert_same _ _ _ p).
    + now rewrite (map_insert_same p_id _ _ p).
  - (* a mismatch *)
    cbn [andb turned cards flippedCards players matchedPairs gameMode
         currentPlayer with_cards_flipped].
    fold cf. fold cards1. rewrite Hf. cbn [app].
    constructor; cbn [cards flippedCards players matchedPairs gameMode currentPlayer];
      auto.
    + now rewrite Hids1.
    + constructor; [|constructor; [|constructor]].
      * split; [exact Hid1|]. exists k, ck. auto.
      * split; [exact Hid|]. exists (Z.to_nat i), cf. auto.
    + rewrite Hma. apply count_matched_ext. symmetry.
      apply (map_insert_same isMatched _ _ c); auto.
    + destruct (bool_decide (gameMode s = gm_ai_vs_ai)).
      * now injection Hn as <-.
      * now apply getNextPlayer_In.
Qed.

Lemma handleCardFlip_invariant (s s' : GameState) (i now_move now_turn : Z) :
  game_invariant s -> handleCardFlip s i now_move now_turn = Some s' ->
  game_invariant s'.
Proof.
  intros Hinv H. apply handleCardFlip_shape in H.
  destruct H as [Hcan -> | c Hcan Hc Hf -> | c c1 Hcan Hc Hf Hid -> |
                 c c1 newCurrent Hcan Hc Hf Hid Hn ->].
  - exact Hinv.
  - now apply invariant_turned_first.
  - exfalso. pose proof (inv_flipped s Hinv) as Hfl. rewrite Hf in Hfl.
    apply Forall_cons in Hfl. destruct Hfl as [[Hid1 _] _]. congruence.
  - apply invariant_finish_if_done. now apply invariant_resolved.
Qed.

Lemma id_reset_card (c : Card) : id (reset_card c) = id c.
Proof.
  unfold reset_card. destruct (negb (truthy (id c))); [reflexivity|].
  destruct (isMatched c); [reflexivity|].
  destruct (isFlipped c && negb false); reflexivity.
Qed.

Lemma map_id_reset_card (l : list Card) : map id (map reset_card l) = map id l.
Proof. rewrite map_map. apply map_ext, id_reset_card. Qed.

Lemma map_id_resetFlippedCards (l : list Card) :
  map id (resetFlippedCards l) = map id l.
Proof.
  unfold resetFlippedCards. rewrite map_map. apply map_ext. intros c.
  destruct (isFlipped c && negb (isMatched c)); reflexivity.
Qed.

(** The player the AI's mismatch reset hands the turn to is seated. *)
Lemma aiMismatchReset_current (s : GameState) :
  seats s = seats_of (gameMode s) ->
  In (currentPlayer (aiMismatchReset s)) (map p_id (players s)).
Proof.
  intros Hse. rewrite map_p_id_seats, Hse.
  unfold aiMismatchReset. cbn [currentPlayer].
  unfold seats in Hse.
  destruct (gameMode s) eqn:Hm; cbn [bool_decide decide_rel seats_of map fst].
  - rewrite bool_decide_eq_false_2 by discriminate.
    destruct (players s) as [|a [|b [|? ?]]]; try discriminate.
    cbn [map seats_of] in Hse. injection Hse as Ha Ht _ _.
    cbn [List.find]. rewrite Ht.
    rewrite bool_decide_eq_true_2 by reflexivity.
    cbn [fmap option_fmap option_map string_or]. rewrite Ha. simpl. auto.
  - rewrite bool_decide_eq_false_2 by discriminate.
    destruct (players s) as [|a [|b [|? ?]]]; try discriminate.
    cbn [map seats_of] in Hse. injection Hse as Ha Ht _ _.
    cbn [List.find]. rewrite Ht.
    rewrite bool_decide_eq_true_2 by reflexivity.
    cbn [fmap option_fmap option_map string_or]. rewrite Ha. simpl. auto.
  - rewrite bool_decide_eq_true_2 by reflexivity.
    destruct (String.eqb (currentPlayer s) "ai1"); simpl; auto.
Qed.

Lemma transition_invariant (t : Transition) (s s' : GameState) :
  is_pause t = false -> game_invariant s -> transition t s = Some s' ->
  game_invariant s'.
Proof.
  intros Hp Hinv H. destruct t; simpl in *; try discriminate.
  - eapply handleCardFlip_invariant; eauto.
  - injection H as <-.
    apply (invariant_after_reset s); auto; cbn [cards with_cards_flipped
      resetFlippedCardsWithDelay]; auto using map_id_resetFlippedCards,
      map_isMatched_resetFlippedCards.
    exact (inv_current s Hinv).
  - injection H as <-.
    apply (invariant_after_reset s); auto; cbn [cards with_cards_flipped
      humanMismatchReset]; auto using map_id_reset_card, map_isMatched_reset_card.
    exact (inv_current s Hinv).
  - injection H as <-.
    apply (invariant_after_reset s); auto;
      try (cbn [cards aiMismatchReset];
           auto using map_id_reset_card, map_isMatched_reset_card).
    apply aiMismatchReset_current. exact (inv_seats s Hinv).
Qed.

Lemma initializeGame_invariant mode matchType boardSize player1Name
    player2Name aiDifficulty ai2Difficulty now_turn now_game (g : Rng) :
  game_invariant (fst (initializeGame mode matchType boardSize player1Name
                                      player2Name aiDifficulty ai2Difficulty
                                      now_turn now_game g)).
Proof.
  destruct (initializeGame_fields mode matchType boardSize player1Name
              player2Name aiDifficulty ai2Difficulty now_turn now_game g)
    as (Hc & Hf & Hmp & _ & Hgm & Hsc & Hse & Hcu).
  destruct (generateGameCards_ids boardSize matchType g) as [Hnd Hfresh].
  constructor.
  - now rewrite Hc.
  - rewrite Hf. constructor.
  - rewrite Hmp. apply sum_scores_zero. rewrite Hsc. repeat constructor.
  - rewrite Hmp, Hc, (count_matched_fresh _ Hfresh). reflexivity.
  - unfold seats. now rewrite Hgm.
  - rewrite map_p_id_seats. unfold seats. rewrite Hse, Hcu.
    destruct mode; simpl; auto.
Qed.

Lemma reachable_play_invariant (s : GameState) :
  reachable play s -> game_invariant s.
Proof.
  induction 1 as [| t s s' Hr IH Hal Ht].
  - apply initializeGame_invariant.
  - apply (transition_invariant t s s'); auto.
    unfold play in Hal. now apply negb_true_iff in Hal.
Qed.

(** C6: for every state reachable from [initializeGame] via any sequence
    of [handleCardFlip] and mismatch-reset transitions, the sum of all
    players' scores equals matchedPairs.length, and twice that sum equals
    the number of cards with isMatched = true. *)
Theorem scores_count_matched_pairs (s : GameState) :
  reachable play s ->
  sum_scores (players s) = length (matchedPairs s) /\
  2 * sum_scores (players s) = count_matched (cards s).
Proof.
  intros Hr. destruct (reachable_play_invariant s Hr) as [_ _ Hsc Hma _ _].
  split; [exact Hsc | now rewrite Hsc].
Qed.

(** C6 at the end of the played-out game: eight pairs, sixteen matched
    cards. *)
Lemma scores_count_matched_pairs_witness :
  sum_scores (players final_state) = length (matchedPairs final_state) /\
  2 * sum_scores (players final_state) = count_matched (cards final_state).
Proof.
  apply (scores_count_matched_pairs final_state).
  apply final_state_reachable. reflexivity.
Defined.

(** ** Matched cards lie face up *)











(* ===================================================================== *)
(** * Further properties of the code *)
(* ===================================================================== *)

(** ** cardUtils.ts: the shuffle *)

Lemma shuffle_loop_draws {A : Type} (i : nat) :
  forall (a : list A) (g : Rng) (k : nat), snd (shuffle_loop i a g) k = g (i + k).
Proof.
  induction i as [|i IH]; intros a g k; [reflexivity|].
  cbn [shuffle_loop]. unfold mbind, Gen_bind.
  destruct (random_below (S (S i)) g) as [j g'] eqn:Hj.
  rewrite IH.
  unfold random_below, random, mbind, Gen_bind, mret, Gen_ret in Hj.
  injection Hj as _ <-. reflexivity.
Qed.

(** [shuffleArray] returns its input in some order, whatever the draws,
    and consumes one draw per element but the first: an empty array and an
    array of one element are returned as they are, without a draw. *)
Theorem shuffleArray_permutes {A : Type} (array : list A) (g : Rng) :
  Permutation (fst (shuffleArray array g)) array /\
  length (fst (shuffleArray array g)) = length array /\
  (forall k : nat, snd (shuffleArray array g) k = g (length array - 1 + k)) /\
  (length array <= 1 -> fst (shuffleArray array g) = array).
Proof.
  pose proof (shuffle_loop_Permutation (length array - 1) array g) as Hp.
  split; [exact Hp|]. split; [exact (Permutation_length Hp)|].
  split; [intros k; apply shuffle_loop_draws|].
  intros Hle. unfold shuffleArray.
  replace (length array - 1) with 0 by lia. reflexivity.
Qed.

Lemma shuffleArray_permutes_witness :
  fst (shuffleArray [1; 2; 3] zero_rng) = [2; 3; 1] /\
  Permutation (fst (shuffleArray [1; 2; 3] zero_rng)) [1; 2; 3] /\
  fst (shuffleArray [7] zero_rng) = [7].
Proof.
  split; [reflexivity|].
  destruct (shuffleArray_permutes [1; 2; 3] zero_rng) as (Hp & _).
  split; [exact Hp|].
  destruct (shuffleArray_permutes [7] zero_rng) as (_ & _ & _ & H1).
  apply H1. simpl. lia.
Defined.

(** ** cardUtils.ts: the deck *)

Lemma generateMatchingCard_color (b : BaseCard) (matchType : MatchType) (g : Rng) :
  b_color b = getCardColor (b_suit b) ->
  b_color (fst (generateMatchingCard b matchType g))
  = getCardColor (b_suit (fst (generateMatchingCard b matchType g))).
Proof.
  intros Hb. destruct matchType.
  - pose proof (generateMatchingCard_partner b mt_color g) as (Hc & _ & Hs).
    congruence.
  - unfold generateMatchingCard, mbind, Gen_bind, mret, Gen_ret.
    destruct (pick_or _ hearts g) as [newSuit g']. reflexivity.
  - unfold generateMatchingCard, mbind, Gen_bind, mret, Gen_ret.
    destruct (pick_or _ rA g) as [newRank g']. exact Hb.
Qed.

Lemma generate_pairs_colors (matchType : MatchType) (n : nat) :
  forall (i : nat) (acc : list Card) (g : Rng),
    Forall (fun c => color c = getCardColor (suit c)) acc ->
    Forall (fun c => color c = getCardColor (suit c))
           (fst (generate_pairs n i matchType acc g)).
Proof.
  induction n as [|n IH]; intros i acc g Hacc; [exact Hacc|].
  cbn [generate_pairs]. unfold mbind, Gen_bind.
  pose proof (generateMatchingCard_color (generateBaseCard i matchType) matchType g
                eq_refl) as Hpair.
  destruct (generateMatchingCard (generateBaseCard i matchType) matchType g)
    as [pair g1].
  apply IH. apply Forall_app. split; [apply Forall_app; split; [exact Hacc|]|].
  - constructor; [reflexivity | constructor].
  - constructor; [exact Hpair | constructor].
Qed.

Lemma truthy_card_id (n : nat) : truthy (card_id n) = true.
Proof. reflexivity. Qed.

(** The deck [generateGameCards] deals, for every board size, criterion
    and stream of draws: the ids are card-0 ... card-(total-1), each once
    and in some order; every card lies face down and unmatched, carries its
    index as position, and has the colour of its suit. *)
Theorem generateGameCards_deck (boardSize : BoardSize) (matchType : MatchType)
    (g : Rng) :
  Permutation (map id (fst (generateGameCards boardSize matchType g)))
              (map card_id (seq 0 (total boardSize))) /\
  NoDup (map id (fst (generateGameCards boardSize matchType g))) /\
  forall (k : nat) (c : Card),
    fst (generateGameCards boardSize matchType g) !! k = Some c ->
    position c = k /\ isFlipped c = false /\ isMatched c = false /\
    truthy (id c) = true /\ color c = getCardColor (suit c).
Proof.
  destruct (generateGameCards_ids boardSize matchType g) as [Hnd Hfresh].
  destruct (generateGameCards_shuffled boardSize matchType g)
    as (shuffled & g' & Hperm & E).
  destruct (generate_pairs_ids matchType (total boardSize / 2) 0 [] g')
    as [Hids _].
  fold (unshuffledCards boardSize matchType) in Hids.
  assert (Hall : Permutation (map id (fst (generateGameCards boardSize matchType g)))
                             (map card_id (seq 0 (total boardSize)))).
  { rewrite E, map_id_imap_position, (Permutation_map id Hperm), Hids.
    cbn [map app]. replace (2 * 0) with 0 by lia. now rewrite total_even. }
  split; [exact Hall|]. split; [exact Hnd|].
  intros k c Hk.
  assert (Hin : In (id c) (map card_id (seq 0 (total boardSize)))).
  { apply (Permutation_in _ Hall). apply in_map.
    apply list_elem_of_In. eapply list_elem_of_lookup_2. exact Hk. }
  apply in_map_iff in Hin. destruct Hin as (n & Hn & _).
  rewrite Forall_forall in Hfresh.
  destruct (Hfresh c (list_elem_of_lookup_2 _ _ _ Hk)) as [Hf Hm].
  rewrite E, list_lookup_imap in Hk.
  destruct (shuffled !! k) as [c0|] eqn:Hk0; [|discriminate].
  injection Hk as <-.
  repeat split; auto.
  - change (id (with_position k c0)) with (id c0) in Hn. cbn [id with_position].
    rewrite <- Hn. apply truthy_card_id.
  - cbn [color suit with_position].
    pose proof (generate_pairs_colors matchType (total boardSize / 2) 0 [] g'
                  (Forall_nil_2 _)) as Hcol.
    fold (unshuffledCards boardSize matchType) in Hcol.
    rewrite Forall_forall in Hcol. apply Hcol.
    rewrite <- Hperm. eapply list_elem_of_lookup_2. exact Hk0.
Qed.

Lemma generateGameCards_deck_witness :
  exists c : Card,
    fst (generateGameCards b4x4 mt_rank zero_rng) !! 5 = Some c /\
    position c = 5 /\ isFlipped c = false /\ isMatched c = false /\
    truthy (id c) = true /\ color c = getCardColor (suit c).
Proof.
  destruct (fst (generateGameCards b4x4 mt_rank zero_rng) !! 5) as [c|] eqn:E;
    [|vm_compute in E; discriminate].
  exists c. split; [reflexivity|].
  destruct (generateGameCards_deck b4x4 mt_rank zero_rng) as (_ & _ & H).
  exact (H 5 c E).
Defined.

(** ** cardUtils.ts: validateCardDeck *)

Lemma validate_pairs_spec (matchType : MatchType) (n : nat) :
  forall cards : list Card,
    length cards = 2 * n ->
    exists b : bool,
      validate_pairs cards matchType = Some b /\
      (b = true <->
       forall (k : nat) (c1 c2 : Card),
         cards !! (2 * k) = Some c1 -> cards !! (2 * k + 1) = Some c2 ->
         cardsMatch c1 c2 matchType = true).
Proof.
  induction n as [|n IH]; intros cards Hlen.
  - destruct cards; [|simpl in Hlen; lia].
    exists true. split; [reflexivity|]. split; [|reflexivity].
    intros _ k c1 c2 H. discriminate.
  - destruct cards as [|a [|b rest]]; simpl in Hlen; try lia.
    cbn [validate_pairs].
    destruct (cardsMatch a b matchType) eqn:Hab; cbn [negb].
    + destruct (IH rest ltac:(lia)) as (r & Hr & Hiff).
      exists r. split; [exact Hr|]. rewrite Hiff. split.
      * intros H k c1 c2 H1 H2. destruct k as [|k].
        -- cbn in H1, H2. congruence.
        -- replace (2 * S k) with (S (S (2 * k))) in H1 by lia.
           replace (2 * S k + 1) with (S (S (2 * k + 1))) in H2 by lia.
           cbn [lookup list_lookup] in H1, H2. exact (H k c1 c2 H1 H2).
      * intros H k c1 c2 H1 H2. apply (H (S k) c1 c2).
        -- replace (2 * S k) with (S (S (2 * k))) by lia. exact H1.
        -- replace (2 * S k + 1) with (S (S (2 * k + 1))) by lia. exact H2.
    + exists false. split; [reflexivity|]. split; [discriminate|].
      intros H. rewrite (H 0 a b eq_refl eq_refl) in Hab. discriminate.
Qed.

(** [validateCardDeck] never throws; it accepts a deck exactly when the
    number of cards is even and the cards at the indices 2k and 2k+1 match
    for every k (the empty deck is accepted, a deck of odd length is not).
    The deck that [generateGameCards] builds passes before it is
    shuffled. *)
Theorem validateCardDeck_spec (cards : list Card) (matchType : MatchType)
    (boardSize : BoardSize) (g : Rng) :
  (exists b : bool,
     validateCardDeck cards matchType = Some b /\
     (b = true <->
      Nat.Even (length cards) /\
      forall (k : nat) (c1 c2 : Card),
        cards !! (2 * k) = Some c1 -> cards !! (2 * k + 1) = Some c2 ->
        cardsMatch c1 c2 matchType = true)) /\
  validateCardDeck (fst (unshuffledCards boardSize matchType g)) matchType
  = Some true.
Proof.
  assert (Hgen : forall l : list Card,
             exists b : bool,
               validateCardDeck l matchType = Some b /\
               (b = true <->
                Nat.Even (length l) /\
                forall (k : nat) (c1 c2 : Card),
                  l !! (2 * k) = Some c1 -> l !! (2 * k + 1) = Some c2 ->
                  cardsMatch c1 c2 matchType = true)).
  { intros l. unfold validateCardDeck.
    destruct (Nat.eqb_spec (length l mod 2) 0) as [He | Ho]; cbn [negb].
    - assert (Hl : length l = 2 * (length l / 2)).
      { pose proof (Nat.div_mod_eq (length l) 2). lia. }
      destruct (validate_pairs_spec matchType (length l / 2) l Hl) as (b & Hb & Hiff).
      exists b. split; [exact Hb|]. rewrite Hiff. split; [|tauto].
      intros H. split; [|exact H]. exists (length l / 2). exact Hl.
    - exists false. split; [reflexivity|]. split; [discriminate|].
      intros [[m Hm] _]. exfalso. apply Ho. rewrite Hm.
      rewrite Nat.mul_comm. apply Nat.Div0.mod_mul. }
  split; [apply Hgen|].
  destruct (Hgen (fst (unshuffledCards boardSize matchType g))) as (b & Hb & Hiff).
  rewrite Hb. f_equal. apply Hiff.
  destruct (unshuffledCards_spec boardSize matchType g) as [Hlen Hk].
  split.
  - exists (total boardSize / 2). rewrite Hlen. symmetry. apply total_even.
  - intros k c1 c2 H1 H2.
    assert (Hlt : k < total boardSize / 2).
    { apply lookup_lt_Some in H2. rewrite Hlen in H2.
      pose proof (total_even boardSize). lia. }
    destruct (Hk k Hlt) as (g' & E1 & E2).
    rewrite E1 in H1. rewrite E2 in H2. injection H1 as <-. injection H2 as <-.
    apply partner_cardsMatch, generateMatchingCard_partner.
Qed.

Lemma validateCardDeck_spec_witness :
  validateCardDeck two_cards mt_color = Some true /\
  validateCardDeck two_cards mt_suit = Some false /\
  validateCardDeck [blank_card] mt_color = Some false /\
  validateCardDeck (fst (unshuffledCards b4x4 mt_suit zero_rng)) mt_suit = Some true.
Proof.
  split; [reflexivity|]. split; [reflexivity|]. split; [reflexivity|].
  exact (proj2 (validateCardDeck_spec two_cards mt_suit b4x4 zero_rng)).
Defined.

(** ** The mismatch resets *)

Lemma with_isFlipped_same (c : Card) : with_isFlipped (isFlipped c) c = c.
Proof. now destruct c. Qed.

Lemma resetFlippedCards_card (c : Card) :
  (if isFlipped c && negb (isMatched c) then with_isFlipped false c else c)
  = with_isFlipped (isFlipped c && isMatched c) c.
Proof.
  destruct (isFlipped c) eqn:F, (isMatched c) eqn:M; cbn [andb negb];
    try reflexivity; now rewrite <- ?F, with_isFlipped_same.
Qed.

Lemma reset_card_with_id (c : Card) :
  truthy (id c) = true ->
  reset_card c
  = (if isFlipped c && negb (isMatched c) then with_isFlipped false c else c).
Proof.
  intros Hid. unfold reset_card. rewrite Hid. cbn [negb].
  destruct (isMatched c); [|reflexivity]. now rewrite andb_false_r.
Qed.

(** [resetFlippedCards] turns face down exactly the cards that are face up
    and unmatched, and changes nothing else: afterwards a card is face up
    if and only if it was face up and matched. Resetting twice is resetting
    once. *)
Theorem resetFlippedCards_spec (cards : list Card) :
  length (resetFlippedCards cards) = length cards /\
  (forall (k : nat) (c : Card),
     cards !! k = Some c ->
     resetFlippedCards cards !! k
     = Some (with_isFlipped (isFlipped c && isMatched c) c)) /\
  resetFlippedCards (resetFlippedCards cards) = resetFlippedCards cards /\
  Forall (fun c => isFlipped c = true -> isMatched c = true)
         (resetFlippedCards cards).
Proof.
  assert (E : resetFlippedCards cards
              = map (fun c => with_isFlipped (isFlipped c && isMatched c) c) cards).
  { unfold resetFlippedCards. apply map_ext, resetFlippedCards_card. }
  split; [unfold resetFlippedCards; apply length_map|].
  split.
  { intros k c Hk. rewrite E.
    change (map ?f cards) with (f <$> cards).
    now rewrite list_lookup_fmap, Hk. }
  split.
  { unfold resetFlippedCards at 1. rewrite E, map_map. apply map_ext. intros c.
    cbn [isFlipped isMatched with_isFlipped].
    destruct (isFlipped c), (isMatched c); reflexivity. }
  rewrite E. apply Forall_forall. intros c Hc.
  apply list_elem_of_In, in_map_iff in Hc. destruct Hc as (c0 & <- & _).
  cbn [isFlipped isMatched with_isFlipped]. intros H.
  apply andb_true_iff in H. tauto.
Qed.

Lemma resetFlippedCards_spec_witness :
  resetFlippedCards [flipped_heart; matched_card "card-1" 1] !! 0
  = Some (mkCard "card-0" hearts rA red 0 false false) /\
  resetFlippedCards [flipped_heart; matched_card "card-1" 1] !! 1
  = Some (matched_card "card-1" 1).
Proof.
  destruct (resetFlippedCards_spec [flipped_heart; matched_card "card-1" 1])
    as (_ & H & _).
  split.
  - exact (H 0 flipped_heart eq_refl).
  - exact (H 1 (matched_card "card-1" 1) eq_refl).
Defined.

(** The three forms of the mismatch reset agree on a board whose cards all
    carry an id: the reset of the hook after a human mismatch is the state
    [resetFlippedCardsWithDelay] resolves to, and the reset after an AI
    mismatch differs from it in the current player only. A card without an
    id is never touched by the hook's mapping. *)
Theorem mismatch_resets_agree (s : GameState) :
  Forall (fun c => truthy (id c) = true) (cards s) ->
  humanMismatchReset s = resetFlippedCardsWithDelay s /\
  cards (aiMismatchReset s) = cards (resetFlippedCardsWithDelay s) /\
  flippedCards (aiMismatchReset s) = [] /\
  players (aiMismatchReset s) = players s /\
  moveHistory (aiMismatchReset s) = moveHistory s /\
  gameStatus (aiMismatchReset s) = gameStatus s.
Proof.
  intros Hall.
  assert (E : map reset_card (cards s) = resetFlippedCards (cards s)).
  { unfold resetFlippedCards. apply map_ext_in. intros c Hc.
    apply reset_card_with_id.
    rewrite Forall_forall in Hall. apply Hall. now apply list_elem_of_In. }
  unfold humanMismatchReset, resetFlippedCardsWithDelay, aiMismatchReset.
  cbn [cards flippedCards players moveHistory gameStatus with_cards_flipped].
  rewrite E. repeat split.
Qed.

Lemma mismatch_resets_agree_witness :
  humanMismatchReset (after_first_flip flipped_heart)
  = resetFlippedCardsWithDelay (after_first_flip flipped_heart) /\
  reset_card flipped_blank = flipped_blank.
Proof.
  split; [|reflexivity].
  apply (mismatch_resets_agree (after_first_flip flipped_heart)).
  repeat constructor.
Defined.

(** ** cardUtils.ts: the base cards *)

Lemma suits_NoDup : List.NoDup suits.
Proof. repeat constructor; simpl; intuition discriminate. Qed.

Lemma ranks_NoDup : List.NoDup ranks.
Proof. repeat constructor; simpl; intuition discriminate. Qed.

(** [generateBaseCard] enumerates the 52 cards of a deck: the base cards of
    two different indices below 52 differ in suit or rank, whatever the
    criteria they are made for; index 52 starts over. No board needs more
    than 18 of them. *)
Theorem generateBaseCard_distinct (i j : nat) (matchType matchType' : MatchType) :
  i < 52 -> j < 52 ->
  generateBaseCard i matchType = generateBaseCard j matchType' ->
  i = j.
Proof.
  intros Hi Hj H.
  pose proof (f_equal b_suit H) as Hs. pose proof (f_equal b_rank H) as Hr.
  unfold generateBaseCard in Hs, Hr. cbv zeta in Hs, Hr.
  cbn [b_suit b_rank] in Hs, Hr.
  assert (L4 : length suits = 4) by reflexivity.
  assert (L13 : length ranks = 13) by reflexivity.
  apply (proj1 (List.NoDup_nth suits hearts) suits_NoDup) in Hs;
    [|apply Nat.mod_upper_bound; lia | apply Nat.mod_upper_bound; lia].
  apply (proj1 (List.NoDup_nth ranks rA) ranks_NoDup) in Hr;
    [|apply Nat.mod_upper_bound; lia | apply Nat.mod_upper_bound; lia].
  rewrite L4 in Hs, Hr. rewrite L13 in Hr.
  assert (Hqi : i / 4 < 13) by (apply Nat.Div0.div_lt_upper_bound; lia).
  assert (Hqj : j / 4 < 13) by (apply Nat.Div0.div_lt_upper_bound; lia).
  rewrite !Nat.mod_small in Hr by assumption.
  pose proof (Nat.div_mod_eq i 4). pose proof (Nat.div_mod_eq j 4). lia.
Qed.

Lemma generateBaseCard_distinct_witness :
  generateBaseCard 17 mt_color <> generateBaseCard 3 mt_suit /\
  generateBaseCard 52 mt_rank = generateBaseCard 0 mt_rank /\
  (forall boardSize : BoardSize, total boardSize / 2 <= 18).
Proof.
  split; [|split; [reflexivity | intros []; simpl; lia]].
  intros H.
  pose proof (generateBaseCard_distinct 17 3 mt_color mt_suit
                ltac:(lia) ltac:(lia) H).
  discriminate.
Defined.

(** ** gameLogic.ts: getAvailableMoves *)

Lemma imap_card_index (l : list Card) :
  imap (fun index card => (card, Z.of_nat index)) l
  = map (fun e : Z * Card => (snd e, fst e)) (indexed l).
Proof.
  apply list_eq. intros k. unfold indexed.
  change (map ?f ?x) with (f <$> x).
  rewrite list_lookup_fmap, !list_lookup_imap. now destruct (l !! k).
Qed.

Lemma getAvailableMoves_indexed (s : GameState) :
  getAvailableMoves s
  = map fst (List.filter (fun e => available (snd e)) (indexed (cards s))).
Proof.
  unfold getAvailableMoves. rewrite imap_card_index, filter_map_swap, map_map.
  reflexivity.
Qed.

Lemma StronglySorted_map_filter {A B : Type} (R : B -> B -> Prop) (f : A -> B)
    (p : A -> bool) (l : list A) :
  StronglySorted R (map f l) -> StronglySorted R (map f (List.filter p l)).
Proof.
  induction l as [|x l IH]; intros H; [constructor|].
  cbn [map] in H. apply StronglySorted_inv in H. destruct H as [Hl Hx].
  cbn [List.filter]. destruct (p x); [|auto].
  cbn [map]. constructor; [auto|].
  rewrite List.Forall_forall in *. intros y Hy. apply Hx.
  apply in_map_iff in Hy. destruct Hy as (a & <- & Ha).
  apply filter_In in Ha. apply in_map. tauto.
Qed.

Lemma StronglySorted_indices (n a : nat) :
  StronglySorted Z.lt (map Z.of_nat (seq a n)).
Proof.
  revert a. induction n as [|n IH]; intros a; [constructor|].
  cbn [seq map]. constructor; [apply IH|].
  rewrite List.Forall_forall. intros y Hy.
  apply in_map_iff in Hy. destruct Hy as (m & <- & Hm).
  apply in_seq in Hm. lia.
Qed.

(** [getAvailableMoves] lists the indices of the cards that are neither
    flipped nor matched, each once and in increasing order. Every index
    that [canFlipCard] accepts is listed; the listed indices are all
    accepted when the game is running, fewer than two cards are recorded as
    flipped and every card carries an id. *)
Theorem getAvailableMoves_spec (s : GameState) :
  (forall i : Z,
     In i (getAvailableMoves s) <->
     exists c : Card, at_index (cards s) i = Some c /\
                      isFlipped c = false /\ isMatched c = false) /\
  StronglySorted Z.lt (getAvailableMoves s) /\
  (forall i : Z, canFlipCard s i = true -> In i (getAvailableMoves s)) /\
  (gameStatus s = playing -> length (flippedCards s) < 2 ->
   Forall (fun c => truthy (id c) = true) (cards s) ->
   forall i : Z, In i (getAvailableMoves s) -> canFlipCard s i = true).
Proof.
  assert (Hin : forall i : Z,
             In i (getAvailableMoves s) <->
             exists c : Card, at_index (cards s) i = Some c /\
                              isFlipped c = false /\ isMatched c = false).
  { intros i. rewrite getAvailableMoves_indexed, in_map_iff. split.
    - intros ([k c] & Hk & Hc). cbn [fst] in Hk. subst k.
      apply filter_In in Hc. destruct Hc as [Hc Hp]. cbn [snd] in Hp.
      apply In_indexed in Hc. exists c. split; [exact Hc|].
      unfold available in Hp. apply andb_true_iff in Hp.
      rewrite !negb_true_iff in Hp. tauto.
    - intros (c & Hc & Hf & Hm). exists (i, c). split; [reflexivity|].
      apply filter_In. split; [now apply In_indexed|].
      cbn [snd]. unfold available. now rewrite Hf, Hm. }
  split; [exact Hin|]. split.
  { rewrite getAvailableMoves_indexed. apply StronglySorted_map_filter.
    rewrite map_fst_indexed. apply StronglySorted_indices. }
  split.
  - intros i Hcan. apply Hin. apply canFlipCard_true_iff in Hcan.
    destruct Hcan as (_ & _ & (c & Hc & _ & Hf & Hm) & _). eauto.
  - intros Hst Hlen Hids i Hi. apply Hin in Hi. destruct Hi as (c & Hc & Hf & Hm).
    apply canFlipCard_true_iff. split; [exact Hst|].
    split; [apply at_index_Some in Hc; tauto|].
    split; [|exact Hlen].
    exists c. split; [exact Hc|]. split; [|auto].
    rewrite Forall_forall in Hids. apply Hids.
    apply at_index_Some in Hc. destruct Hc as [_ Hc].
    eapply list_elem_of_lookup_2. exact Hc.
Qed.

Lemma getAvailableMoves_spec_witness :
  getAvailableMoves (after_first_flip flipped_heart) = [1; 2]%Z /\
  canFlipCard (after_first_flip flipped_heart) 2 = true.
Proof.
  split; [reflexivity|].
  destruct (getAvailableMoves_spec (after_first_flip flipped_heart))
    as (_ & _ & _ & H).
  apply H; [reflexivity | simpl; lia | repeat constructor | simpl; auto].
Defined.

(** The three counts of the available cards agree: the list of
    [getAvailableMoves], the filter of the hook's turn guard, and, on a
    board whose cards all carry an id, the list the AI engine works from.
    The engine's list never holds an index the game does not list. *)
Theorem available_views_agree (s : GameState) :
  length (getAvailableMoves s) = count_available (cards s) /\
  (forall i : Z, In i (findStrictlyAvailableCards (cards s)) ->
                 In i (getAvailableMoves s)) /\
  (Forall (fun c => truthy (id c) = true) (cards s) ->
   findStrictlyAvailableCards (cards s) = getAvailableMoves s).
Proof.
  rewrite getAvailableMoves_indexed. split; [|split].
  - rewrite length_map. apply length_filter_indexed.
  - intros i Hi. apply In_findStrictlyAvailableCards in Hi.
    destruct Hi as (c & Hc & Hp). apply in_map_iff. exists (i, c).
    split; [reflexivity|]. apply filter_In. split; [now apply In_indexed|].
    cbn [snd]. apply strictlyAvailable_true in Hp. unfold available.
    destruct Hp as (_ & -> & ->). reflexivity.
  - intros Hids. unfold findStrictlyAvailableCards. f_equal.
    apply filter_ext_in. intros [k c] Hk. cbn [snd].
    apply In_indexed, at_index_Some in Hk. destruct Hk as [_ Hk].
    rewrite Forall_forall in Hids.
    unfold strictlyAvailable, available.
    now rewrite (Hids c (list_elem_of_lookup_2 _ _ _ Hk)).
Qed.

Lemma available_views_agree_witness :
  findStrictlyAvailableCards two_cards = [0; 1]%Z /\
  findStrictlyAvailableCards (cards hint_game) = getAvailableMoves hint_game /\
  findStrictlyAvailableCards (cards blank_board) = [] /\
  getAvailableMoves blank_board = [0%Z].
Proof.
  split; [reflexivity|]. split; [|split; reflexivity].
  apply (available_views_agree hint_game). repeat constructor.
Defined.

(** ** gameLogic.ts: the winner *)

Lemma fold_left_max_spec (l : list nat) :
  forall a : nat,
    a <= fold_left Nat.max l a /\
    Forall (fun x => x <= fold_left Nat.max l a) l /\
    (fold_left Nat.max l a = a \/ In (fold_left Nat.max l a) l).
Proof.
  induction l as [|x l IH]; intros a; cbn [fold_left].
  - split; [lia|]. split; [constructor | now left].
  - destruct (IH (Nat.max a x)) as (Hge & Hall & Hin).
    split; [lia|]. split; [constructor; [lia | exact Hall]|].
    destruct Hin as [E | Hin]; [|right; now right].
    rewrite E. destruct (Nat.max_spec a x) as [[_ ->] | [_ ->]];
      [right; now left | now left].
Qed.

Lemma math_max_spec (xs : list nat) :
  match math_max xs with
  | None => xs = []
  | Some m => In m xs /\ Forall (fun x => x <= m) xs
  end.
Proof.
  destruct xs as [|x xs]; [reflexivity|]. cbn [math_max].
  destruct (fold_left_max_spec xs x) as (Hge & Hall & Hin).
  split.
  - destruct Hin as [-> | Hin]; [now left | now right].
  - constructor; assumption.
Qed.

Lemma In_winners (s : GameState) (p : Player) :
  In p (winners s) <->
  In p (players s) /\ forall q : Player, In q (players s) -> score q <= score p.
Proof.
  unfold winners. rewrite filter_In.
  pose proof (math_max_spec (map score (players s))) as Hm.
  destruct (math_max (map score (players s))) as [m|].
  - destruct Hm as [Hin Hall]. split.
    + intros [Hp Hd]. apply bool_decide_eq_true in Hd. injection Hd as ->.
      split; [exact Hp|]. intros q Hq.
      rewrite Forall_forall in Hall. apply Hall.
      apply list_elem_of_In. now apply in_map.
    + intros [Hp Hmax]. split; [exact Hp|]. apply bool_decide_eq_true. f_equal.
      apply in_map_iff in Hin. destruct Hin as (q & Hq & Hqin).
      specialize (Hmax q Hqin).
      rewrite Forall_forall in Hall.
      assert (score p <= m)
        by (apply Hall, list_elem_of_In; now apply in_map).
      lia.
  - apply map_eq_nil in Hm. rewrite Hm. simpl. tauto.
Qed.

(** [getGameWinner] answers null exactly when some card is unmatched. A
    single winner it returns is a player whose score no player exceeds, and
    the only one with that score; an array it returns holds every player
    of maximal score, and never exactly one. [isGameDraw] is true exactly
    when that array holds two players or more; with no player at the table
    the answer is the empty array, not null, and no draw. *)
Theorem getGameWinner_spec (s : GameState) :
  (getGameWinner s = NoWinner <-> isGameFinished s = false) /\
  (forall p : Player,
     getGameWinner s = OneWinner p ->
     winners s = [p] /\ In p (players s) /\
     forall q : Player, In q (players s) -> score q <= score p) /\
  (forall ps : list Player,
     getGameWinner s = Winners ps ->
     ps = winners s /\ length ps <> 1 /\
     forall p : Player,
       In p ps <->
       In p (players s) /\ forall q : Player, In q (players s) -> score q <= score p) /\
  (isGameDraw s = true <->
   exists ps : list Player, getGameWinner s = Winners ps /\ 2 <= length ps) /\
  (isGameFinished s = true -> players s = [] ->
   getGameWinner s = Winners [] /\ isGameDraw s = false).
Proof.
  unfold getGameWinner, isGameDraw.
  destruct (isGameFinished s) eqn:Hfin; cbn [negb].
  - split; [split; [|discriminate]|].
    { destruct (winners s) as [|w [|w' ws]]; discriminate. }
    split.
    { intros p Hp.
      destruct (winners s) as [|w [|w' ws]] eqn:Hw; try discriminate.
      injection Hp as ->. split; [reflexivity|].
      apply In_winners. rewrite Hw. now left. }
    split.
    { intros ps Hps.
      assert (E : ps = winners s /\ length ps <> 1).
      { destruct (winners s) as [|w [|w' ws]] eqn:Hw; try discriminate;
          injection Hps as <-; split; try reflexivity; simpl; lia. }
      destruct E as [-> Hlen]. split; [reflexivity|]. split; [exact Hlen|].
      intros p. apply In_winners. }
    split.
    { split.
      - intros H. apply Nat.ltb_lt in H. exists (winners s).
        destruct (winners s) as [|w [|w' ws]]; simpl in H; try lia.
        split; [reflexivity | simpl; lia].
      - intros (ps & Hps & Hlen). apply Nat.ltb_lt.
        destruct (winners s) as [|w [|w' ws]]; try discriminate;
          injection Hps as <-; simpl in *; lia. }
    intros _ Hp. unfold winners. rewrite Hp. split; reflexivity.
  - split; [tauto|]. split; [discriminate|]. split; [discriminate|].
    split; [|discriminate].
    split; [discriminate|]. intros (ps & Hps & _). discriminate.
Qed.

Lemma getGameWinner_spec_witness :
  exists p : Player,
    getGameWinner two_matched_state = OneWinner p /\ score p = 1 /\
    winners two_matched_state = [p] /\
    isGameDraw two_matched_state = false /\
    getGameWinner (without_players two_matched_state) = Winners [].
Proof.
  destruct (getGameWinner two_matched_state) as [|p|ps] eqn:E;
    [vm_compute in E; discriminate | | vm_compute in E; discriminate].
  exists p.
  destruct (getGameWinner_spec two_matched_state) as (_ & H & _).
  destruct (H p E) as (Hw & _).
  split; [reflexivity|].
  split; [vm_compute in E; injection E as <-; reflexivity|].
  split; [exact Hw|]. split; reflexivity.
Defined.

(** ** Pausing *)

Lemma canFlipCard_not_playing (s : GameState) (i : Z) :
  gameStatus s <> playing -> canFlipCard s i = false.
Proof.
  intros Hs. destruct (canFlipCard s i) eqn:E; [|reflexivity].
  apply canFlipCard_true_iff in E. tauto.
Qed.

Lemma canFlipCard_ext (s s' : GameState) (i : Z) :
  cards s' = cards s -> flippedCards s' = flippedCards s ->
  gameStatus s' = gameStatus s -> canFlipCard s' i = canFlipCard s i.
Proof. intros Hc Hf Hs. unfold canFlipCard. now rewrite Hc, Hf, Hs. Qed.

(** While a running game is paused, by [toggleGamePause] or by the hook's
    [togglePause], no card can be flipped: [canFlipCard] is false at every
    index and [handleCardFlip] returns the paused state as it is. A second
    toggle resumes the game: the same cards can be flipped as before the
    pause; [toggleGamePause] restarts the turn clock at the time of the
    resume, the hook's toggle gives back the very state it paused. *)
Theorem pause_blocks_flips (s : GameState) (now now' : Z) :
  gameStatus s = playing ->
  (forall i now_move now_turn : Z,
     canFlipCard (toggleGamePause s now) i = false /\
     handleCardFlip (toggleGamePause s now) i now_move now_turn
     = Some (toggleGamePause s now) /\
     canFlipCard (togglePause s) i = false /\
     handleCardFlip (togglePause s) i now_move now_turn = Some (togglePause s)) /\
  gameStatus (toggleGamePause s now) = paused /\
  turnStartTime (toggleGamePause s now) = turnStartTime s /\
  gameStatus (toggleGamePause (toggleGamePause s now) now') = playing /\
  turnStartTime (toggleGamePause (toggleGamePause s now) now') = Some now' /\
  (forall i : Z,
     canFlipCard (toggleGamePause (toggleGamePause s now) now') i = canFlipCard s i) /\
  togglePause (togglePause s) = s.
Proof.
  intros Hs.
  assert (P1 : gameStatus (toggleGamePause s now) = paused).
  { unfold toggleGamePause. cbn [gameStatus]. now rewrite Hs. }
  assert (P2 : gameStatus (togglePause s) = paused).
  { unfold togglePause, with_gameStatus. cbn [gameStatus]. now rewrite Hs. }
  split.
  { intros i now_move now_turn.
    assert (C1 : canFlipCard (toggleGamePause s now) i = false)
      by (apply canFlipCard_not_playing; congruence).
    assert (C2 : canFlipCard (togglePause s) i = false)
      by (apply canFlipCard_not_playing; congruence).
    repeat split; auto using handleCardFlip_rejected. }
  split; [exact P1|].
  split; [unfold toggleGamePause; cbn [turnStartTime gameStatus]; now rewrite Hs|].
  assert (P3 : gameStatus (toggleGamePause (toggleGamePause s now) now') = playing).
  { unfold toggleGamePause at 1. cbn [gameStatus]. now rewrite P1. }
  split; [exact P3|].
  split.
  { unfold toggleGamePause at 1. cbn [turnStartTime]. now rewrite P1. }
  split.
  { intros i. apply canFlipCard_ext; [reflexivity | reflexivity | congruence]. }
  unfold togglePause at 1. rewrite P2.
  unfold togglePause, with_gameStatus. destruct s. cbn in *. now rewrite Hs.
Qed.

Lemma pause_blocks_flips_witness :
  canFlipCard hint_game 0 = true /\
  canFlipCard (toggleGamePause hint_game 5) 0 = false /\
  canFlipCard (toggleGamePause (toggleGamePause hint_game 5) 9) 0 = true /\
  togglePause (togglePause hint_game) = hint_game.
Proof.
  destruct (pause_blocks_flips hint_game 5 9 eq_refl) as (H1 & _ & _ & _ & _ & H3 & H4).
  split; [reflexivity|].
  split; [exact (proj1 (H1 0%Z 0%Z 0%Z))|].
  split; [now rewrite H3 | exact H4].
Defined.

(** ** What no transition changes *)

Lemma same_face_refl (c : Card) : same_face c c.
Proof. repeat split. Qed.

Lemma same_face_trans (a b c : Card) : same_face a b -> same_face b c -> same_face a c.
Proof. unfold same_face. intuition congruence. Qed.

Lemma same_face_with_isFlipped (b : bool) (c : Card) : same_face c (with_isFlipped b c).
Proof. repeat split. Qed.

Lemma same_face_mark (card1 card2 c : Card) : same_face c (mark_matched card1 card2 c).
Proof.
  unfold mark_matched.
  destruct (negb (truthy (id c)) || negb (truthy (id card1)) || negb (truthy (id card2)));
    [apply same_face_refl|].
  destruct (String.eqb (id c) (id card1) || String.eqb (id c) (id card2));
    repeat split.
Qed.

Lemma same_face_reset_card (c : Card) : same_face c (reset_card c).
Proof.
  unfold reset_card. destruct (negb (truthy (id c))); [apply same_face_refl|].
  destruct (isMatched c); [apply same_face_refl|].
  destruct (isFlipped c && negb false); repeat split.
Qed.

Lemma same_face_resetFlipped (c : Card) :
  same_face c (if isFlipped c && negb (isMatched c) then with_isFlipped false c else c).
Proof. destruct (isFlipped c && negb (isMatched c)); repeat split. Qed.

Lemma seat_kept_refl (p : Player) : seat_kept p p.
Proof. split; [repeat split | lia]. Qed.

Lemma same_setup_refl (s : GameState) : same_setup s s.
Proof. repeat split. Qed.

Lemma handleCardFlip_same (s s' : GameState) (i now_move now_turn : Z) :
  handleCardFlip s i now_move now_turn = Some s' ->
  Forall2 same_face (cards s) (cards s') /\
  Forall2 seat_kept (players s) (players s') /\
  same_setup s s'.
Proof.
  intros H. apply handleCardFlip_shape in H.
  assert (Hins : forall c : Card,
             at_index (cards s) i = Some c ->
             Forall2 same_face (cards s)
                     (<[Z.to_nat i := with_isFlipped true c]> (cards s))).
  { intros c Hc. apply at_index_Some in Hc. destruct Hc as [_ Hk].
    apply (Forall2_insert_same _ _ _ c);
      auto using same_face_refl, same_face_with_isFlipped. }
  destruct H as [Hcan -> | c Hcan Hc Hf -> | c c1 Hcan Hc Hf Hid -> |
                 c c1 newCurrent Hcan Hc Hf Hid Hn ->].
  - split; [apply Forall2_refl, same_face_refl|].
    split; [apply Forall2_refl, seat_kept_refl | apply same_setup_refl].
  - split; [apply (Hins c Hc)|].
    split; [apply Forall2_refl, seat_kept_refl | repeat split].
  - split; [apply (Hins c Hc)|].
    split; [apply Forall2_refl, seat_kept_refl | repeat split].
  - rewrite cards_finish_if_done, players_finish_if_done.
    split; [|split].
    + unfold resolved, turned. cbn [cards with_cards_flipped].
      destruct (cardsMatch c1 c (matchType s)); [|apply (Hins c Hc)].
      eapply Forall2_trans; [apply same_face_trans | apply (Hins c Hc) |].
      apply Forall2_map_same, same_face_mark.
    + unfold resolved. cbn [players].
      change (current_index (turned s i c)) with (current_index s).
      change (players (turned s i c)) with (players s).
      destruct (cardsMatch c1 c (matchType s) && negb (current_index s =? -1)%Z);
        [|apply Forall2_refl, seat_kept_refl].
      destruct (at_index (players s) (current_index s)) as [p|] eqn:Hp;
        [|apply Forall2_refl, seat_kept_refl].
      apply at_index_Some in Hp. destruct Hp as [_ Hp].
      apply (Forall2_insert_same _ _ _ p); auto using seat_kept_refl.
      split; [repeat split|]. cbn [score add_match]. lia.
    + unfold finish_if_done.
      destruct (isGameFinished _); repeat split.
Qed.

Lemma transition_same (t : Transition) (s s' : GameState) :
  transition t s = Some s' ->
  Forall2 same_face (cards s) (cards s') /\
  Forall2 seat_kept (players s) (players s') /\
  same_setup s s'.
Proof.
  destruct t; cbn [transition]; intros H.
  - eapply handleCardFlip_same; eauto.
  - injection H as <-. split; [|split; [apply Forall2_refl, seat_kept_refl
                                        | repeat split]].
    cbn [cards resetFlippedCardsWithDelay with_cards_flipped].
    unfold resetFlippedCards. apply Forall2_map_same, same_face_resetFlipped.
  - injection H as <-. split; [|split; [apply Forall2_refl, seat_kept_refl
                                        | repeat split]].
    cbn [cards humanMismatchReset with_cards_flipped].
    apply Forall2_map_same, same_face_reset_card.
  - injection H as <-. split; [|split; [apply Forall2_refl, seat_kept_refl
                                        | repeat split]].
    cbn [cards aiMismatchReset].
    apply Forall2_map_same, same_face_reset_card.
  - injection H as <-. split; [apply Forall2_refl, same_face_refl|].
    split; [apply Forall2_refl, seat_kept_refl | repeat split].
  - injection H as <-. split; [apply Forall2_refl, same_face_refl|].
    split; [apply Forall2_refl, seat_kept_refl | repeat split].
Qed.

(** No transition (a flip, any of the three mismatch resets, either pause
    toggle) adds, removes or moves a card or a player, or changes the id,
    suit, rank, colour or position of a card, or the id, name, type,
    [isCurrentPlayer] flag or difficulty of a player, or the mode, the
    criterion, the board size, the settings or the start time of the game;
    and no score ever goes down. Only the two flags of a card, the score
    and matches of a player, and the turn data change. *)
Theorem transition_changes_flags_only (t : Transition) (s s' : GameState) :
  transition t s = Some s' ->
  length (cards s') = length (cards s) /\
  (forall (k : nat) (c : Card),
     cards s !! k = Some c ->
     exists c' : Card, cards s' !! k = Some c' /\ same_face c c') /\
  length (players s') = length (players s) /\
  (forall (k : nat) (p : Player),
     players s !! k = Some p ->
     exists p' : Player,
       players s' !! k = Some p' /\ same_seat p p' /\ score p <= score p') /\
  same_setup s s'.
Proof.
  intros H. destruct (transition_same t s s' H) as (Hc & Hp & Hs).
  split; [symmetry; exact (Forall2_length _ _ _ Hc)|].
  split.
  { intros k c Hk. destruct (Forall2_lookup_l _ _ _ _ _ Hc Hk) as (c' & Hk' & Hf).
    eauto. }
  split; [symmetry; exact (Forall2_length _ _ _ Hp)|].
  split; [|exact Hs].
  intros k p Hk. destruct (Forall2_lookup_l _ _ _ _ _ Hp Hk) as (p' & Hk' & Hf & Hsc).
  eauto.
Qed.

Lemma transition_changes_flags_only_witness :
  exists c' : Card,
    cards (aiMismatchReset (after_first_flip flipped_heart)) !! 0 = Some c' /\
    same_face flipped_heart c' /\
    currentPlayer (aiMismatchReset (after_first_flip flipped_heart)) = "player1".
Proof.
  destruct (transition_changes_flags_only T_reset_ai (after_first_flip flipped_heart)
              (aiMismatchReset (after_first_flip flipped_heart)) eq_refl)
    as (_ & H & _).
  destruct (H 0 flipped_heart eq_refl) as (c' & Hk & Hf).
  exists c'. repeat split; try exact Hk; apply Hf.
Defined.

(** ** The states of a game, pauses included *)

Lemma pause_keeps_invariant (s s' : GameState) :
  game_invariant s ->
  cards s' = cards s -> flippedCards s' = flippedCards s ->
  players s' = players s -> matchedPairs s' = matchedPairs s ->
  gameMode s' = gameMode s -> currentPlayer s' = currentPlayer s ->
  game_invariant s'.
Proof.
  intros [Hids Hfl Hsc Hma Hse Hcu] Ec Ef Ep Em Eg Ecu.
  constructor.
  - now rewrite Ec.
  - rewrite Ef. eapply Forall_impl; [exact Hfl|].
    intros f [Hid (k & c & Hk & H)]. split; [exact Hid|].
    exists k, c. now rewrite Ec.
  - now rewrite Ep, Em.
  - now rewrite Em, Ec.
  - unfold seats. now rewrite Ep, Eg.
  - now rewrite Ecu, Ep.
Qed.

Lemma transition_invariant_any (t : Transition) (s s' : GameState) :
  game_invariant s -> transition t s = Some s' -> game_invariant s'.
Proof.
  intros Hinv H. destruct (is_pause t) eqn:Hp.
  - destruct t; try discriminate; injection H as <-;
      apply (pause_keeps_invariant s); auto.
  - exact (transition_invariant t s s' Hp Hinv H).
Qed.

Lemma reachable_invariant (s : GameState) : reachable any s -> game_invariant s.
Proof.
  induction 1 as [| t s s' Hr IH Hal Ht].
  - apply initializeGame_invariant.
  - exact (transition_invariant_any t s s' IH Ht).
Qed.

Lemma reachable_play_any (s : GameState) : reachable play s -> reachable any s.
Proof.
  induction 1 as [| t s s' Hr IH Hal Ht]; [constructor|].
  now apply (reachable_step any t s s').
Qed.

Lemma lookup_same_face (l l' : list Card) (k : nat) (c' : Card) :
  Forall2 same_face l l' -> l' !! k = Some c' ->
  exists c : Card, l !! k = Some c /\ same_face c c'.
Proof.
  intros H Hk. destruct (Forall2_lookup_r _ _ _ _ _ H Hk) as (c & Hc & Hf). eauto.
Qed.

Lemma Forall_same_face (P : Card -> Prop) (l l' : list Card) :
  (forall c c' : Card, same_face c c' -> P c -> P c') ->
  Forall2 same_face l l' -> Forall P l -> Forall P l'.
Proof.
  intros HP H. induction H as [|c c' l l' Hf _ IH]; intros Hl; [constructor|].
  apply Forall_cons in Hl. destruct Hl as [Hc Hl].
  constructor; [exact (HP c c' Hf Hc) | auto].
Qed.

Lemma NoDup_ids_lookup (l : list Card) (k i : nat) (x y : Card) :
  NoDup (map id l) -> l !! k = Some x -> l !! i = Some y -> id x = id y -> k = i.
Proof.
  intros Hnd Hk Hi E.
  apply (NoDup_lookup (map id l) k i (id x) Hnd).
  - change (map id l) with (id <$> l). now rewrite list_lookup_fmap, Hk.
  - change (map id l) with (id <$> l). now rewrite list_lookup_fmap, Hi, E.
Qed.

(** The two cards of a turn are different cards. *)
Lemma second_card_differs (s : GameState) (i : Z) (c c1 : Card) :
  game_invariant s -> canFlipCard s i = true -> at_index (cards s) i = Some c ->
  flippedCards s = [c1] -> id c1 <> id c.
Proof.
  intros Hinv Hcan Hc Hf E.
  pose proof (inv_flipped s Hinv) as Hfl. rewrite Hf in Hfl.
  apply Forall_cons in Hfl. destruct Hfl as [[_ (k & ck & Hk & Hidk & Hfk & _)] _].
  apply canFlipCard_true_iff in Hcan.
  destruct Hcan as (_ & _ & (c' & Hc' & _ & Hfc & _) & _).
  assert (c' = c) by congruence. subst c'.
  apply at_index_Some in Hc. destruct Hc as [_ Hc].
  pose proof (inv_ids s Hinv) as Hnd.
  assert (k = Z.to_nat i)
    by (apply (NoDup_ids_lookup (cards s) k (Z.to_nat i) ck c Hnd Hk Hc); congruence).
  subst k. rewrite Hk in Hc. injection Hc as ->. congruence.
Qed.

Lemma handleCardFlip_table (s s' : GameState) (i now_move now_turn : Z) :
  game_invariant s -> table_invariant s ->
  handleCardFlip s i now_move now_turn = Some s' ->
  length (flippedCards s') <= 2 /\
  NoDup (map id (flippedCards s')) /\
  (forall c1 c2 : Card,
     flippedCards s' = [c1; c2] -> cardsMatch c1 c2 (matchType s') = false).
Proof.
  intros Hinv Htab H. apply handleCardFlip_shape in H.
  destruct H as [Hcan -> | c Hcan Hc Hf -> | c c1 Hcan Hc Hf Hid -> |
                 c c1 newCurrent Hcan Hc Hf Hid Hn ->].
  - destruct Htab. auto.
  - unfold turned. cbn [flippedCards with_cards_flipped]. rewrite Hf. cbn [app].
    split; [simpl; lia|]. split; [apply NoDup_singleton|].
    intros a b E. discriminate.
  - exfalso. pose proof (inv_flipped s Hinv) as Hfl. rewrite Hf in Hfl.
    apply Forall_cons in Hfl. destruct Hfl as [[Hid1 _] _]. congruence.
  - rewrite flippedCards_finish_if_done.
    assert (Em : matchType (finish_if_done
                   (resolved (turned s i c) c1 (with_isFlipped true c)
                             (cardsMatch c1 c (matchType s)) newCurrent
                             now_move now_turn)) = matchType s).
    { unfold finish_if_done. now destruct (isGameFinished _). }
    rewrite Em. unfold resolved, turned. cbn [flippedCards with_cards_flipped].
    destruct (cardsMatch c1 c (matchType s)) eqn:Hm.
    + split; [simpl; lia|]. split; [constructor|]. intros a b E. discriminate.
    + rewrite Hf. cbn [app].
      split; [simpl; lia|]. split.
      * cbn [map id with_isFlipped].
        pose proof (second_card_differs s i c c1 Hinv Hcan Hc Hf) as Hne.
        apply NoDup_cons. split; [|apply NoDup_singleton].
        intros Hin. apply list_elem_of_In in Hin. destruct Hin as [E | []].
        congruence.
      * intros a b E. injection E as <- <-.
        now rewrite cardsMatch_with_isFlipped.
Qed.

Lemma transition_table (t : Transition) (s s' : GameState) :
  game_invariant s -> table_invariant s -> transition t s = Some s' ->
  table_invariant s'.
Proof.
  intros Hinv Htab H.
  destruct (transition_same t s s' H) as (Hc & _ & (_ & Emt & Ebs & _)).
  assert (Hflipped : length (flippedCards s') <= 2 /\
                     NoDup (map id (flippedCards s')) /\
                     (forall c1 c2 : Card,
                        flippedCards s' = [c1; c2] ->
                        cardsMatch c1 c2 (matchType s') = false)).
  { destruct t; cbn [transition] in H.
    - eapply handleCardFlip_table; eauto.
    - injection H as <-. cbn. split; [lia|]. split; [constructor | discriminate].
    - injection H as <-. cbn. split; [lia|]. split; [constructor | discriminate].
    - injection H as <-. cbn. split; [lia|]. split; [constructor | discriminate].
    - injection H as <-. destruct Htab. cbn [flippedCards matchType toggleGamePause].
      auto.
    - injection H as <-. destruct Htab.
      cbn [flippedCards matchType togglePause with_gameStatus]. auto. }
  destruct Hflipped as (F1 & F2 & F3).
  destruct Htab as [Tl Ti Tp Tc _ _ _].
  constructor; auto.
  - rewrite Ebs, <- Tl. symmetry. exact (Forall2_length _ _ _ Hc).
  - refine (Forall_same_face _ _ _ _ Hc Ti).
    intros c c' (E & _) Hq. cbn beta in *. congruence.
  - intros k c' Hk. destruct (lookup_same_face _ _ _ _ Hc Hk) as (c & Hck & Hf).
    destruct Hf as (_ & _ & _ & _ & Ep). rewrite Ep. exact (Tp k c Hck).
  - refine (Forall_same_face _ _ _ _ Hc Tc).
    intros c c' (_ & Es & _ & Ecol & _) Hq. cbn beta in *. congruence.
Qed.

Lemma initializeGame_table mode criterion board player1Name player2Name
    aiDifficulty ai2Difficulty now_turn now_game (g : Rng) :
  table_invariant (fst (initializeGame mode criterion board player1Name
                                       player2Name aiDifficulty ai2Difficulty
                                       now_turn now_game g)).
Proof.
  destruct (initializeGame_fields mode criterion board player1Name
              player2Name aiDifficulty ai2Difficulty now_turn now_game g)
    as (Hc & Hf & _).
  assert (Hb : boardSize (fst (initializeGame mode criterion board player1Name
                                 player2Name aiDifficulty ai2Difficulty now_turn
                                 now_game g)) = board).
  { unfold initializeGame, mbind, Gen_bind, mret, Gen_ret.
    now destruct (generateGameCards board criterion g). }
  destruct (generateGameCards_deck board criterion g) as (_ & _ & Hd).
  constructor; rewrite ?Hc, ?Hf, ?Hb.
  - apply generateGameCards_length.
  - apply Forall_forall. intros c Hin.
    apply list_elem_of_lookup in Hin. destruct Hin as [k Hk].
    now destruct (Hd k c Hk) as (_ & _ & _ & H & _).
  - intros k c Hk. now destruct (Hd k c Hk).
  - apply Forall_forall. intros c Hin.
    apply list_elem_of_lookup in Hin. destruct Hin as [k Hk].
    now destruct (Hd k c Hk) as (_ & _ & _ & _ & H).
  - simpl. lia.
  - constructor.
  - discriminate.
Qed.

Lemma reachable_table (s : GameState) : reachable any s -> table_invariant s.
Proof.
  induction 1 as [| t s s' Hr IH Hal Ht].
  - apply initializeGame_table.
  - exact (transition_table t s s' (reachable_invariant s Hr) IH Ht).
Qed.

(** ** The records of a game *)

Lemma matchType_finish_if_done (s : GameState) :
  matchType (finish_if_done s) = matchType s.
Proof. unfold finish_if_done. now destruct (isGameFinished s). Qed.

Lemma current_index_seated (s : GameState) :
  In (currentPlayer s) (map p_id (players s)) ->
  exists (k : nat) (p : Player),
    current_index s = Z.of_nat k /\ players s !! k = Some p /\
    p_id p = currentPlayer s.
Proof.
  intros Hcu. apply in_map_iff in Hcu. destruct Hcu as (p0 & Hp0 & Hin0).
  destruct (findIndex_exists (fun p => String.eqb (p_id p) (currentPlayer s))
              (players s) p0 Hin0) as [k Hk]; [now apply String.eqb_eq|].
  destruct (findIndex_found _ _ _ Hk) as (p & Hp & Hq).
  exists k, p. split; [exact Hk|]. split; [exact Hp | now apply String.eqb_eq].
Qed.

(** What a flip does to the players, the recorded pairs and the history:
    nothing; or a mismatch is recorded; or a match is recorded and
    credited to the player to move. *)
Lemma handleCardFlip_records (s s' : GameState) (i now_move now_turn : Z) :
  game_invariant s -> handleCardFlip s i now_move now_turn = Some s' ->
  (players s' = players s /\ matchedPairs s' = matchedPairs s /\
   (moveHistory s' = moveHistory s \/
    exists mv : Move,
      moveHistory s' = moveHistory s ++ [mv] /\ isMatch mv = false /\
      playerId mv = currentPlayer s /\ length (cardIds mv) = 2)) \/
  (exists (c1 c2 : Card) (k : nat) (p : Player) (mv : Move),
     cardsMatch c1 c2 (matchType s) = true /\
     players s !! k = Some p /\ p_id p = currentPlayer s /\
     players s' = <[k := add_match c1 c2 p]> (players s) /\
     matchedPairs s' = matchedPairs s ++ [[c1; c2]] /\
     moveHistory s' = moveHistory s ++ [mv] /\ isMatch mv = true /\
     playerId mv = currentPlayer s /\ length (cardIds mv) = 2 /\
     currentPlayer s' = currentPlayer s).
Proof.
  intros Hinv H. apply handleCardFlip_shape in H.
  destruct H as [Hcan -> | c Hcan Hc Hf -> | c c1 Hcan Hc Hf Hid -> |
                 c c1 newCurrent Hcan Hc Hf Hid Hn ->].
  - left. auto.
  - left. auto.
  - left. auto.
  - rewrite players_finish_if_done, matchedPairs_finish_if_done,
      moveHistory_finish_if_done, currentPlayer_finish_if_done.
    unfold resolved. cbn [players matchedPairs moveHistory currentPlayer].
    change (current_index (turned s i c)) with (current_index s).
    change (players (turned s i c)) with (players s).
    change (matchedPairs (turned s i c)) with (matchedPairs s).
    change (moveHistory (turned s i c)) with (moveHistory s).
    change (currentPlayer (turned s i c)) with (currentPlayer s).
    unfold next_current in Hn.
    destruct (cardsMatch c1 c (matchType s)) eqn:Hm.
    + right. injection Hn as <-.
      destruct (current_index_seated s (inv_current s Hinv)) as (k & p & Hk & Hp & Hq).
      rewrite Hk, at_index_of_nat, Hp, Nat2Z.id.
      destruct (Z.eqb_spec (Z.of_nat k) (-1)); [lia|]. cbn [andb negb].
      exists c1, (with_isFlipped true c), k, p,
        (mkMove (currentPlayer s) [id c1; id (with_isFlipped true c)] now_move true).
      rewrite cardsMatch_with_isFlipped. repeat split; auto.
    + left. cbn [andb]. split; [reflexivity|]. split; [reflexivity|]. right.
      exists (mkMove (currentPlayer s) [id c1; id (with_isFlipped true c)]
                     now_move false).
      repeat split.
Qed.

Lemma map_seat_kept {B : Type} (f : Player -> B) (l l' : list Player) :
  (forall p p' : Player, seat_kept p p' -> f p' = f p) ->
  Forall2 seat_kept l l' -> map f l' = map f l.
Proof.
  intros Hf H. induction H as [|p p' l l' Hp _ IH]; [reflexivity|].
  cbn [map]. now rewrite (Hf p p' Hp), IH.
Qed.

Lemma handleCardFlip_ledger (s s' : GameState) (i now_move now_turn : Z) :
  game_invariant s -> ledger_invariant s ->
  handleCardFlip s i now_move now_turn = Some s' ->
  ledger_invariant s'.
Proof.
  intros Hinv [Ls Lp Lc Lh Lm Lf] H.
  destruct (handleCardFlip_same s s' i now_move now_turn H)
    as (_ & Hseats & (_ & Emt & _)).
  assert (Eid : map p_id (players s') = map p_id (players s)).
  { apply map_seat_kept; [|exact Hseats]. now intros p p' [(E & _) _]. }
  assert (Efl : map isCurrentPlayer (players s') = map isCurrentPlayer (players s)).
  { apply map_seat_kept; [|exact Hseats]. now intros p p' [(_ & _ & _ & E & _) _]. }
  destruct (handleCardFlip_records s s' i now_move now_turn Hinv H)
    as [(Ep & Emp & Eh) |
        (c1 & c2 & k & p & mv & Hm & Hk & Hq & Ep & Emp & Eh & Hmv & Hpl & Hids & _)].
  - constructor; rewrite ?Ep, ?Emp, ?Emt; auto.
    + destruct Eh as [-> | (mv & -> & Hmv & _)]; [exact Lh|].
      rewrite List.filter_app, length_app. cbn [List.filter]. rewrite Hmv.
      cbn [length]. lia.
    + destruct Eh as [-> | (mv & -> & _ & Hpl & Hids)]; [exact Lm|].
      apply Forall_app. split; [exact Lm|].
      constructor; [|constructor]. split; [|exact Hids].
      rewrite Hpl. exact (inv_current s Hinv).
  - constructor; rewrite ?Emp, ?Emt, ?Eh, ?Eid, ?Efl; auto.
    + rewrite Ep. apply Forall_insert; [exact Ls|].
      cbn [score matches add_match]. rewrite length_app. cbn [length].
      rewrite Forall_forall in Ls.
      rewrite (Ls p (list_elem_of_lookup_2 _ _ _ Hk)). reflexivity.
    + apply Forall_app. split; [exact Lp|].
      constructor; [|constructor]. exists c1, c2. auto.
    + rewrite Ep. apply Forall_insert.
      * eapply Forall_impl; [exact Lc|]. intros q Hq0.
        eapply Forall_impl; [exact Hq0|]. intros pr Hpr.
        apply in_or_app. now left.
      * cbn [matches add_match]. apply Forall_app. split.
        -- rewrite Forall_forall in Lc.
           pose proof (Lc p (list_elem_of_lookup_2 _ _ _ Hk)) as Hp0.
           eapply Forall_impl; [exact Hp0|]. intros pr Hpr.
           apply in_or_app. now left.
        -- constructor; [|constructor]. apply in_or_app. right. now left.
    + rewrite List.filter_app, !length_app. cbn [List.filter]. rewrite Hmv.
      cbn [length]. lia.
    + apply Forall_app. split; [exact Lm|].
      constructor; [|constructor]. split; [|exact Hids].
      rewrite Hpl. exact (inv_current s Hinv).
Qed.

Lemma ledger_unchanged (s s' : GameState) :
  ledger_invariant s ->
  players s' = players s -> matchedPairs s' = matchedPairs s ->
  moveHistory s' = moveHistory s -> matchType s' = matchType s ->
  ledger_invariant s'.
Proof.
  intros [Ls Lp Lc Lh Lm Lf] Ep Emp Eh Emt.
  constructor; rewrite ?Ep, ?Emp, ?Eh, ?Emt; auto.
Qed.

Lemma transition_ledger (t : Transition) (s s' : GameState) :
  game_invariant s -> ledger_invariant s -> transition t s = Some s' ->
  ledger_invariant s'.
Proof.
  intros Hinv Hl H. destruct t; cbn [transition] in H;
    try (injection H as <-; now apply (ledger_unchanged s)).
  eapply handleCardFlip_ledger; eauto.
Qed.

Lemma initializeGame_ledger mode criterion board player1Name player2Name
    aiDifficulty ai2Difficulty now_turn now_game (g : Rng) :
  ledger_invariant (fst (initializeGame mode criterion board player1Name
                                        player2Name aiDifficulty ai2Difficulty
                                        now_turn now_game g)).
Proof.
  unfold initializeGame, mbind, Gen_bind, mret, Gen_ret.
  destruct (generateGameCards board criterion g) as [cs g'].
  cbn [fst]. constructor; cbn [players matchedPairs moveHistory];
    destruct mode; repeat constructor.
Qed.

Lemma reachable_ledger (s : GameState) : reachable any s -> ledger_invariant s.
Proof.
  induction 1 as [| t s s' Hr IH Hal Ht].
  - apply initializeGame_ledger.
  - exact (transition_ledger t s s' (reachable_invariant s Hr) IH Ht).
Qed.

(** ** gameLogic.ts: validateGameState *)

Lemma fold_left_scores (l : list Player) (a : nat) :
  fold_left (fun sum player => sum + score player) l a = a + sum_scores l.
Proof.
  revert a. induction l as [|p l IH]; intros a; cbn [fold_left sum_scores fold_right].
  - lia.
  - rewrite IH. unfold sum_scores. lia.
Qed.

Lemma total_mod_2 (b : BoardSize) : total b mod 2 = 0.
Proof. now destruct b. Qed.

Lemma seats_two (s : GameState) :
  seats s = seats_of (gameMode s) ->
  exists p1 p2 : Player, players s = [p1; p2].
Proof.
  unfold seats. intros H.
  destruct (players s) as [|p1 [|p2 [|p3 ps]]];
    destruct (gameMode s); try discriminate; eauto.
Qed.

(** The cards recorded as flipped are not more than the cards that lie
    face up on the board. *)
Lemma flipped_on_board (s : GameState) :
  game_invariant s -> NoDup (map id (flippedCards s)) ->
  length (flippedCards s) <= length (List.filter isFlipped (cards s)).
Proof.
  intros Hinv Hnd.
  rewrite <- (length_map id (flippedCards s)).
  rewrite <- (length_map id (List.filter isFlipped (cards s))).
  apply submseteq_length, NoDup_submseteq; [exact Hnd|].
  intros x Hx. apply list_elem_of_In, in_map_iff in Hx.
  destruct Hx as (f & <- & Hf).
  pose proof (inv_flipped s Hinv) as Hfl. rewrite Forall_forall in Hfl.
  destruct (Hfl f (proj2 (list_elem_of_In _ _) Hf))
    as [_ (k & c & Hk & Hid & Hfc & _)].
  apply list_elem_of_In, in_map_iff. exists c. split; [exact Hid|].
  apply filter_In. split; [|exact Hfc].
  apply list_elem_of_In. eapply list_elem_of_lookup_2. exact Hk.
Qed.

Lemma half_of_double (n : nat) :
  Qeq_bool (inject_Z (Z.of_nat n)) (inject_Z (Z.of_nat (2 * n)) / 2) = true.
Proof.
  apply Qeq_bool_iff. unfold Qeq, Qdiv, Qmult, Qinv, inject_Z.
  cbn [Qnum Qden]. lia.
Qed.

(** [validateGameState] accepts every state of a game: the state
    [initializeGame] returns, and every state reached from it by flips,
    mismatch resets and pause toggles, in any order and at any index. *)
Theorem validateGameState_reachable (s : GameState) :
  reachable any s -> validateGameState s = true.
Proof.
  intros Hr.
  pose proof (reachable_invariant s Hr) as Hinv.
  pose proof (reachable_table s Hr) as Htab.
  destruct (seats_two s (inv_seats s Hinv)) as (p1 & p2 & Hp).
  unfold validateGameState.
  rewrite (tab_length s Htab), total_mod_2.
  assert (Hl : length (players s) = 2) by now rewrite Hp.
  rewrite Hl.
  change (negb (0 =? 0)) with false. change ((2 <? 1) || (2 <? 2)) with false.
  cbv iota.
  destruct (Nat.ltb_spec 2 (length (flippedCards s))) as [Hgt | _];
    [pose proof (tab_flipped_len s Htab); lia|].
  destruct (Nat.ltb_spec (length (List.filter isFlipped (cards s)))
                         (length (flippedCards s))) as [Hlt | _].
  { pose proof (flipped_on_board s Hinv (tab_flipped_ids s Htab)). lia. }
  pose proof (inv_matched s Hinv) as Hm. unfold count_matched in Hm.
  rewrite <- Hm.
  replace ((2 * length (matchedPairs s)) mod 2) with 0
    by (rewrite Nat.mul_comm; symmetry; apply Nat.Div0.mod_mul).
  change (negb (0 =? 0)) with false. cbv iota.
  rewrite fold_left_scores, (inv_scores s Hinv). cbn [Nat.add].
  now rewrite half_of_double.
Qed.

Lemma validateGameState_reachable_witness :
  validateGameState final_state = true /\
  validateGameState (without_players final_state) = false.
Proof.
  split; [|vm_compute; reflexivity].
  apply validateGameState_reachable, final_state_reachable. reflexivity.
Defined.

(** ** The end of a game *)

Lemma count_matched_all (l : list Card) :
  Forall (fun c => isMatched c = true) l -> count_matched l = length l.
Proof.
  unfold count_matched. induction 1 as [|c l Hc _ IH]; [reflexivity|].
  cbn [List.filter]. rewrite Hc. cbn [length]. now rewrite IH.
Qed.

Lemma winners_two (s : GameState) (p1 p2 : Player) :
  players s = [p1; p2] ->
  winners s = (if score p2 <? score p1 then [p1]
               else if score p1 <? score p2 then [p2] else [p1; p2]).
Proof.
  intros Hp. unfold winners. rewrite Hp.
  cbn [map math_max fold_left List.filter].
  destruct (Nat.ltb_spec (score p2) (score p1)) as [H | H].
  - rewrite Nat.max_l by lia.
    rewrite bool_decide_eq_true_2 by reflexivity.
    rewrite bool_decide_eq_false_2; [reflexivity|].
    intros E. injection E as E. lia.
  - destruct (Nat.ltb_spec (score p1) (score p2)) as [H' | H'].
    + rewrite Nat.max_r by lia.
      rewrite bool_decide_eq_false_2 by (intros E; injection E as E; lia).
      now rewrite bool_decide_eq_true_2.
    + assert (E : score p1 = score p2) by lia.
      rewrite E, Nat.max_id.
      now rewrite !bool_decide_eq_true_2.
Qed.

(** When a game ends (every card matched), there are two players, their
    scores add up to the number of pairs of the board (8, 12 or 18), and
    [getGameWinner] returns the player with the higher score, with
    [isGameDraw] false; when both have half of the pairs it returns both
    players, in seat order, and [isGameDraw] is true. *)
Theorem winner_of_finished_game (s : GameState) :
  reachable any s -> isGameFinished s = true ->
  exists p1 p2 : Player,
    players s = [p1; p2] /\
    score p1 + score p2 = total (boardSize s) / 2 /\
    (score p2 < score p1 ->
     getGameWinner s = OneWinner p1 /\ isGameDraw s = false) /\
    (score p1 < score p2 ->
     getGameWinner s = OneWinner p2 /\ isGameDraw s = false) /\
    (score p1 = score p2 ->
     getGameWinner s = Winners [p1; p2] /\ isGameDraw s = true).
Proof.
  intros Hr Hfin.
  pose proof (reachable_invariant s Hr) as Hinv.
  pose proof (reachable_table s Hr) as Htab.
  destruct (seats_two s (inv_seats s Hinv)) as (p1 & p2 & Hp).
  exists p1, p2. split; [exact Hp|].
  split.
  { pose proof (inv_scores s Hinv) as Hs. pose proof (inv_matched s Hinv) as Hm.
    rewrite (count_matched_all _ (proj1 (isGameFinished_true s) Hfin)) in Hm.
    rewrite (tab_length s Htab) in Hm.
    rewrite Hp in Hs. cbn [sum_scores fold_right] in Hs.
    rewrite <- Hm, Nat.mul_comm, Nat.div_mul by discriminate. lia. }
  unfold getGameWinner, isGameDraw. rewrite Hfin. cbn [negb].
  rewrite (winners_two s p1 p2 Hp).
  split; [|split].
  - intros H. destruct (Nat.ltb_spec (score p2) (score p1)); [|lia]. auto.
  - intros H. destruct (Nat.ltb_spec (score p2) (score p1)); [lia|].
    destruct (Nat.ltb_spec (score p1) (score p2)); [|lia]. auto.
  - intros H. destruct (Nat.ltb_spec (score p2) (score p1)); [lia|].
    destruct (Nat.ltb_spec (score p1) (score p2)); [lia|]. auto.
Qed.

Lemma winner_of_finished_game_witness :
  exists p1 p2 : Player,
    players final_state = [p1; p2] /\
    score p1 + score p2 = 8 /\
    (score p2 < score p1 ->
     getGameWinner final_state = OneWinner p1 /\ isGameDraw final_state = false).
Proof.
  destruct (winner_of_finished_game final_state) as (p1 & p2 & Hp & Hs & H1 & _).
  - apply final_state_reachable. reflexivity.
  - vm_compute. reflexivity.
  - exists p1, p2. split; [exact Hp|]. split; [|exact H1].
    rewrite Hs. vm_compute. reflexivity.
Defined.

(** ** The board and the records of every state of a game *)

(** In every state of a game the board has as many cards as the board
    size says; the cards carry pairwise different, non-empty ids, lie at
    the position of their index and have the colour of their suit; at most
    two cards are recorded as flipped, different ones, each lying face up
    and unmatched on the board; and two are recorded only while they are a
    mismatch. *)
Theorem board_of_reachable_state (s : GameState) :
  reachable any s ->
  length (cards s) = total (boardSize s) /\
  NoDup (map id (cards s)) /\
  (forall (k : nat) (c : Card),
     cards s !! k = Some c ->
     truthy (id c) = true /\ position c = k /\ color c = getCardColor (suit c)) /\
  length (flippedCards s) <= 2 /\
  NoDup (map id (flippedCards s)) /\
  Forall (on_board_flipped s) (flippedCards s) /\
  (forall c1 c2 : Card,
     flippedCards s = [c1; c2] -> cardsMatch c1 c2 (matchType s) = false).
Proof.
  intros Hr.
  pose proof (reachable_invariant s Hr) as Hinv.
  destruct (reachable_table s Hr) as [Tl Ti Tp Tc Tf Tn Tm].
  split; [exact Tl|]. split; [exact (inv_ids s Hinv)|].
  split; [|split; [exact Tf|split; [exact Tn|split;
                                   [exact (inv_flipped s Hinv) | exact Tm]]]].
  intros k c Hk. rewrite Forall_forall in Ti, Tc.
  pose proof (list_elem_of_lookup_2 _ _ _ Hk) as Hin.
  split; [exact (Ti c Hin)|]. split; [exact (Tp k c Hk) | exact (Tc c Hin)].
Qed.

Lemma board_of_reachable_state_witness :
  length (cards final_state) = 16 /\
  flippedCards final_state = [] /\
  NoDup (map id (cards final_state)).
Proof.
  destruct (board_of_reachable_state final_state) as (Hl & Hn & _).
  - apply final_state_reachable. reflexivity.
  - split; [rewrite Hl; vm_compute; reflexivity|].
    split; [vm_compute; reflexivity | exact Hn].
Defined.

(** In every state of a game each player's score is the number of pairs
    in that player's [matches]; every pair in [matchedPairs] consists of
    two cards that match under the game's criterion, and every pair a
    player holds is one of them; the history holds exactly one move with
    isMatch = true per recorded pair, and every move names a seated player
    and two card ids. *)
Theorem records_of_reachable_state (s : GameState) :
  reachable any s ->
  Forall (fun p => score p = length (matches p)) (players s) /\
  Forall (fun pr => exists c1 c2 : Card,
              pr = [c1; c2] /\ cardsMatch c1 c2 (matchType s) = true)
         (matchedPairs s) /\
  Forall (fun p => Forall (fun pr => In pr (matchedPairs s)) (matches p))
         (players s) /\
  length (List.filter isMatch (moveHistory s)) = length (matchedPairs s) /\
  length (List.filter isMatch (moveHistory s)) = sum_scores (players s) /\
  Forall (fun m => In (playerId m) (map p_id (players s)) /\
                   length (cardIds m) = 2)
         (moveHistory s).
Proof.
  intros Hr.
  pose proof (reachable_invariant s Hr) as Hinv.
  destruct (reachable_ledger s Hr) as [Ls Lp Lc Lh Lm Lf].
  repeat split; auto. rewrite Lh. symmetry. exact (inv_scores s Hinv).
Qed.

Lemma records_of_reachable_state_witness :
  length (List.filter isMatch (moveHistory final_state)) = 8 /\
  length (moveHistory final_state) = 8 /\
  sum_scores (players final_state) = 8.
Proof.
  destruct (records_of_reachable_state final_state) as (_ & _ & _ & _ & H & _).
  - apply final_state_reachable. reflexivity.
  - split; [rewrite H; vm_compute; reflexivity|].
    split; vm_compute; reflexivity.
Defined.

(** The [isCurrentPlayer] flags [initializeGame] sets are never updated:
    in every state of a game the first player's flag is true and the
    second player's is false, whoever [currentPlayer] says is to move. *)
Theorem isCurrentPlayer_is_never_updated (s : GameState) :
  reachable any s ->
  map isCurrentPlayer (players s) = [true; false] /\
  In (currentPlayer s) (map p_id (players s)).
Proof.
  intros Hr. split.
  - exact (led_flags s (reachable_ledger s Hr)).
  - exact (inv_current s (reachable_invariant s Hr)).
Qed.

Lemma mismatch_state_run :
  run_flips fresh_ai_game mismatch_flips = Some mismatch_state.
Proof. vm_compute. reflexivity. Qed.

Lemma mismatch_state_reachable : reachable any mismatch_state.
Proof.
  exact (run_flips_reachable any mismatch_flips (fun _ => eq_refl) fresh_ai_game
           mismatch_state (fresh_ai_game_reachable any) mismatch_state_run).
Qed.

Lemma one_flip_state_run : run_flips fresh_ai_game [0%Z] = Some one_flip_state.
Proof. vm_compute. reflexivity. Qed.

Lemma one_flip_state_reachable : reachable any one_flip_state.
Proof.
  exact (run_flips_reachable any [0%Z] (fun _ => eq_refl) fresh_ai_game
           one_flip_state (fresh_ai_game_reachable any) one_flip_state_run).
Qed.

Lemma fresh_local_game_reachable : reachable any fresh_local_game.
Proof.
  unfold fresh_local_game.
  exact (reachable_init any gm_local_multiplayer mt_rank b4x4 "P1" (Some "P2")
                        None None 0 0 zero_rng).
Qed.

Lemma fresh_ai_vs_ai_game_reachable : reachable any fresh_ai_vs_ai_game.
Proof.
  unfold fresh_ai_vs_ai_game.
  exact (reachable_init any gm_ai_vs_ai mt_suit b4x4 "A" None (Some hard)
                        (Some expert) 0 0 zero_rng).
Qed.

Lemma isCurrentPlayer_is_never_updated_witness :
  currentPlayer mismatch_state = "ai" /\
  map p_id (players mismatch_state) = ["player1"; "ai"] /\
  map isCurrentPlayer (players mismatch_state) = [true; false].
Proof.
  split; [vm_compute; reflexivity|]. split; [vm_compute; reflexivity|].
  exact (proj1 (isCurrentPlayer_is_never_updated mismatch_state
                  mismatch_state_reachable)).
Defined.

(** ** gameLogic.ts: applyAIMove *)

Lemma cardsMatch_with_isFlipped_l (c1 c2 : Card) (b : bool) (m : MatchType) :
  cardsMatch (with_isFlipped b c1) c2 m = cardsMatch c1 c2 m.
Proof. destruct m; reflexivity. Qed.

Lemma available_true (c : Card) :
  available c = true <-> isFlipped c = false /\ isMatched c = false.
Proof. unfold available. rewrite andb_true_iff, !negb_true_iff. tauto. Qed.

(** The two flips of a turn that starts with nothing flipped, at two
    different available cards with ids. *)
Lemma two_flips (s : GameState) (i j : Z) (ci cj : Card)
    (now_move1 now_turn1 now_move2 now_turn2 : Z) :
  gameStatus s = playing -> flippedCards s = [] -> players s <> [] ->
  i <> j -> at_index (cards s) i = Some ci -> at_index (cards s) j = Some cj ->
  truthy (id ci) = true -> truthy (id cj) = true ->
  available ci = true -> available cj = true ->
  exists newCurrent : string,
    next_current s ci cj = Some newCurrent /\
    handleCardFlip s i now_move1 now_turn1 = Some (turned s i ci) /\
    canFlipCard (turned s i ci) j = true /\
    applyAIMove s (i, j) now_move1 now_turn1 now_move2 now_turn2
    = Some (finish_if_done
              (resolved (turned (turned s i ci) j cj) (with_isFlipped true ci)
                        (with_isFlipped true cj) (cardsMatch ci cj (matchType s))
                        newCurrent now_move2 now_turn2)).
Proof.
  intros Hst Hf Hpl Hne Hi Hj Hidi Hidj Hai Haj.
  apply available_true in Hai, Haj.
  destruct Hai as [Fi Mi], Haj as [Fj Mj].
  pose proof (proj1 (at_index_Some _ _ _) Hi) as [Ri Ki].
  pose proof (proj1 (at_index_Some _ _ _) Hj) as [Rj Kj].
  assert (Hcan1 : canFlipCard s i = true).
  { apply canFlipCard_true_iff. rewrite Hf.
    split; [exact Hst|]. split; [lia|]. split; [exists ci; auto | simpl; lia]. }
  assert (H1 : handleCardFlip s i now_move1 now_turn1 = Some (turned s i ci)).
  { rewrite (handleCardFlip_accepted s i now_move1 now_turn1 ci Hcan1 Hi).
    cbn zeta. unfold turned. rewrite Hf. reflexivity. }
  assert (Hj1 : at_index (cards (turned s i ci)) j = Some cj).
  { apply at_index_Some. unfold turned. cbn [cards with_cards_flipped].
    rewrite length_insert. split; [lia|].
    rewrite list_lookup_insert_ne by lia. exact Kj. }
  assert (Hf1 : flippedCards (turned s i ci) = [with_isFlipped true ci]).
  { unfold turned. cbn [flippedCards with_cards_flipped]. now rewrite Hf. }
  assert (Hcan2 : canFlipCard (turned s i ci) j = true).
  { apply canFlipCard_true_iff. rewrite Hf1.
    split; [exact Hst|]. split; [apply at_index_Some in Hj1; tauto|].
    split; [exists cj; auto | simpl; lia]. }
  assert (Hn : exists newCurrent : string, next_current s ci cj = Some newCurrent).
  { unfold next_current.
    destruct (cardsMatch ci cj (matchType s)); [eauto|].
    destruct (bool_decide (gameMode s = gm_ai_vs_ai)); [eauto|].
    destruct (getNextPlayer_nonempty s Hpl) as (q & _ & ->). eauto. }
  destruct Hn as [newCurrent Hn]. exists newCurrent.
  split; [exact Hn|]. split; [exact H1|]. split; [exact Hcan2|].
  unfold applyAIMove. cbn [fst snd]. rewrite H1. cbn [mbind option_bind].
  rewrite (second_flip (turned s i ci) j now_move2 now_turn2
             (with_isFlipped true ci) cj Hf1 Hidi Hcan2 Hj1).
  cbn zeta. rewrite cardsMatch_with_isFlipped_l.
  change (matchType (turned s i ci)) with (matchType s).
  change (gameMode (turned s i ci)) with (gameMode s).
  change (currentPlayer (turned s i ci)) with (currentPlayer s).
  change (getNextPlayer (turned s i ci)) with (getNextPlayer s).
  fold (next_current s ci cj). rewrite Hn. cbn [mbind option_bind].
  assert (Et : turned (turned s i ci) j cj
               = with_cards_flipped
                   (<[Z.to_nat j := with_isFlipped true cj]> (cards (turned s i ci)))
                   [with_isFlipped true ci; with_isFlipped true cj]
                   (turned s i ci)).
  { unfold turned at 1. now rewrite Hf1. }
  now rewrite Et.
Qed.

Lemma applyAIMove_shared (s : GameState) (i j : Z) (ci cj : Card)
    (now_move1 now_turn1 now_move2 now_turn2 : Z) :
  reachable any s -> gameStatus s = playing -> flippedCards s = [] ->
  i <> j -> at_index (cards s) i = Some ci -> at_index (cards s) j = Some cj ->
  available ci = true -> available cj = true ->
  exists s' : GameState,
    applyAIMove s (i, j) now_move1 now_turn1 now_move2 now_turn2 = Some s' /\
    reachable any s' /\
    moveHistory s'
    = moveHistory s ++ [mkMove (currentPlayer s) [id ci; id cj] now_move2
                               (cardsMatch ci cj (matchType s))] /\
    (cardsMatch ci cj (matchType s) = true ->
     flippedCards s' = [] /\ currentPlayer s' = currentPlayer s /\
     sum_scores (players s') = sum_scores (players s) + 1 /\
     count_matched (cards s') = count_matched (cards s) + 2) /\
    (cardsMatch ci cj (matchType s) = false ->
     flippedCards s' = [with_isFlipped true ci; with_isFlipped true cj] /\
     players s' = players s /\
     count_matched (cards s') = count_matched (cards s)).
Proof.
  intros Hr Hst Hf Hne Hi Hj Hai Haj.
  pose proof (reachable_invariant s Hr) as Hinv.
  pose proof (reachable_table s Hr) as Htab.
  assert (Hidi : truthy (id ci) = true).
  { pose proof (tab_ids s Htab) as H. rewrite Forall_forall in H. apply H.
    apply at_index_Some in Hi. eapply list_elem_of_lookup_2. apply Hi. }
  assert (Hidj : truthy (id cj) = true).
  { pose proof (tab_ids s Htab) as H. rewrite Forall_forall in H. apply H.
    apply at_index_Some in Hj. eapply list_elem_of_lookup_2. apply Hj. }
  assert (Hpl : players s <> []).
  { destruct (seats_two s (inv_seats s Hinv)) as (p1 & p2 & ->). discriminate. }
  destruct (two_flips s i j ci cj now_move1 now_turn1 now_move2 now_turn2
              Hst Hf Hpl Hne Hi Hj Hidi Hidj Hai Haj)
    as (newCurrent & Hn & H1 & Hcan2 & Happ).
  set (s' := finish_if_done
               (resolved (turned (turned s i ci) j cj) (with_isFlipped true ci)
                         (with_isFlipped true cj) (cardsMatch ci cj (matchType s))
                         newCurrent now_move2 now_turn2)) in *.
  assert (H2 : handleCardFlip (turned s i ci) j now_move2 now_turn2 = Some s').
  { unfold applyAIMove in Happ. cbn [fst snd] in Happ. rewrite H1 in Happ.
    exact Happ. }
  assert (Hr1 : reachable any (turned s i ci))
    by exact (reachable_step any (T_flip i now_move1 now_turn1) s _ Hr eq_refl H1).
  assert (Hr' : reachable any s')
    by exact (reachable_step any (T_flip j now_move2 now_turn2) _ s' Hr1 eq_refl H2).
  pose proof (reachable_invariant s' Hr') as Hinv'.
  exists s'. split; [exact Happ|]. split; [exact Hr'|].
  assert (Emp : matchedPairs s'
                = if cardsMatch ci cj (matchType s)
                  then matchedPairs s
                       ++ [[with_isFlipped true ci; with_isFlipped true cj]]
                  else matchedPairs s).
  { unfold s'. rewrite matchedPairs_finish_if_done. reflexivity. }
  split.
  { unfold s'. rewrite moveHistory_finish_if_done. reflexivity. }
  split.
  - intros Hm. rewrite Hm in Emp.
    split; [unfold s'; rewrite flippedCards_finish_if_done; cbn; now rewrite Hm|].
    split.
    { unfold s'. rewrite currentPlayer_finish_if_done. cbn [currentPlayer resolved].
      unfold next_current in Hn. rewrite Hm in Hn. now injection Hn as <-. }
    pose proof (inv_scores s Hinv). pose proof (inv_scores s' Hinv').
    pose proof (inv_matched s Hinv). pose proof (inv_matched s' Hinv').
    rewrite Emp, length_app in *. cbn [length] in *. lia.
  - intros Hm. rewrite Hm in Emp.
    split.
    { unfold s'. rewrite flippedCards_finish_if_done. cbn. rewrite Hm, Hf.
      reflexivity. }
    split.
    { unfold s'. rewrite players_finish_if_done. cbn. now rewrite Hm. }
    pose proof (inv_matched s Hinv). pose proof (inv_matched s' Hinv').
    rewrite Emp in *. lia.
Qed.


(** [applyAIMove] on a legal move. In a state of a game that is running
    with no card recorded as flipped, two different indices of available
    cards always yield a state; exactly one move is appended to the
    history, by the player to move, naming the two cards, with isMatch as
    [cardsMatch] judges them. If they match, nothing is left flipped, the
    same player moves again, the scores add up to one more and two more
    cards are matched; if not, both cards are recorded as flipped and no
    score or matched card changes. *)
Theorem applyAIMove_legal_move (s : GameState) (i j : Z) (ci cj : Card)
    (now_move1 now_turn1 now_move2 now_turn2 : Z) :
  reachable any s -> gameStatus s = playing -> flippedCards s = [] ->
  i <> j -> at_index (cards s) i = Some ci -> at_index (cards s) j = Some cj ->
  available ci = true -> available cj = true ->
  exists s' : GameState,
    applyAIMove s (i, j) now_move1 now_turn1 now_move2 now_turn2 = Some s' /\
    reachable any s' /\
    moveHistory s'
    = moveHistory s ++ [mkMove (currentPlayer s) [id ci; id cj] now_move2
                               (cardsMatch ci cj (matchType s))] /\
    (cardsMatch ci cj (matchType s) = true ->
     flippedCards s' = [] /\ currentPlayer s' = currentPlayer s /\
     sum_scores (players s') = sum_scores (players s) + 1 /\
     count_matched (cards s') = count_matched (cards s) + 2) /\
    (cardsMatch ci cj (matchType s) = false ->
     flippedCards s' = [with_isFlipped true ci; with_isFlipped true cj] /\
     players s' = players s /\
     count_matched (cards s') = count_matched (cards s)).
Proof.
  intros Hr Hst Hf Hne Hi Hj Hai Haj.
  exact (applyAIMove_shared s i j ci cj now_move1 now_turn1 now_move2 now_turn2
           Hr Hst Hf Hne Hi Hj Hai Haj).
Qed.

Lemma applyAIMove_legal_move_witness :
  exists s' : GameState,
    applyAIMove fresh_ai_game (0, 3)%Z 1 2 3 4 = Some s' /\
    map isMatch (moveHistory s') = [false] /\
    map timestamp (moveHistory s') = [3%Z] /\
    length (flippedCards s') = 2.
Proof.
  destruct (fst (generateGameCards b4x4 mt_color zero_rng) !! 0) as [c0|] eqn:E0;
    [|vm_compute in E0; discriminate].
  destruct (fst (generateGameCards b4x4 mt_color zero_rng) !! 3) as [c3|] eqn:E3;
    [|vm_compute in E3; discriminate].
  destruct (applyAIMove_legal_move fresh_ai_game 0 3 c0 c3 1 2 3 4)
    as (s' & Happ & _ & Hh & _ & Hmis).
  - apply fresh_ai_game_reachable.
  - reflexivity.
  - reflexivity.
  - discriminate.
  - exact E0.
  - exact E3.
  - vm_compute in E0. injection E0 as <-. reflexivity.
  - vm_compute in E3. injection E3 as <-. reflexivity.
  - exists s'. split; [exact Happ|].
    assert (Hm : cardsMatch c0 c3 (matchType fresh_ai_game) = false).
    { vm_compute in E0, E3. injection E0 as <-. injection E3 as <-. reflexivity. }
    destruct (Hmis Hm) as (Hfl & _).
    rewrite Hh, Hfl, Hm. rewrite !map_app. cbn [map isMatch timestamp length app].
    replace (map isMatch (moveHistory fresh_ai_game)) with (@nil bool)
      by (vm_compute; reflexivity).
    replace (map timestamp (moveHistory fresh_ai_game)) with (@nil Z)
      by (vm_compute; reflexivity).
    auto.
Defined.

(** ** The hint can be played *)

(** In a state of a game the two numbers of a hint are board indices (a
    card's position is its index): those of two different cards lying face
    down and unmatched that match. When the game is running and no card is
    recorded as flipped, flipping the two by [applyAIMove] is a match: the
    same player moves again, with nothing left flipped, one more point on
    the table and two more cards matched. *)
Theorem hint_can_be_played (s : GameState) (p1 p2 : nat)
    (now_move1 now_turn1 now_move2 now_turn2 : Z) :
  reachable any s -> getHint s = Some (p1, p2) ->
  (exists c1 c2 : Card,
     p1 <> p2 /\ cards s !! p1 = Some c1 /\ cards s !! p2 = Some c2 /\
     available c1 = true /\ available c2 = true /\
     cardsMatch c1 c2 (matchType s) = true) /\
  (gameStatus s = playing -> flippedCards s = [] ->
   exists s' : GameState,
     applyAIMove s (Z.of_nat p1, Z.of_nat p2)
                 now_move1 now_turn1 now_move2 now_turn2 = Some s' /\
     flippedCards s' = [] /\ currentPlayer s' = currentPlayer s /\
     sum_scores (players s') = sum_scores (players s) + 1 /\
     count_matched (cards s') = count_matched (cards s) + 2).
Proof.
  intros Hr Hh.
  destruct (getHint_Some s p1 p2 Hh)
    as (_ & i & j & c1 & c2 & Hij & Hi & Hj & Ha1 & Ha2 & Hm & -> & ->).
  pose proof (reachable_table s Hr) as Htab.
  rewrite (tab_positions s Htab i c1 Hi), (tab_positions s Htab j c2 Hj).
  split; [exists c1, c2; repeat split; assumption|].
  intros Hst Hf.
  assert (Hne : Z.of_nat i <> Z.of_nat j) by lia.
  assert (Hi' : at_index (cards s) (Z.of_nat i) = Some c1)
    by now rewrite at_index_of_nat.
  assert (Hj' : at_index (cards s) (Z.of_nat j) = Some c2)
    by now rewrite at_index_of_nat.
  destruct (applyAIMove_shared s (Z.of_nat i) (Z.of_nat j) c1 c2
              now_move1 now_turn1 now_move2 now_turn2 Hr Hst Hf Hne Hi' Hj'
              Ha1 Ha2)
    as (s' & Happ & _ & _ & Hmatch & _).
  exists s'. split; [exact Happ|]. exact (Hmatch Hm).
Qed.

Lemma hint_can_be_played_witness :
  getHint fresh_local_game = Some (0, 1) /\
  exists s' : GameState,
    applyAIMove fresh_local_game (0, 1)%Z 0 0 0 0 = Some s' /\
    flippedCards s' = [] /\ currentPlayer s' = "player1" /\
    sum_scores (players s') = 1 /\ count_matched (cards s') = 2.
Proof.
  assert (Hh : getHint fresh_local_game = Some (0, 1)) by (vm_compute; reflexivity).
  split; [exact Hh|].
  destruct (hint_can_be_played fresh_local_game 0 1 0 0 0 0
              fresh_local_game_reachable Hh) as (_ & H).
  destruct (H eq_refl eq_refl) as (s' & Happ & Hf & Hc & Hs & Hm).
  exists s'. split; [exact Happ|]. split; [exact Hf|].
  split; [rewrite Hc; vm_compute; reflexivity|].
  split; [rewrite Hs | rewrite Hm]; vm_compute; reflexivity.
Defined.

(** ** useGameLogic.ts: the AI's turn *)

Lemma finished_none_available (s : GameState) :
  isGameFinished s = true -> count_available (cards s) = 0.
Proof.
  intros H. apply isGameFinished_true in H. unfold count_available.
  induction H as [|c l Hc _ IH]; [reflexivity|].
  cbn [List.filter]. unfold available at 1. rewrite Hc, andb_false_r. exact IH.
Qed.

Lemma aiDecision_on_reachable_state_shared (currentAI : AIMemory) (s : GameState)
    (g : Rng) :
  reachable any s ->
  match fst (fst (aiDecision currentAI s g)) with
  | GameComplete => count_available (cards s) < 2
  | InvalidMove => False
  | FlipCards cardIndex1 cardIndex2 =>
      2 <= count_available (cards s) /\
      legal_move (cards s) (Some cardIndex1, Some cardIndex2)
  end.
Proof.
  intros Hr. pose proof (tab_ids s (reachable_table s Hr)) as Hids.
  unfold aiDecision.
  destruct (isGameFinished s) eqn:Hfin.
  { cbn. rewrite (finished_none_available s Hfin). lia. }
  fold (count_available (cards s)).
  destruct (Nat.ltb_spec (count_available (cards s)) 2) as [Hlt | Hge];
    [exact Hlt|].
  unfold mbind, Gen_bind, mret, Gen_ret.
  pose proof (makeMove_legal_with_ids currentAI (cards s) (matchType s)
                (moveHistory s) g Hids Hge) as Hlegal.
  destruct (makeMove currentAI (cards s) (matchType s) (moveHistory s) g)
    as [[move currentAI'] g'].
  cbn [fst] in Hlegal.
  pose proof Hlegal as (i & j & c1 & c2 & -> & Hne & Hri & Hrj & Hi & Hj &
                        F1 & M1 & F2 & M2).
  destruct (Z.ltb_spec i 0); [lia|]. destruct (Z.ltb_spec j 0); [lia|].
  destruct (Z.leb_spec (Z.of_nat (length (cards s))) i); [lia|].
  destruct (Z.leb_spec (Z.of_nat (length (cards s))) j); [lia|].
  cbn [orb]. rewrite Hi, Hj, F1, M1, F2, M2. cbn. split; [exact Hge | exact Hlegal].
Qed.

(** On a state of a game the turn guard of [scheduleAIMove] never ends in
    one of its error branches ('AI returned invalid card indices', 'AI
    selected invalid cards'): it reports the game complete exactly when
    fewer than two cards are available, and otherwise goes on to flip the
    two cards [makeMove] chose, which are two different cards of the board
    lying face down and unmatched; whatever the engine remembers and
    whatever the draws. *)
Theorem aiDecision_on_reachable_state (currentAI : AIMemory) (s : GameState)
    (g : Rng) :
  reachable any s ->
  match fst (fst (aiDecision currentAI s g)) with
  | GameComplete => count_available (cards s) < 2
  | InvalidMove => False
  | FlipCards cardIndex1 cardIndex2 =>
      2 <= count_available (cards s) /\
      legal_move (cards s) (Some cardIndex1, Some cardIndex2)
  end.
Proof. exact (aiDecision_on_reachable_state_shared currentAI s g). Qed.

Lemma aiDecision_on_reachable_state_witness :
  exists i j : Z,
    fst (fst (aiDecision (newAIPlayer hard) fresh_ai_game zero_rng)) = FlipCards i j /\
    legal_move (cards fresh_ai_game) (Some i, Some j) /\
    fst (fst (aiDecision (newAIPlayer hard) final_state zero_rng)) = GameComplete.
Proof.
  pose proof (aiDecision_on_reachable_state (newAIPlayer hard) fresh_ai_game zero_rng
                (fresh_ai_game_reachable any)) as H.
  destruct (fst (fst (aiDecision (newAIPlayer hard) fresh_ai_game zero_rng)))
    as [| |i j] eqn:E.
  - exfalso. vm_compute in H. lia.
  - destruct H.
  - exists i, j. split; [reflexivity|]. split; [exact (proj2 H)|].
    vm_compute. reflexivity.
Defined.

Lemma inline_match_test (c1 c2 : Card) (m : MatchType) :
  match m with
  | mt_color => bool_decide (color c1 = color c2)
  | mt_rank => bool_decide (rank c1 = rank c2)
  | mt_suit => bool_decide (suit c1 = suit c2)
  end = cardsMatch c1 c2 m.
Proof. reflexivity. Qed.

Lemma flipped_pair_unfinished (s : GameState) (c1 c2 : Card) :
  game_invariant s -> flippedCards s = [c1; c2] ->
  truthy (id c1) = true /\ truthy (id c2) = true /\ isGameFinished s = false.
Proof.
  intros Hinv Hf. pose proof (inv_flipped s Hinv) as Hfl. rewrite Hf in Hfl.
  apply Forall_cons in Hfl. destruct Hfl as [[H1 (k & c & Hk & _ & _ & Hm)] Hfl].
  apply Forall_cons in Hfl. destruct Hfl as [[H2 _] _].
  split; [exact H1|]. split; [exact H2|].
  destruct (isGameFinished s) eqn:Hfin; [|reflexivity].
  apply isGameFinished_true in Hfin. rewrite Forall_forall in Hfin.
  rewrite (Hfin c (list_elem_of_lookup_2 _ _ _ Hk)) in Hm. discriminate.
Qed.

Lemma hook_outcome_on_reachable_state_shared (s : GameState) :
  reachable any s ->
  aiSecondFlipOutcome s
  = (if length (flippedCards s) =? 2 then MismatchReset else InvalidFlippedArray) /\
  flipCardOutcome s
  = (if length (flippedCards s) =? 2 then StartReset
     else if isGameFinished s then Completed else Continue).
Proof.
  intros Hr.
  pose proof (reachable_invariant s Hr) as Hinv.
  pose proof (reachable_table s Hr) as Htab.
  unfold aiSecondFlipOutcome, flipCardOutcome.
  destruct (flippedCards s) as [|c1 [|c2 [|c3 rest]]] eqn:Hf; try (split; reflexivity).
  destruct (flipped_pair_unfinished s c1 c2 Hinv Hf) as (H1 & H2 & Hfin).
  rewrite H1, H2, Hfin, !inline_match_test, (tab_mismatch s Htab c1 c2 Hf).
  split; reflexivity.
Qed.

(** What the hook does with a state of a game once a flip has stored it.
    After a flip of the AI, the callback either starts the mismatch reset
    (two cards are recorded as flipped) or stops at its test of the
    [flippedCards] array: its branches for a finished game, for a match of
    the AI and for cards without ids are never taken, since a match
    empties [flippedCards] before the callback looks at it. After a flip of
    a human, [flipCard] starts the mismatch reset when two cards are
    recorded as flipped, and otherwise reports completion exactly when
    every card is matched. *)
Theorem hook_outcome_on_reachable_state (s : GameState) :
  reachable any s ->
  aiSecondFlipOutcome s
  = (if length (flippedCards s) =? 2 then MismatchReset else InvalidFlippedArray) /\
  flipCardOutcome s
  = (if length (flippedCards s) =? 2 then StartReset
     else if isGameFinished s then Completed else Continue).
Proof. exact (hook_outcome_on_reachable_state_shared s). Qed.

Lemma hook_outcome_on_reachable_state_witness :
  aiSecondFlipOutcome mismatch_state = MismatchReset /\
  aiSecondFlipOutcome final_state = InvalidFlippedArray /\
  flipCardOutcome final_state = Completed /\
  flipCardOutcome one_flip_state = Continue.
Proof.
  destruct (hook_outcome_on_reachable_state mismatch_state mismatch_state_reachable)
    as [H1 _].
  split; [rewrite H1; vm_compute; reflexivity|].
  repeat split; vm_compute; reflexivity.
Defined.

(** A turn of the AI, from the guard of [scheduleAIMove] to the state it
    stores. When the game is running, no card is recorded as flipped and
    the guard decides to flip, the first flip is accepted and records
    exactly one card (the hook's test of [firstMoveState] passes), the
    second flip is accepted too, and the state stored has exactly one move
    more in its history. Then either the two cards did not match and the
    callback starts the mismatch reset with the scores as they were, or
    they matched, the scores add up to one more and the same player is to
    move. *)
Theorem ai_turn_records_one_move (currentAI : AIMemory) (s : GameState) (g : Rng)
    (cardIndex1 cardIndex2 now_move1 now_turn1 now_move2 now_turn2 : Z) :
  reachable any s -> gameStatus s = playing -> flippedCards s = [] ->
  fst (fst (aiDecision currentAI s g)) = FlipCards cardIndex1 cardIndex2 ->
  exists firstMoveState finalState : GameState,
    handleCardFlip s cardIndex1 now_move1 now_turn1 = Some firstMoveState /\
    length (flippedCards firstMoveState) = 1 /\
    handleCardFlip firstMoveState cardIndex2 now_move2 now_turn2 = Some finalState /\
    reachable any finalState /\
    length (moveHistory finalState) = length (moveHistory s) + 1 /\
    ((aiSecondFlipOutcome finalState = MismatchReset /\
      length (flippedCards finalState) = 2 /\
      players finalState = players s) \/
     (aiSecondFlipOutcome finalState = InvalidFlippedArray /\
      flippedCards finalState = [] /\
      sum_scores (players finalState) = sum_scores (players s) + 1 /\
      currentPlayer finalState = currentPlayer s)).
Proof.
  intros Hr Hst Hf Hd.
  pose proof (aiDecision_on_reachable_state_shared currentAI s g Hr) as Hdec.
  rewrite Hd in Hdec.
  destruct Hdec as (_ & i & j & ci & cj & E & Hne & _ & _ & Hi & Hj & F1 & M1 & F2 & M2).
  injection E as <- <-.
  assert (Hai : available ci = true) by (apply available_true; auto).
  assert (Haj : available cj = true) by (apply available_true; auto).
  destruct (applyAIMove_shared s cardIndex1 cardIndex2 ci cj now_move1 now_turn1
              now_move2 now_turn2 Hr Hst Hf Hne Hi Hj Hai Haj)
    as (s' & Happ & Hr' & Hh & Hmatch & Hmis).
  pose proof (reachable_invariant s Hr) as Hinv.
  pose proof (tab_ids s (reachable_table s Hr)) as Hids.
  rewrite Forall_forall in Hids.
  assert (Hidi : truthy (id ci) = true).
  { apply Hids. apply at_index_Some in Hi. eapply list_elem_of_lookup_2. apply Hi. }
  assert (Hidj : truthy (id cj) = true).
  { apply Hids. apply at_index_Some in Hj. eapply list_elem_of_lookup_2. apply Hj. }
  assert (Hpl : players s <> []).
  { destruct (seats_two s (inv_seats s Hinv)) as (p1 & p2 & ->). discriminate. }
  destruct (two_flips s cardIndex1 cardIndex2 ci cj now_move1 now_turn1 now_move2
              now_turn2 Hst Hf Hpl Hne Hi Hj Hidi Hidj Hai Haj)
    as (newCurrent & _ & H1 & _ & _).
  exists (turned s cardIndex1 ci), s'.
  split; [exact H1|].
  split; [unfold turned; cbn [flippedCards with_cards_flipped]; now rewrite Hf|].
  split.
  { unfold applyAIMove in Happ. cbn [fst snd] in Happ. now rewrite H1 in Happ. }
  split; [exact Hr'|].
  split; [rewrite Hh, length_app; reflexivity|].
  destruct (hook_outcome_on_reachable_state_shared s' Hr') as [Hout _].
  destruct (cardsMatch ci cj (matchType s)) eqn:Hm.
  - right. destruct (Hmatch eq_refl) as (Hf' & Hc' & Hs' & _).
    rewrite Hout, Hf'. auto.
  - left. destruct (Hmis eq_refl) as (Hf' & Hp' & _).
    rewrite Hout, Hf'. auto.
Qed.

Lemma ai_turn_records_one_move_witness :
  exists (i j : Z) (firstMoveState finalState : GameState),
    fst (fst (aiDecision (newAIPlayer hard) fresh_ai_vs_ai_game zero_rng))
    = FlipCards i j /\
    handleCardFlip fresh_ai_vs_ai_game i 0 0 = Some firstMoveState /\
    handleCardFlip firstMoveState j 0 0 = Some finalState /\
    length (moveHistory finalState) = 1.
Proof.
  destruct (fst (fst (aiDecision (newAIPlayer hard) fresh_ai_vs_ai_game zero_rng)))
    as [| |i j] eqn:E; [vm_compute in E; discriminate | vm_compute in E; discriminate|].
  destruct (ai_turn_records_one_move (newAIPlayer hard) fresh_ai_vs_ai_game zero_rng
              i j 0 0 0 0 fresh_ai_vs_ai_game_reachable eq_refl eq_refl E)
    as (s1 & s2 & H1 & _ & H2 & _ & Hh & _).
  exists i, j, s1, s2. split; [reflexivity|]. split; [exact H1|].
  split; [exact H2|]. rewrite Hh. vm_compute. reflexivity.
Defined.

(** ** The settings of a game, and the turn clock *)

Lemma reachable_settings (s : GameState) :
  reachable any s ->
  settings s
  = mkSettings true normal dark true
               (bool_decide (gameMode s = gm_local_multiplayer)) classic None.
Proof.
  induction 1 as [mode criterion board player1Name player2Name aiDifficulty
                    ai2Difficulty now_turn now_game g | t s s' Hr IH Hal Ht].
  - unfold initializeGame, mbind, Gen_bind, mret, Gen_ret.
    now destruct (generateGameCards board criterion g).
  - destruct (transition_same t s s' Ht) as (_ & _ & (Eg & _ & _ & Es & _)).
    now rewrite Es, Eg.
Qed.

Lemma exact_range_spec (limit start now : Z) :
  exact_range limit start now = true <->
  (Z.abs limit <= 9007199254740991 /\ Z.abs start <= 9007199254740991 /\
   Z.abs now <= 9007199254740991 /\ Z.abs (limit * 1000) <= 9007199254740991 /\
   Z.abs (now - start) <= 9007199254740991 /\
   Z.abs (limit * 1000 - (now - start)) <= 9007199254740991)%Z.
Proof.
  unfold exact_range, safe_integer.
  rewrite !andb_true_iff, !Z.leb_le. tauto.
Qed.

(** [getTurnTimeRemaining] on integer values in the range where the
    doubles of the source are exact (limit and clock readings, limit *
    1000, elapsed and remaining all of magnitude below 2^53; any limit up
    to 9 * 10^12 seconds with clock readings 0 < start <= now below 2^53
    is in it). The result is never negative and never grows as time
    passes. With a limit set and the clock started it is the number of
    whole seconds left, so it is 0 from one second before the limit on.
    Without a limit it is 0; and no state of a game has a limit:
    [initializeGame] sets none and no transition touches the settings, so
    on every state of a game the answer is 0. The same settings enable the
    hints in games of two players at one screen, and in no other game. *)
Theorem getTurnTimeRemaining_spec (s : GameState) (now now' : Z) :
  (forall r : Z, getTurnTimeRemaining s now = Some r -> (0 <= r)%Z) /\
  (forall r r' : Z,
     (now <= now')%Z ->
     getTurnTimeRemaining s now = Some r -> getTurnTimeRemaining s now' = Some r' ->
     (r' <= r)%Z) /\
  (forall limit start : Z,
     turnTimeLimit (settings s) = Some limit -> turnStartTime s = Some start ->
     limit <> 0%Z -> start <> 0%Z ->
     exact_range limit start now = true ->
     ((1000 <= limit * 1000 - (now - start))%Z ->
      getTurnTimeRemaining s now = Some ((limit * 1000 - (now - start)) / 1000)%Z /\
      (limit * 1000 - (now - start) - 1000
       < 1000 * ((limit * 1000 - (now - start)) / 1000)
       <= limit * 1000 - (now - start))%Z) /\
     ((limit * 1000 - (now - start) < 1000)%Z ->
      getTurnTimeRemaining s now = Some 0%Z)) /\
  (forall limit start : Z,
     (0 < limit)%Z -> (limit * 1000 <= 9007199254740991)%Z ->
     (0 < start <= now)%Z -> (now <= 9007199254740991)%Z ->
     exact_range limit start now = true) /\
  (turnTimeLimit (settings s) = None -> getTurnTimeRemaining s now = Some 0%Z) /\
  (reachable any s ->
   getTurnTimeRemaining s now = Some 0%Z /\
   hintsEnabled (settings s) = bool_decide (gameMode s = gm_local_multiplayer)).
Proof.
  unfold getTurnTimeRemaining.
  split; [|split; [|split; [|split; [|split]]]].
  - intros r.
    destruct (turnTimeLimit (settings s)) as [limit|];
      [|intros [= <-]; lia].
    destruct (turnStartTime s) as [start|]; [|intros [= <-]; lia].
    destruct ((limit =? 0)%Z || (start =? 0)%Z); [intros [= <-]; lia|].
    destruct (exact_range limit start now); [|discriminate].
    intros [= <-]. lia.
  - intros r r' Hle.
    destruct (turnTimeLimit (settings s)) as [limit|];
      [|intros [= <-] [= <-]; lia].
    destruct (turnStartTime s) as [start|]; [|intros [= <-] [= <-]; lia].
    destruct ((limit =? 0)%Z || (start =? 0)%Z); [intros [= <-] [= <-]; lia|].
    destruct (exact_range limit start now); [|discriminate].
    destruct (exact_range limit start now'); [|discriminate].
    intros [= <-] [= <-].
    pose proof (Z.div_le_mono (limit * 1000 - (now' - start))
                              (limit * 1000 - (now - start)) 1000
                              ltac:(lia) ltac:(lia)).
    lia.
  - intros limit start -> -> Hl Hs Hx.
    destruct (Z.eqb_spec limit 0); [contradiction|].
    destruct (Z.eqb_spec start 0); [contradiction|]. cbn [orb]. rewrite Hx.
    pose proof (Z.div_mod (limit * 1000 - (now - start)) 1000 ltac:(lia)).
    pose proof (Z.mod_pos_bound (limit * 1000 - (now - start)) 1000 ltac:(lia)).
    split; intros H1.
    + split; [f_equal; lia | lia].
    + f_equal. lia.
  - intros limit start Hl Hm Hs Hn. apply exact_range_spec. lia.
  - now intros ->.
  - intros Hr. rewrite (reachable_settings s Hr). split; reflexivity.
Qed.

Lemma getTurnTimeRemaining_spec_witness :
  getTurnTimeRemaining
    (mkState gm_ai mt_color b4x4 "player1" [] [] [] [] playing (Some 5000%Z) None []
             (mkSettings true normal dark true false classic (Some 30%Z)))
    6500 = Some 28%Z /\
  getTurnTimeRemaining fresh_ai_game 6500 = Some 0%Z /\
  (getTurnTimeRemaining mismatch_state 1 = Some 0%Z /\
   hintsEnabled (settings mismatch_state) = false).
Proof.
  split; [|split].
  - destruct (getTurnTimeRemaining_spec
                (mkState gm_ai mt_color b4x4 "player1" [] [] [] [] playing
                         (Some 5000%Z) None []
                         (mkSettings true normal dark true false classic (Some 30%Z)))
                6500 6500) as (_ & _ & H & _).
    destruct (H 30%Z 5000%Z eq_refl eq_refl ltac:(lia) ltac:(lia) eq_refl)
      as [H1 _].
    exact (proj1 (H1 ltac:(lia))).
  - reflexivity.
  - destruct (getTurnTimeRemaining_spec mismatch_state 1 1) as (_ & _ & _ & _ & _ & H).
    destruct (H mismatch_state_reachable) as [H1 H2].
    split; [exact H1|]. rewrite H2. vm_compute. reflexivity.
Defined.

(** ** useGameLogic.ts: the hook's hint *)

Lemma hookGetHint_getHint (s : GameState) (enabled : bool) :
  hookGetHint (Some s) enabled = getHint (with_hintsEnabled enabled s).
Proof. reflexivity. Qed.

(** The hook's [getHint] computes what [getHint] of gameLogic.ts computes,
    gated by the application's flag instead of the game's: with the flag
    of the game's own settings the two agree, without a game or with the
    flag off the answer is null. With the flag on it answers in every
    game, also where the game's own hints are off, and on a state of a
    game its two numbers are the indices of two different cards lying face
    down and unmatched that match. *)
Theorem hookGetHint_agrees (s : GameState) (enabled : bool) (p1 p2 : nat) :
  hookGetHint None enabled = None /\
  hookGetHint (Some s) false = None /\
  hookGetHint (Some s) (hintsEnabled (settings s)) = getHint s /\
  (reachable any s -> hookGetHint (Some s) enabled = Some (p1, p2) ->
   exists c1 c2 : Card,
     p1 <> p2 /\ cards s !! p1 = Some c1 /\ cards s !! p2 = Some c2 /\
     available c1 = true /\ available c2 = true /\
     cardsMatch c1 c2 (matchType s) = true).
Proof.
  split; [reflexivity|]. split; [reflexivity|]. split.
  { rewrite hookGetHint_getHint. unfold getHint. reflexivity. }
  intros Hr Hh. rewrite hookGetHint_getHint in Hh.
  destruct (getHint_Some _ p1 p2 Hh)
    as (_ & i & j & c1 & c2 & Hij & Hi & Hj & Ha1 & Ha2 & Hm & -> & ->).
  cbn [cards matchType with_hintsEnabled] in Hi, Hj, Hm.
  pose proof (reachable_table s Hr) as Htab.
  rewrite (tab_positions s Htab i c1 Hi), (tab_positions s Htab j c2 Hj).
  exists c1, c2. repeat split; assumption.
Qed.

Lemma hookGetHint_agrees_witness :
  getHint fresh_ai_game = None /\
  hookGetHint (Some fresh_ai_game) true = Some (0, 1) /\
  exists c1 c2 : Card,
    cards fresh_ai_game !! 0 = Some c1 /\ cards fresh_ai_game !! 1 = Some c2 /\
    cardsMatch c1 c2 mt_color = true.
Proof.
  assert (Hh : hookGetHint (Some fresh_ai_game) true = Some (0, 1))
    by (vm_compute; reflexivity).
  split; [vm_compute; reflexivity|]. split; [exact Hh|].
  destruct (hookGetHint_agrees fresh_ai_game true 0 1) as (_ & _ & _ & H).
  destruct (H (fresh_ai_game_reachable any) Hh)
    as (c1 & c2 & _ & H1 & H2 & _ & _ & Hm).
  exists c1, c2. auto.
Defined.

(** ** aiLogic.ts: what the engine remembers *)

Lemma set_has_In (xs : list Z) (k : Z) : set_has xs k = true <-> In k xs.
Proof.
  unfold set_has. rewrite existsb_exists. split.
  - intros (x & Hx & E). apply Z.eqb_eq in E. now subst.
  - intros H. exists k. split; [exact H | apply Z.eqb_refl].
Qed.

Lemma In_matched_indices (cards : list Card) (k : Z) :
  In k (matched_indices cards) <-> is_matched_at cards (Some k) = true.
Proof.
  unfold matched_indices, is_matched_at. cbn [at_index_opt].
  rewrite in_map_iff. split.
  - intros ([k' c] & E & Hin). cbn [fst] in E. subst k'.
    apply filter_In in Hin. destruct Hin as [Hin Hm].
    apply In_indexed in Hin. now rewrite Hin.
  - destruct (at_index cards k) as [c|] eqn:Hc; [|discriminate].
    intros Hm. exists (k, c). split; [reflexivity|].
    apply filter_In. split; [now apply In_indexed | exact Hm].
Qed.

Lemma set_has_matched_indices (cards : list Card) (k : Z) :
  set_has (matched_indices cards) k = is_matched_at cards (Some k).
Proof.
  destruct (is_matched_at cards (Some k)) eqn:E.
  - apply set_has_In, In_matched_indices, E.
  - destruct (set_has (matched_indices cards) k) eqn:E'; [|reflexivity].
    apply set_has_In, In_matched_indices in E'. congruence.
Qed.

Lemma filter_twice {A : Type} (p q : A -> bool) (l : list A) :
  List.filter p (List.filter q l) = List.filter (fun x => q x && p x) l.
Proof.
  induction l as [|x l IH]; [reflexivity|]. cbn [List.filter].
  destruct (q x); cbn [andb List.filter]; [destruct (p x)|]; now rewrite IH.
Qed.

Lemma fold_delete_filter (l : list Z) :
  forall m : list (Z * Card),
    fold_left (fun m i => map_delete i m) l m
    = List.filter (fun e => negb (set_has l (fst e))) m.
Proof.
  induction l as [|a l IH]; intros m; cbn [fold_left].
  - symmetry. apply forallb_filter_id. now apply forallb_forall.
  - rewrite IH. unfold map_delete. rewrite filter_twice.
    apply filter_ext. intros e. unfold set_has. cbn [existsb].
    now rewrite (Z.eqb_sym a (fst e)), negb_orb.
Qed.

Lemma purged_knownCards (memory : AIMemory) (cards : list Card) :
  fold_left (fun m i => map_delete i m) (matched_indices cards) (knownCards memory)
  = List.filter (fun e => negb (is_matched_at cards (Some (fst e))))
                (knownCards memory).
Proof.
  rewrite fold_delete_filter. apply filter_ext. intros e.
  now rewrite set_has_matched_indices.
Qed.

(** [purgeMatchedCardsFromMemory] forgets exactly the matched cards: it
    keeps, in their order, the remembered cards whose index is not that of
    a matched card and the known pairs neither of whose indices is, and
    nothing else of the memory changes. Purging twice is purging once. *)
Theorem purgeMatchedCardsFromMemory_spec (memory : AIMemory) (cards : list Card) :
  knownCards (purgeMatchedCardsFromMemory memory cards)
  = List.filter (fun e => negb (is_matched_at cards (Some (fst e))))
                (knownCards memory) /\
  knownPairs (purgeMatchedCardsFromMemory memory cards)
  = List.filter (fun p => negb (is_matched_at cards (Some (fst p)))
                          && negb (is_matched_at cards (Some (snd p))))
                (knownPairs memory) /\
  playerPatterns (purgeMatchedCardsFromMemory memory cards) = playerPatterns memory /\
  lastPlayerMoves (purgeMatchedCardsFromMemory memory cards) = lastPlayerMoves memory /\
  difficulty (purgeMatchedCardsFromMemory memory cards) = difficulty memory /\
  purgeMatchedCardsFromMemory (purgeMatchedCardsFromMemory memory cards) cards
  = purgeMatchedCardsFromMemory memory cards.
Proof.
  assert (E1 : forall m : AIMemory,
             knownCards (purgeMatchedCardsFromMemory m cards)
             = List.filter (fun e => negb (is_matched_at cards (Some (fst e))))
                           (knownCards m)).
  { intros m. unfold purgeMatchedCardsFromMemory.
    cbn [knownCards with_knownPairs with_knownCards]. apply purged_knownCards. }
  assert (E2 : forall m : AIMemory,
             knownPairs (purgeMatchedCardsFromMemory m cards)
             = List.filter (fun p => negb (is_matched_at cards (Some (fst p)))
                                     && negb (is_matched_at cards (Some (snd p))))
                           (knownPairs m)).
  { intros m. unfold purgeMatchedCardsFromMemory.
    cbn [knownPairs with_knownPairs with_knownCards].
    apply filter_ext. intros p. now rewrite !set_has_matched_indices. }
  split; [apply E1|]. split; [apply E2|].
  split; [reflexivity|]. split; [reflexivity|]. split; [reflexivity|].
  set (m1 := purgeMatchedCardsFromMemory memory cards).
  assert (K : knownCards (purgeMatchedCardsFromMemory m1 cards) = knownCards m1).
  { rewrite E1. unfold m1. rewrite E1, filter_twice.
    apply filter_ext. intros e. now rewrite andb_diag. }
  assert (P : knownPairs (purgeMatchedCardsFromMemory m1 cards) = knownPairs m1).
  { rewrite E2. unfold m1. rewrite E2, filter_twice.
    apply filter_ext. intros e. now rewrite andb_diag. }
  destruct m1 as [k p pp lm d] eqn:Em.
  unfold purgeMatchedCardsFromMemory in *.
  cbn [knownCards knownPairs with_knownPairs with_knownCards playerPatterns
       lastPlayerMoves difficulty] in *.
  now rewrite K, P.
Qed.

Section Entries.
Variable P : Z * Card -> Prop.

Lemma Forall_entries_incl (l l' : list (Z * Card)) :
  (forall e, In e l' -> In e l) -> Forall P l -> Forall P l'.
Proof.
  intros Hincl Hl. rewrite List.Forall_forall in *. auto.
Qed.

Lemma Forall_map_delete (k : Z) (m : list (Z * Card)) :
  Forall P m -> Forall P (map_delete k m).
Proof.
  apply Forall_entries_incl. intros e He. unfold map_delete in He.
  now apply filter_In in He.
Qed.

Lemma Forall_map_set (k : Z) (v : Card) (m : list (Z * Card)) :
  P (k, v) -> Forall P m -> Forall P (map_set k v m).
Proof.
  intros Hkv Hm. unfold map_set. destruct (map_has k m).
  - rewrite List.Forall_forall in *. intros e He.
    apply in_map_iff in He. destruct He as (e0 & <- & He0).
    destruct (fst e0 =? k)%Z; auto.
  - apply Forall_app. split; [exact Hm | now constructor].
Qed.

Lemma Forall_fold_map_set (l : list (Z * Card)) :
  forall acc : list (Z * Card),
    Forall P acc -> Forall P l ->
    Forall P (fold_left (fun m e => map_set (fst e) (snd e) m) l acc).
Proof.
  induction l as [|[k v] l IH]; intros acc Hacc Hl; [exact Hacc|].
  apply Forall_cons in Hl. destruct Hl as [Hkv Hl].
  cbn [fold_left fst snd]. apply IH; [|exact Hl]. now apply Forall_map_set.
Qed.

Lemma Forall_map_of_entries (l : list (Z * Card)) :
  Forall P l -> Forall P (map_of_entries l).
Proof. intros Hl. apply Forall_fold_map_set; [constructor | exact Hl]. Qed.

Lemma Forall_slice_last (n : nat) (l : list (Z * Card)) :
  Forall P l -> Forall P (slice_last n l).
Proof.
  unfold slice_last. destruct (n =? 0); [auto|].
  apply Forall_entries_incl. intros e He.
  rewrite <- (firstn_skipn (length l - n) l). apply in_or_app. now right.
Qed.

Lemma Forall_fill_randomly (limit fuel : nat) :
  forall (keepEntries remainingEntries : list (Z * Card)) (g : Rng),
    Forall P keepEntries -> Forall P remainingEntries ->
    Forall P (fst (fill_randomly fuel limit keepEntries remainingEntries g)).
Proof.
  induction fuel as [|fuel IH]; intros keepEntries remainingEntries g Hk Hr;
    [exact Hk|].
  cbn [fill_randomly].
  destruct ((length keepEntries <? limit) && (0 <? length remainingEntries));
    [|exact Hk].
  unfold mbind, Gen_bind.
  destruct (random_below (length remainingEntries) g) as [randomIndex g'].
  apply IH.
  - apply Forall_app. split; [exact Hk|].
    destruct (remainingEntries !! randomIndex) as [e|] eqn:He; [|constructor].
    constructor; [|constructor].
    rewrite Forall_forall in Hr. apply Hr. eapply list_elem_of_lookup_2. exact He.
  - now apply Forall_delete.
Qed.

Lemma Forall_kept (limit : nat) (paired : list Z) (entries : list (Z * Card)) :
  forall acc : list (Z * Card),
    Forall P acc -> Forall P entries ->
    Forall P (fold_left (fun keep entry =>
                           if set_has paired (fst entry) && (length keep <? limit)
                           then keep ++ [entry] else keep) entries acc).
Proof.
  induction entries as [|e entries IH]; intros acc Hacc He; [exact Hacc|].
  apply Forall_cons in He. destruct He as [He Hes].
  cbn [fold_left]. apply IH; [|exact Hes].
  destruct (set_has paired (fst e) && (length acc <? limit)); [|exact Hacc].
  apply Forall_app. split; [exact Hacc | now constructor].
Qed.

Lemma Forall_limit_memory (memory : AIMemory) (known : list (Z * Card)) (g : Rng) :
  Forall P known -> Forall P (fst (limit_memory memory known g)).
Proof.
  intros Hk. unfold limit_memory.
  destruct (AI_MEMORY_LIMITS (difficulty memory) <? length known); [|exact Hk].
  unfold mbind, Gen_bind, mret, Gen_ret.
  destruct (bool_decide (difficulty memory = easy)
            || bool_decide (difficulty memory = medium)).
  - cbn [fst]. now apply Forall_map_of_entries, Forall_slice_last.
  - pose proof (Forall_fill_randomly (AI_MEMORY_LIMITS (difficulty memory))
                  (length (List.filter
                             (fun entry => negb (set_has (flat_pairs (knownPairs memory))
                                                         (fst entry))) known))
                  (fold_left (fun keep entry =>
                                if set_has (flat_pairs (knownPairs memory)) (fst entry)
                                   && (length keep <? AI_MEMORY_LIMITS (difficulty memory))
                                then keep ++ [entry] else keep) known [])
                  (List.filter
                     (fun entry => negb (set_has (flat_pairs (knownPairs memory))
                                                 (fst entry))) known)
                  g) as Hfill.
    destruct (fill_randomly _ _ _ _ g) as [keepEntries g'].
    cbn [fst] in *. apply Forall_map_of_entries, Hfill.
    + apply Forall_kept; [constructor | exact Hk].
    + revert Hk. apply Forall_entries_incl. intros e He.
      now apply filter_In in He.
Qed.
End Entries.

Section Remember.
Variable cards : list Card.
Variable P : Z * Card -> Prop.
Hypothesis P_seen :
  forall (index : Z) (card : Card),
    at_index cards index = Some card -> isMatched card = false -> P (index, card).
Hypothesis P_kept :
  forall (index : Z) (card r : Card),
    at_index cards index = Some card -> isMatched card = false -> P (index, r) ->
    P (index, mkCard (id card) (suit r) (rank r) (color r) (position card)
                     (isFlipped card) (isMatched card)).

Lemma map_get_In (index : Z) (known : list (Z * Card)) (r : Card) :
  map_get index known = Some r -> In (index, r) known.
Proof.
  unfold map_get. destruct (List.find _ known) as [[k c]|] eqn:E; [|discriminate].
  cbn. intros H. injection H as <-.
  apply find_some in E. destruct E as [Hin Hk]. cbn [fst] in Hk.
  apply Z.eqb_eq in Hk. now subst.
Qed.

Lemma Forall_remember_card (reliability : Q) (known : list (Z * Card))
    (index : Z) (card : Card) (g : Rng) :
  at_index cards index = Some card -> Forall P known ->
  Forall P (fst (remember_card reliability known (index, card) g)).
Proof.
  intros Hc Hk. unfold remember_card.
  destruct (truthy (id card)); [|exact Hk].
  destruct (isMatched card) eqn:Hm; [now apply Forall_map_delete|].
  destruct (isFlipped card) eqn:Hf.
  - unfold mbind, Gen_bind, mret, Gen_ret. destruct (random g) as [r g'].
    destruct (Qltb (rand_value r) reliability); [|exact Hk].
    cbn [fst]. apply Forall_map_set; auto.
  - cbn [negb andb]. destruct (map_has index known); [|exact Hk].
    destruct (map_get index known) as [r|] eqn:Hr; [|exact Hk].
    unfold mret, Gen_ret. cbn [fst].
    apply Forall_map_set; [|exact Hk].
    assert (Hp : P (index, r)).
    { rewrite List.Forall_forall in Hk. apply Hk. now apply map_get_In. }
    pose proof (P_kept index card r Hc Hm Hp) as Hq.
    rewrite Hf, Hm in Hq. exact Hq.
Qed.

Lemma Forall_foldM_remember (reliability : Q) (entries : list (Z * Card)) :
  forall (known : list (Z * Card)) (g : Rng),
    (forall e, In e entries -> at_index cards (fst e) = Some (snd e)) ->
    Forall P known ->
    Forall P (fst (foldM (remember_card reliability) known entries g)).
Proof.
  induction entries as [|[index card] entries IH]; intros known g He Hk;
    [exact Hk|].
  cbn [foldM]. unfold mbind, Gen_bind.
  pose proof (Forall_remember_card reliability known index card g
                (He (index, card) (or_introl eq_refl)) Hk) as H1.
  destruct (remember_card reliability known (index, card) g) as [known1 g1].
  apply IH; [|exact H1]. intros e Hin. apply He. now right.
Qed.

Lemma knownCards_updateMemory (memory : AIMemory) (recentMoves : list Move)
    (g : Rng) :
  Forall P (List.filter (fun e => negb (is_matched_at cards (Some (fst e))))
                        (knownCards memory)) ->
  Forall P (knownCards (fst (updateMemory memory cards recentMoves g))).
Proof.
  intros H0. unfold updateMemory. rewrite purged_knownCards.
  unfold mbind, Gen_bind, mret, Gen_ret.
  pose proof (Forall_foldM_remember (getMemoryReliability memory) (indexed cards)
                _ g (fun e He => proj1 (In_indexed cards (fst e) (snd e))
                                       ltac:(now destruct e)) H0) as H1.
  destruct (foldM _ _ (indexed cards) g) as [known1 g1]. cbn [fst] in H1.
  match goal with |- context [limit_memory ?m known1 g1] =>
    pose proof (Forall_limit_memory P m known1 g1 H1) as H2;
    destruct (limit_memory m known1 g1) as [known2 g2]
  end.
  exact H2.
Qed.
End Remember.

Lemma purge_knownCards (memory : AIMemory) (cards : list Card) :
  knownCards (purgeMatchedCardsFromMemory memory cards)
  = List.filter (fun e => negb (is_matched_at cards (Some (fst e))))
                (knownCards memory).
Proof.
  unfold purgeMatchedCardsFromMemory.
  cbn [knownCards with_knownPairs with_knownCards]. apply purged_knownCards.
Qed.

Lemma purge_knownPairs (memory : AIMemory) (cards : list Card) :
  knownPairs (purgeMatchedCardsFromMemory memory cards)
  = List.filter (fun p => negb (is_matched_at cards (Some (fst p)))
                          && negb (is_matched_at cards (Some (snd p))))
                (knownPairs memory).
Proof.
  unfold purgeMatchedCardsFromMemory.
  cbn [knownPairs with_knownPairs with_knownCards].
  apply filter_ext. intros p. now rewrite !set_has_matched_indices.
Qed.

Lemma Forall_filter_true {A : Type} (p : A -> bool) (l : list A) :
  Forall (fun x => p x = true) (List.filter p l).
Proof.
  apply List.Forall_forall. intros x Hx. now apply filter_In in Hx.
Qed.

Lemma In_ordered_pairs {A : Type} (l : list A) (x y : A) :
  In (x, y) (ordered_pairs l) -> In x l /\ In y l.
Proof.
  induction l as [|a l IH]; [contradiction|].
  cbn [ordered_pairs]. intros H. apply in_app_or in H. destruct H as [H | H].
  - apply in_map_iff in H. destruct H as (z & E & Hz). injection E as <- <-.
    split; [now left | now right].
  - destruct (IH H). split; now right.
Qed.

Lemma Forall_updateKnownPairs (R : Z * Z -> Prop) (memory : AIMemory)
    (cards : list Card) :
  Forall R (knownPairs memory) ->
  (forall e1 e2 : Z * Card,
     In e1 (knownCards memory) -> In e2 (knownCards memory) -> R (fst e1, fst e2)) ->
  Forall R (knownPairs (updateKnownPairs memory cards)).
Proof.
  intros Hp Hk. unfold updateKnownPairs. cbn [knownPairs with_knownPairs].
  assert (Hall : forall ee : (Z * Card) * (Z * Card),
             In ee (ordered_pairs (knownCards memory)) ->
             R (fst (fst ee), fst (snd ee))).
  { intros [e1 e2] Hin. apply In_ordered_pairs in Hin. cbn [fst snd].
    now apply Hk. }
  revert Hp Hall. generalize (knownPairs memory) as acc.
  induction (ordered_pairs (knownCards memory)) as [|[[i1 c1] [i2 c2]] l IH];
    intros acc Hacc Hall; [exact Hacc|].
  cbn [fold_left]. apply IH; [|intros ee Hee; apply Hall; now right].
  destruct (negb (truthy (id c1)) || negb (truthy (id c2))); [exact Hacc|].
  destruct (cardsMatch c1 c2 mt_color || cardsMatch c1 c2 mt_rank
            || cardsMatch c1 c2 mt_suit); [|exact Hacc].
  destruct (existsb _ acc); [exact Hacc|].
  apply Forall_app. split; [exact Hacc|]. constructor; [|constructor].
  exact (Hall (i1, c1, (i2, c2)) (or_introl eq_refl)).
Qed.

Lemma knownCards_updateKnownPairs (memory : AIMemory) (cards : list Card) :
  knownCards (updateKnownPairs memory cards) = knownCards memory.
Proof. reflexivity. Qed.

(** What [updateMemory] returns, in terms of the cards [known1] it holds
    before the limit is applied. *)
Lemma updateMemory_shape (memory : AIMemory) (cards : list Card)
    (recentMoves : list Move) (g : Rng) :
  exists (known1 : list (Z * Card)) (g1 : Rng),
    fst (updateMemory memory cards recentMoves g)
    = let memory1 :=
        with_knownPairs
          (List.filter
             (fun p => match at_index cards (fst p), at_index cards (snd p) with
                       | Some card1, Some card2 =>
                           negb (isMatched card1) && negb (isMatched card2)
                       | _, _ => false
                       end)
             (knownPairs memory))
          (with_knownCards known1 memory) in
      with_lastPlayerMoves (slice_last 5 recentMoves)
        (updateKnownPairs
           (with_knownCards (fst (limit_memory memory1 known1 g1)) memory1) cards).
Proof.
  unfold updateMemory, mbind, Gen_bind, mret, Gen_ret.
  destruct (foldM _ _ (indexed cards) g) as [known1 g1].
  exists known1, g1. cbn zeta.
  destruct (limit_memory _ known1 g1) as [known2 g2]. reflexivity.
Qed.

Lemma kept_pairs_unmatched (cards : list Card) (pairs : list (Z * Z)) :
  Forall (fun p => is_matched_at cards (Some (fst p)) = false /\
                   is_matched_at cards (Some (snd p)) = false)
         (List.filter
            (fun p => match at_index cards (fst p), at_index cards (snd p) with
                      | Some card1, Some card2 =>
                          negb (isMatched card1) && negb (isMatched card2)
                      | _, _ => false
                      end) pairs).
Proof.
  apply List.Forall_forall. intros p Hp. apply filter_In in Hp.
  destruct Hp as [_ Hp]. unfold is_matched_at. cbn [at_index_opt].
  destruct (at_index cards (fst p)) as [c1|]; [|discriminate].
  destruct (at_index cards (snd p)) as [c2|]; [|discriminate].
  apply andb_true_iff in Hp. now rewrite !negb_true_iff in Hp.
Qed.

(** After [makeMove] the engine remembers no matched card: no remembered
    card and no known pair has the index of a card of the board that is
    matched, whatever the memory held before, whichever of its exits
    [makeMove] took and whatever was drawn. *)
Theorem makeMove_forgets_matched_cards (memory : AIMemory) (cards : list Card)
    (matchType : MatchType) (playerMoves : list Move) (g : Rng) :
  Forall (fun e => is_matched_at cards (Some (fst e)) = false)
         (knownCards (snd (fst (makeMove memory cards matchType playerMoves g)))) /\
  Forall (fun p => is_matched_at cards (Some (fst p)) = false /\
                   is_matched_at cards (Some (snd p)) = false)
         (knownPairs (snd (fst (makeMove memory cards matchType playerMoves g)))).
Proof.
  unfold makeMove.
  destruct (Nat.eqb_spec (length cards) 0) as [H0 | _].
  { destruct cards; [|discriminate]. cbn [fst snd mret Gen_ret].
    split; apply List.Forall_forall; intros x _; unfold is_matched_at;
      cbn [at_index_opt]; unfold at_index;
      try destruct (fst x <? 0)%Z; try destruct (snd x <? 0)%Z; auto. }
  assert (Hk1 : Forall (fun e => is_matched_at cards (Some (fst e)) = false)
                       (knownCards (purgeMatchedCardsFromMemory memory cards))).
  { rewrite purge_knownCards.
    eapply Forall_impl; [apply Forall_filter_true|].
    intros e He. now apply negb_true_iff in He. }
  assert (Hp1 : Forall (fun p => is_matched_at cards (Some (fst p)) = false /\
                                 is_matched_at cards (Some (snd p)) = false)
                       (knownPairs (purgeMatchedCardsFromMemory memory cards))).
  { rewrite purge_knownPairs.
    eapply Forall_impl; [apply Forall_filter_true|].
    intros p Hp. apply andb_true_iff in Hp. now rewrite !negb_true_iff in Hp. }
  destruct (length (findStrictlyAvailableCards cards) <? 2).
  { cbn [fst snd mret Gen_ret]. auto. }
  unfold mbind, Gen_bind, mret, Gen_ret.
  set (memory1 := purgeMatchedCardsFromMemory memory cards) in *.
  assert (Hk2 : Forall (fun e => is_matched_at cards (Some (fst e)) = false)
                       (knownCards (fst (updateMemory memory1 cards playerMoves g)))).
  { apply knownCards_updateMemory.
    - intros index card Hc Hm. unfold is_matched_at. cbn [at_index_opt fst].
      now rewrite Hc.
    - intros index card r Hc Hm _. unfold is_matched_at. cbn [at_index_opt fst].
      now rewrite Hc.
    - eapply Forall_impl; [apply Forall_filter_true|].
      intros e He. now apply negb_true_iff in He. }
  assert (Hp2 : Forall (fun p => is_matched_at cards (Some (fst p)) = false /\
                                 is_matched_at cards (Some (snd p)) = false)
                       (knownPairs (fst (updateMemory memory1 cards playerMoves g)))).
  { destruct (updateMemory_shape memory1 cards playerMoves g) as (known1 & g1 & E).
    rewrite E in Hk2 |- *. cbn zeta in *.
    cbn [knownCards knownPairs with_lastPlayerMoves] in *.
    apply Forall_updateKnownPairs.
    - cbn [knownPairs with_knownCards with_knownPairs]. apply kept_pairs_unmatched.
    - intros e1 e2 H1 H2. cbn [fst snd].
      rewrite knownCards_updateKnownPairs in Hk2.
      cbn [knownCards with_knownCards] in Hk2, H1, H2.
      rewrite List.Forall_forall in Hk2. split; apply Hk2; assumption. }
  destruct (updateMemory memory1 cards playerMoves g) as [memory2 g1].
  destruct (getReactionDelay memory2 g1) as [delay g2].
  destruct (calculateSafeMove memory2 cards matchType _ g2) as [selectedMove g3].
  cbn [fst snd] in *. auto.
Qed.

(** ** aiLogic.ts: the memory limit *)

Lemma AI_MEMORY_LIMITS_pos (d : AIDifficulty) : 0 < AI_MEMORY_LIMITS d.
Proof. destruct d; simpl; lia. Qed.

Lemma length_map_set (k : Z) (v : Card) (m : list (Z * Card)) :
  length (map_set k v m) <= S (length m).
Proof.
  unfold map_set. destruct (map_has k m).
  - rewrite length_map. lia.
  - rewrite length_app. simpl. lia.
Qed.

Lemma length_fold_map_set (l : list (Z * Card)) :
  forall acc : list (Z * Card),
    length (fold_left (fun m e => map_set (fst e) (snd e) m) l acc)
    <= length acc + length l.
Proof.
  induction l as [|e l IH]; intros acc; cbn [fold_left length]; [lia|].
  pose proof (IH (map_set (fst e) (snd e) acc)).
  pose proof (length_map_set (fst e) (snd e) acc). lia.
Qed.

Lemma length_map_of_entries (l : list (Z * Card)) :
  length (map_of_entries l) <= length l.
Proof. exact (length_fold_map_set l []). Qed.

Lemma length_slice_last {A : Type} (n : nat) (l : list A) :
  0 < n -> length (slice_last n l) <= n.
Proof.
  intros Hn. unfold slice_last.
  destruct (Nat.eqb_spec n 0); [lia|]. rewrite length_skipn. lia.
Qed.

Lemma length_kept (limit : nat) (paired : list Z) (entries : list (Z * Card)) :
  forall acc : list (Z * Card),
    length acc <= limit ->
    length (fold_left (fun keep entry =>
                         if set_has paired (fst entry) && (length keep <? limit)
                         then keep ++ [entry] else keep) entries acc) <= limit.
Proof.
  induction entries as [|e entries IH]; intros acc Hacc; [exact Hacc|].
  cbn [fold_left]. apply IH.
  destruct (set_has paired (fst e)); cbn [andb]; [|exact Hacc].
  destruct (Nat.ltb_spec (length acc) limit); [|exact Hacc].
  rewrite length_app. simpl. lia.
Qed.

Lemma length_fill_randomly (limit fuel : nat) :
  forall (keepEntries remainingEntries : list (Z * Card)) (g : Rng),
    length keepEntries <= limit ->
    length (fst (fill_randomly fuel limit keepEntries remainingEntries g)) <= limit.
Proof.
  induction fuel as [|fuel IH]; intros keepEntries remainingEntries g Hk;
    [exact Hk|].
  cbn [fill_randomly].
  destruct (Nat.ltb_spec (length keepEntries) limit); cbn [andb]; [|exact Hk].
  destruct (0 <? length remainingEntries); [|exact Hk].
  unfold mbind, Gen_bind.
  destruct (random_below (length remainingEntries) g) as [randomIndex g'].
  apply IH. rewrite length_app.
  destruct (remainingEntries !! randomIndex); simpl; lia.
Qed.

Lemma length_limit_memory (memory : AIMemory) (known : list (Z * Card)) (g : Rng) :
  length (fst (limit_memory memory known g)) <= AI_MEMORY_LIMITS (difficulty memory).
Proof.
  unfold limit_memory.
  destruct (Nat.ltb_spec (AI_MEMORY_LIMITS (difficulty memory)) (length known));
    [|cbn; lia].
  unfold mbind, Gen_bind, mret, Gen_ret.
  destruct (bool_decide (difficulty memory = easy)
            || bool_decide (difficulty memory = medium)).
  - cbn [fst].
    pose proof (length_map_of_entries
                  (slice_last (AI_MEMORY_LIMITS (difficulty memory)) known)).
    pose proof (length_slice_last (AI_MEMORY_LIMITS (difficulty memory)) known
                  (AI_MEMORY_LIMITS_pos _)).
    lia.
  - match goal with |- context [fill_randomly ?f ?l ?k ?r g] =>
      pose proof (length_fill_randomly l f k r g) as Hfill;
      destruct (fill_randomly f l k r g) as [keepEntries g']
    end.
    cbn [fst] in *.
    pose proof (length_map_of_entries keepEntries).
    assert (length keepEntries <= AI_MEMORY_LIMITS (difficulty memory)).
    { apply Hfill. apply length_kept. simpl. lia. }
    lia.
Qed.

(** [makeMove] never changes the engine's difficulty, and the engine never
    remembers more cards than [AI_MEMORY_LIMITS] allows its difficulty (3,
    7, 12 or 20): a memory within the limit stays within it whatever exit
    [makeMove] takes, and whenever [makeMove] gets as far as choosing a
    move (two cards with ids lie face down and unmatched) the memory it
    leaves is within the limit, whatever it held before. *)
Theorem makeMove_respects_memory_limit (memory : AIMemory) (cards : list Card)
    (matchType : MatchType) (playerMoves : list Move) (g : Rng) :
  difficulty (snd (fst (makeMove memory cards matchType playerMoves g)))
  = difficulty memory /\
  (2 <= length (findStrictlyAvailableCards cards) ->
   length (knownCards (snd (fst (makeMove memory cards matchType playerMoves g))))
   <= AI_MEMORY_LIMITS (difficulty memory)) /\
  (length (knownCards memory) <= AI_MEMORY_LIMITS (difficulty memory) ->
   length (knownCards (snd (fst (makeMove memory cards matchType playerMoves g))))
   <= AI_MEMORY_LIMITS (difficulty memory)).
Proof.
  unfold makeMove.
  destruct (Nat.eqb_spec (length cards) 0) as [Hz | Hnz].
  { cbn [fst snd mret Gen_ret]. split; [reflexivity|]. split; [|auto].
    intros H. rewrite length_findStrictlyAvailableCards in H.
    destruct cards; [simpl in H; lia | discriminate Hz]. }
  set (memory1 := purgeMatchedCardsFromMemory memory cards).
  assert (Hl1 : length (knownCards memory1) <= length (knownCards memory)).
  { unfold memory1. rewrite purge_knownCards. apply filter_length_le. }
  destruct (Nat.ltb_spec (length (findStrictlyAvailableCards cards)) 2) as [Hlt | Hge].
  { cbn [fst snd mret Gen_ret]. split; [reflexivity|]. split; [lia|]. lia. }
  unfold mbind, Gen_bind, mret, Gen_ret.
  destruct (updateMemory_shape memory1 cards playerMoves g) as (known1 & g1 & E).
  destruct (updateMemory memory1 cards playerMoves g) as [memory2 g2].
  cbn [fst] in E.
  destruct (getReactionDelay memory2 g2) as [delay g3].
  destruct (calculateSafeMove memory2 cards matchType _ g3) as [selectedMove g4].
  cbn [fst snd]. rewrite E. cbn zeta.
  cbn [difficulty knownCards with_lastPlayerMoves].
  rewrite knownCards_updateKnownPairs. cbn [knownCards with_knownCards].
  match goal with |- context [limit_memory ?m known1 g1] =>
    pose proof (length_limit_memory m known1 g1) as Hlim
  end.
  cbn [difficulty with_knownPairs with_knownCards] in Hlim.
  change (difficulty memory1) with (difficulty memory) in Hlim.
  split; [reflexivity|]. split; intros _; exact Hlim.
Qed.

Lemma makeMove_respects_memory_limit_witness :
  length (knownCards
            (snd (fst (makeMove (newAIPlayer easy) (cards mismatch_state) mt_color []
                                zero_rng)))) <= 3.
Proof.
  destruct (makeMove_respects_memory_limit (newAIPlayer easy) (cards mismatch_state)
              mt_color [] zero_rng) as (_ & H & _).
  apply H. vm_compute. lia.
Defined.

(** ** aiLogic.ts: the memory is truthful *)

Lemma remembers_truly_same_face (cards cards' : list Card) (e : Z * Card) :
  Forall2 same_face cards cards' ->
  remembers_truly cards e -> remembers_truly cards' e.
Proof.
  intros H (c & Hc & Hs & Hr & Hcol).
  apply at_index_Some in Hc. destruct Hc as [Hrange Hk].
  destruct (Forall2_lookup_l _ _ _ _ _ H Hk) as (c' & Hk' & Hf).
  exists c'. split.
  - apply at_index_Some. rewrite <- (Forall2_length _ _ _ H). auto.
  - destruct Hf as (_ & Es & Er & Ec & _). repeat split; congruence.
Qed.

(** The engine never misremembers: if every card it remembers has the
    suit, rank and colour of the card at that index of the board, this is
    still so after [makeMove], whatever exit it took and whatever was
    drawn, and still so for the board after any transition of the game (a
    flip, a mismatch reset, a pause). A new engine remembers nothing, so
    through a whole game what the engine knows of a card is what the card
    shows; it forgets by omission only. *)
Theorem engine_memory_is_truthful (memory : AIMemory) (s s' : GameState)
    (t : Transition) (playerMoves : list Move) (g : Rng) (d : AIDifficulty) :
  Forall (remembers_truly (cards s)) (knownCards memory) ->
  Forall (remembers_truly (cards s))
         (knownCards (snd (fst (makeMove memory (cards s) (matchType s)
                                         playerMoves g)))) /\
  (transition t s = Some s' ->
   Forall (remembers_truly (cards s')) (knownCards memory)) /\
  knownCards (newAIPlayer d) = [].
Proof.
  intros Hm. split; [|split; [|reflexivity]].
  - unfold makeMove. destruct (length (cards s) =? 0); [exact Hm|].
    set (memory1 := purgeMatchedCardsFromMemory memory (cards s)).
    assert (H1 : Forall (remembers_truly (cards s)) (knownCards memory1)).
    { unfold memory1. rewrite purge_knownCards. revert Hm.
      apply Forall_entries_incl. intros e He. now apply filter_In in He. }
    destruct (length (findStrictlyAvailableCards (cards s)) <? 2); [exact H1|].
    unfold mbind, Gen_bind, mret, Gen_ret.
    assert (H2 : Forall (remembers_truly (cards s))
                        (knownCards (fst (updateMemory memory1 (cards s)
                                                       playerMoves g)))).
    { apply knownCards_updateMemory.
      - intros index card Hc _. exists card. auto.
      - intros index card r Hc _ (c & Hc' & Hs & Hr & Hcol).
        cbn [fst] in Hc'. exists c. cbn [fst snd suit rank color]. auto.
      - revert H1. apply Forall_entries_incl. intros e He.
        now apply filter_In in He. }
    destruct (updateMemory memory1 (cards s) playerMoves g) as [memory2 g1].
    destruct (getReactionDelay memory2 g1) as [delay g2].
    destruct (calculateSafeMove memory2 (cards s) (matchType s) _ g2)
      as [selectedMove g3].
    exact H2.
  - intros Ht. destruct (transition_same t s s' Ht) as (Hc & _).
    eapply Forall_impl; [exact Hm|].
    intros e He. exact (remembers_truly_same_face _ _ e Hc He).
Qed.

Lemma engine_memory_is_truthful_witness :
  Forall (remembers_truly (cards mismatch_state))
         (knownCards (snd (fst (makeMove (newAIPlayer expert) (cards mismatch_state)
                                         (matchType mismatch_state) [] zero_rng)))) /\
  length (knownCards (snd (fst (makeMove (newAIPlayer expert) (cards mismatch_state)
                                         (matchType mismatch_state) [] zero_rng)))) = 2.
Proof.
  split; [|vm_compute; reflexivity].
  apply (engine_memory_is_truthful (newAIPlayer expert) mismatch_state mismatch_state
           T_pause_hook [] zero_rng expert).
  constructor.
Defined.

(** ** aiLogic.ts: the emergency move, the pattern test, the delay *)

Lemma first_with_id_spec (a : list (Z * Card)) :
  first_with_id a
  = head (map fst (List.filter (fun e => truthy (id (snd e))) a)).
Proof.
  unfold first_with_id.
  induction a as [|e a IH]; [reflexivity|].
  cbn [List.find List.filter].
  destruct (truthy (id (snd e))); [reflexivity | exact IH].
Qed.

Lemma emergency_scan_spec (a : list (Z * Card)) :
  emergency_scan a
  = match map fst (List.filter (fun e => truthy (id (snd e))) a) with
    | i :: j :: _ => Some (i, j)
    | _ => None
    end.
Proof.
  induction a as [|[i card] a IH]; [reflexivity|].
  cbn [emergency_scan List.filter snd].
  destruct (truthy (id card)); [|exact IH].
  cbn [map fst]. rewrite first_with_id_spec, IH.
  destruct (map fst _) as [|j l]; reflexivity.
Qed.

(** [forceEmergencyMove] looks at ids only: when at least two cards of the
    board carry an id it returns the two lowest indices of such cards,
    whether or not those cards are face up or matched; otherwise it returns
    [0, min(1, length - 1)], which is [0, 0] on a board of one card and
    [0, -1] on an empty board. *)
Theorem forceEmergencyMove_spec (cards : list Card) :
  forceEmergencyMove cards
  = match indices_with_id cards with
    | i :: j :: _ => (Some i, Some j)
    | _ => (Some 0, Some (Z.min 1 (Z.of_nat (length cards) - 1)))%Z
    end /\
  (Forall (fun c => truthy (id c) = true) cards -> 2 <= length cards ->
   forceEmergencyMove cards = (Some 0, Some 1)%Z) /\
  (length cards = 1 -> forceEmergencyMove cards = (Some 0, Some 0)%Z) /\
  (length cards = 0 -> forceEmergencyMove cards = (Some 0, Some (-1))%Z).
Proof.
  assert (E : forceEmergencyMove cards
              = match indices_with_id cards with
                | i :: j :: _ => (Some i, Some j)
                | _ => (Some 0, Some (Z.min 1 (Z.of_nat (length cards) - 1)))%Z
                end).
  { unfold forceEmergencyMove, indices_with_id. rewrite emergency_scan_spec.
    destruct (map fst _) as [|i [|j l]]; reflexivity. }
  split; [exact E|]. split; [|split].
  - intros Hids Hlen. rewrite E.
    destruct cards as [|c0 [|c1 cards']]; [simpl in Hlen; lia ..|].
    inversion Hids as [|? ? H0 Hids']; subst.
    inversion Hids' as [|? ? H1 _]; subst.
    unfold indices_with_id, indexed. cbn [imap List.filter snd map fst].
    rewrite H0. cbn [List.filter snd map fst imap compose]. rewrite H1.
    reflexivity.
  - intros Hlen. rewrite E. destruct cards as [|c0 [|c1 cards']]; try discriminate.
    unfold indices_with_id, indexed. cbn [imap List.filter snd map fst length].
    destruct (truthy (id c0)); reflexivity.
  - intros Hlen. rewrite E. destruct cards; [reflexivity | discriminate].
Qed.

Lemma forceEmergencyMove_spec_witness :
  forceEmergencyMove (cards mismatch_state) = (Some 0, Some 1)%Z.
Proof.
  destruct (forceEmergencyMove_spec (cards mismatch_state)) as (_ & H & _).
  apply H; [|vm_compute; lia].
  apply Forall_forall. intros c Hc.
  apply list_elem_of_In in Hc. vm_compute in Hc.
  repeat (destruct Hc as [<- | Hc]; [reflexivity|]). destruct Hc.
Defined.

Lemma find_by_id (l : list Card) (c : Card) :
  NoDup (map id l) -> In c l ->
  List.find (fun card => String.eqb (id card) (id c)) l = Some c.
Proof.
  induction l as [|h l IH]; intros Hnd Hin; [destruct Hin|].
  cbn [map] in Hnd. apply NoDup_cons in Hnd. destruct Hnd as [Hh Hnd].
  cbn [List.find]. destruct (String.eqb_spec (id h) (id c)) as [E | N].
  - destruct Hin as [-> | Hin]; [reflexivity|].
    exfalso. apply Hh. rewrite E. apply list_elem_of_In, in_map, Hin.
  - destruct Hin as [-> | Hin]; [congruence|]. auto.
Qed.

(** On the board of every reachable state, [determineMatchType] called
    with the ids of two cards of the board answers 'color' when their
    colours agree, else 'rank' when their ranks agree, else null: it never
    answers 'suit', as two cards of one suit have one colour and the colour
    test comes first. So it answers non-null for every pair that matches
    under the game's criterion, and in a game played by suit every match is
    reported as a 'color' match. *)
Theorem determineMatchType_on_reachable_state (s : GameState) (card1 card2 : Card) :
  reachable any s -> In card1 (cards s) -> In card2 (cards s) ->
  determineMatchType (id card1) (id card2) (cards s)
  = (if bool_decide (color card1 = color card2) then Some mt_color
     else if bool_decide (rank card1 = rank card2) then Some mt_rank
     else None) /\
  determineMatchType (id card1) (id card2) (cards s) <> Some mt_suit /\
  (cardsMatch card1 card2 (matchType s) = true ->
   determineMatchType (id card1) (id card2) (cards s) <> None) /\
  (cardsMatch card1 card2 mt_suit = true ->
   determineMatchType (id card1) (id card2) (cards s) = Some mt_color).
Proof.
  intros Hr H1 H2.
  pose proof (inv_ids s (reachable_invariant s Hr)) as Hnd.
  pose proof (tab_colors s (reachable_table s Hr)) as Hcol.
  rewrite List.Forall_forall in Hcol.
  pose proof (Hcol card1 H1) as C1. pose proof (Hcol card2 H2) as C2.
  assert (E : determineMatchType (id card1) (id card2) (cards s)
              = (if bool_decide (color card1 = color card2) then Some mt_color
                 else if bool_decide (rank card1 = rank card2) then Some mt_rank
                 else None)).
  { unfold determineMatchType.
    rewrite (find_by_id _ card1 Hnd H1), (find_by_id _ card2 Hnd H2).
    destruct (bool_decide (color card1 = color card2)) eqn:Ec; [reflexivity|].
    destruct (bool_decide (rank card1 = rank card2)); [reflexivity|].
    destruct (bool_decide (suit card1 = suit card2)) eqn:Es; [|reflexivity].
    apply bool_decide_eq_true in Es. apply bool_decide_eq_false in Ec.
    exfalso. apply Ec. rewrite C1, C2, Es. reflexivity. }
  assert (S : suit card1 = suit card2 -> color card1 = color card2).
  { intros Es. rewrite C1, C2, Es. reflexivity. }
  rewrite E. split; [reflexivity|]. split; [|split].
  - destruct (bool_decide (color card1 = color card2)); [discriminate|].
    destruct (bool_decide (rank card1 = rank card2)); discriminate.
  - intros Hm. destruct (matchType s); cbn [cardsMatch] in Hm;
      apply bool_decide_eq_true in Hm.
    + rewrite (bool_decide_eq_true_2 _ Hm). discriminate.
    + destruct (bool_decide (color card1 = color card2)); [discriminate|].
      rewrite (bool_decide_eq_true_2 _ Hm). discriminate.
    + rewrite (bool_decide_eq_true_2 _ (S Hm)). discriminate.
  - intros Hm. cbn [cardsMatch] in Hm. apply bool_decide_eq_true in Hm.
    rewrite (bool_decide_eq_true_2 _ (S Hm)). reflexivity.
Qed.

Lemma determineMatchType_on_reachable_state_witness :
  determineMatchType "card-1" "card-8" (cards fresh_ai_vs_ai_game) = Some mt_color.
Proof.
  pose proof (determineMatchType_on_reachable_state fresh_ai_vs_ai_game
                (mkCard "card-1" hearts r2 red 0 false false)
                (mkCard "card-8" hearts r2 red 7 false false)
                fresh_ai_vs_ai_game_reachable) as H.
  destruct H as (_ & _ & _ & H).
  - vm_compute. left. reflexivity.
  - vm_compute. do 7 right. left. reflexivity.
  - exact (H eq_refl).
Defined.

Lemma scaled_draw_range (r : Rand) (lo hi : Z) :
  (lo <= hi)%Z ->
  (inject_Z lo <= rand_value r * inject_Z (hi - lo) + inject_Z lo)%Q /\
  (rand_value r * inject_Z (hi - lo) + inject_Z lo <= inject_Z hi)%Q.
Proof.
  intros Hle. pose proof (rand_value_range r) as [H0 H1].
  unfold rand_value, Qle, Qmult, Qplus, inject_Z. cbn [Qnum Qden].
  rewrite !Pos.mul_1_r, !Z.mul_1_r.
  set (n := Z.of_N (rnum r)) in *. set (d := Z.pos (rand_den r)) in *.
  assert (Hn : (0 <= n * (hi - lo))%Z) by (apply Z.mul_nonneg_nonneg; lia).
  assert (Hd : (n * (hi - lo) <= d * (hi - lo))%Z)
    by (apply Z.mul_le_mono_nonneg_r; lia).
  split; lia.
Qed.

(** [getReactionDelay] draws one random number and returns a delay between
    the two bounds [AI_REACTION_TIMES] gives the engine's difficulty, both
    included: 1000 to 2000 ms for easy, 500 to 1000 for medium, 200 to 500
    for hard, 100 to 300 for expert. *)
Theorem getReactionDelay_range (memory : AIMemory) (g : Rng) :
  (inject_Z (fst (AI_REACTION_TIMES (difficulty memory)))
   <= fst (getReactionDelay memory g))%Q /\
  (fst (getReactionDelay memory g)
   <= inject_Z (snd (AI_REACTION_TIMES (difficulty memory))))%Q /\
  snd (getReactionDelay memory g) = (fun n => g (S n)) /\
  (0 < fst (AI_REACTION_TIMES (difficulty memory))
     < snd (AI_REACTION_TIMES (difficulty memory)))%Z.
Proof.
  assert (B : (0 < fst (AI_REACTION_TIMES (difficulty memory))
                 < snd (AI_REACTION_TIMES (difficulty memory)))%Z)
    by (destruct (difficulty memory); cbn; lia).
  unfold getReactionDelay.
  destruct (AI_REACTION_TIMES (difficulty memory)) as [lo hi].
  cbn [fst snd] in *. unfold mbind, Gen_bind, mret, Gen_ret, random. cbn [fst snd].
  destruct (scaled_draw_range (g 0) lo hi) as [Hlo Hhi]; [lia|].
  repeat split; try assumption; lia.
Qed.

(** The validator of the earlier pipeline and the strict one of [makeMove]
    decide the same moves. *)
Lemma validateMove_isValidMoveStrict (cards : list Card) (move : MovePair) :
  validateMove cards move = isValidMoveStrict cards move.
Proof.
  unfold validateMove, isValidMoveStrict.
  destruct move as [[index1|] [index2|]]; try reflexivity.
  destruct (_ || _ || _ || _); [reflexivity|].
  destruct (index1 =? index2)%Z; [reflexivity|].
  destruct (at_index cards index1) as [card1|]; [|reflexivity].
  destruct (at_index cards index2) as [card2|]; [|reflexivity].
  destruct (negb (truthy (id card1)) || negb (truthy (id card2))); [reflexivity|].
  destruct (isFlipped card1), (isMatched card1), (isFlipped card2), (isMatched card2);
    reflexivity.
Qed.
